(** * qontract-reconcile: trigger deduplication and reconciliation core

    A shallow embedding of
      - reconcile/openshift_saas_deploy_trigger_base.py
      - reconcile/saas_file_owners.py
      - reconcile/ocm_groups.py
    and the properties of the specification that are stated about them.

    Python sets and dicts keyed by strings are stdpp [gset]/[gmap];
    side effects on external collaborators are recorded as a trace of
    events in an explicit state; Python exceptions are an [outcome]. *)

From Stdlib Require Import Ascii String Qcanon.
From stdpp Require Import gmap strings list fin_maps sorting.

Local Open Scope string_scope.

(** ** Outcomes of fallible Python code *)

Inductive exn :=
| KeyError (key : string)
| TypeError (what : string)
| RecursionError
| Exception (details : string).

Inductive outcome (A : Type) :=
| Ok (a : A)
| Raise (e : exn).
Arguments Ok {A} a.
Arguments Raise {A} e.

#[global] Instance exn_eq_dec : EqDecision exn.
Proof. solve_decision. Defined.
#[global] Instance outcome_eq_dec `{EqDecision A} : EqDecision (outcome A).
Proof. solve_decision. Defined.

#[global] Instance outcome_ret : MRet outcome := λ A a, Ok a.
#[global] Instance outcome_bind : MBind outcome := λ A B k m,
  match m with
  | Ok a => k a
  | Raise e => Raise e
  end.

(** Code that works on a state of type [S] and may raise. *)
Definition stateful (S A : Type) : Type := S → outcome A * S.

#[global] Instance stateful_ret {S} : MRet (stateful S) := λ A a σ, (Ok a, σ).
#[global] Instance stateful_bind {S} : MBind (stateful S) := λ A B k m σ,
  match m σ with
  | (Ok a, σ') => k a σ'
  | (Raise e, σ') => (Raise e, σ')
  end.

(** * Part I: the embedding *)

(** ** reconcile/openshift_saas_deploy_trigger_base.py *)

Module TriggerBase.

(** *** Data read by the trigger code *)

(** [spec['pipelines_provider']['namespace']] of a Tekton provider. *)
Record namespace_info := {
  ns_name : string;               (* ['name'] *)
  ns_cluster_name : string;       (* ['cluster']['name'] *)
  ns_cluster_consoleUrl : string; (* ['cluster']['consoleUrl'] *)
}.

(** [spec['pipelines_provider']]: the ['provider'] tag compared with
    [Providers.JENKINS] and [Providers.TEKTON], with the fields each kind
    carries. *)
Inductive provider :=
| Jenkins (instance_name : string)      (* ['instance']['name'] *)
| Tekton (namespace : namespace_info)   (* ['namespace'] *)
| Unsupported (provider_name : string).

(** A trigger spec as created by saasherder. *)
Record trigger_spec := {
  saas_file_name : string;
  env_name : string;
  pipelines_provider : provider;
}.

(** App-interface settings: the key the trigger code reads. *)
Record settings := { saasDeployJobTemplate : string }.

(** The PipelineRun document built by
    [_construct_tekton_trigger_resource]. *)
Record pipeline_run := {
  apiVersion : string;
  kind : string;
  metadata_name : string;
  pipelineRef_name : string;
  params : list (string * string);  (* "name", "value" *)
}.

(** [OpenshiftResource(body, integration, integration_version,
    error_details)]. *)
Record openshift_resource := {
  body : pipeline_run;
  integration_of : string;
  integration_version_of : string;
  error_details : string;
}.

(** A Jenkins client: [trigger_job job_name] is [None] when the call
    returns and [Some details] when it raises an exception [e] with
    [str(e) = details]. *)
Record jenkins_api := { trigger_job : string → option string }.

Record target := {
  target_namespace : string;
  target_ref : string;
  disable : bool;
}.
Record resource_template := {
  rt_name : string;
  targets : list target;
}.
Record saas_file := {
  name : string;
  resourceTemplates : list resource_template;
}.

#[global] Instance namespace_info_eq_dec : EqDecision namespace_info.
Proof. solve_decision. Defined.
#[global] Instance provider_eq_dec : EqDecision provider.
Proof. solve_decision. Defined.
#[global] Instance trigger_spec_eq_dec : EqDecision trigger_spec.
Proof. solve_decision. Defined.
#[global] Instance pipeline_run_eq_dec : EqDecision pipeline_run.
Proof. solve_decision. Defined.
#[global] Instance openshift_resource_eq_dec : EqDecision openshift_resource.
Proof. solve_decision. Defined.
#[global] Instance target_eq_dec : EqDecision target.
Proof. solve_decision. Defined.

(** *** External collaborators

    The query layer, the job-name builder, the clock, the cluster-apply
    client and saasherder are not part of the trigger code; it is
    parametric in them. *)
Class Collaborators := {
  (** [queries.get_saas_files(v1, v2)] *)
  queries_get_saas_files : bool → bool → list saas_file;
  (** [queries.get_app_interface_settings()] *)
  queries_get_app_interface_settings : settings;
  (** [jenkins_base.get_jenkins_map()] *)
  jenkins_base_get_jenkins_map : gmap string jenkins_api;
  (** [is_in_shard(name)] *)
  is_in_shard : string → bool;
  (** [get_openshift_saas_deploy_job_name(saas_file_name, env_name,
      settings)] *)
  get_openshift_saas_deploy_job_name : string → string → settings → string;
  (** [UNIQUE_SAAS_FILE_ENV_COMBO_LEN] *)
  UNIQUE_SAAS_FILE_ENV_COMBO_LEN : nat;
  (** [datetime.datetime.utcnow().strftime('%Y%m%d%H%M')] at the n-th
      reading of the clock *)
  utcnow_strftime : nat → string;
  (** [osb.create(dry_run, oc_map, cluster, namespace, resource_type,
      resource)]: [Some details] when it raises *)
  osb_create : bool → string → string → string → openshift_resource
               → option string;
  (** [saasherder.get_diff(trigger_type, dry_run)] of the saasherder
      built on the given saas files *)
  saasherder_get_diff : list saas_file → string → bool
                        → list trigger_spec * bool;
}.

(** *** Effects *)

(** Calls to the collaborators, in the order they are made. *)
Inductive event :=
| logging_error (msg : string)
| logging_info (items : list string)
| get_diff (trigger_type : string) (dry_run : bool)
| jenkins_trigger_job (instance_name job_name : string)
| osb_create_resource (dry_run : bool) (cluster namespace resource_type : string)
                      (resource : openshift_resource)
| update_state (trigger_type : string) (spec : trigger_spec)
| oc_map_cleanup.

#[global] Instance event_eq_dec : EqDecision event.
Proof. solve_decision. Defined.

(** What a pass shares between its workers: the set [already_triggered]
    (one object, passed by reference to every call of [trigger]), the
    calls made so far, and the number of clock readings. *)
Record world := {
  already_triggered : gset string;
  trace : list event;
  clock : nat;
}.

Definition M (A : Type) : Type := world → outcome A * world.

#[global] Instance M_ret : MRet M := λ A a w, (Ok a, w).
#[global] Instance M_bind : MBind M := λ A B k m w,
  match m w with
  | (Ok a, w') => k a w'
  | (Raise e, w') => (Raise e, w')
  end.

Definition raise {A} (e : exn) : M A := λ w, (Raise e, w).

Definition emit (ev : event) : M unit := λ w,
  (Ok tt, {| already_triggered := already_triggered w;
             trace := trace w ++ [ev];
             clock := clock w |}).

(** *** The trigger code *)

(** [_register_trigger(name, already_triggered)]: the body of the
    [with _trigger_lock] block runs atomically, so one call is one step
    on the shared set. The first component is [to_trigger], the second
    the set after the call. *)
Definition _register_trigger (name : string) (already_triggered : gset string)
  : bool * gset string :=
  if decide (name ∉ already_triggered)
  then (true, {[name]} ∪ already_triggered)
  else (false, already_triggered).

(** A pass: the calls of [_register_trigger] in the order in which they
    take the lock; returns the answers given and the final registry. *)
Fixpoint register_calls (names : list string) (already_triggered : gset string)
  : list bool * gset string :=
  match names with
  | [] => ([], already_triggered)
  | name :: rest =>
      let '(to_trigger, reg) := _register_trigger name already_triggered in
      let '(answers, final) := register_calls rest reg in
      (to_trigger :: answers, final)
  end.

(** A call of [_register_trigger] on the set of the pass. *)
Definition on_already_triggered {A} (f : gset string → A * gset string) : M A :=
  λ w, let '(a, reg) := f (already_triggered w) in
       (Ok a, {| already_triggered := reg; trace := trace w; clock := clock w |}).

(** [str.lower()].  A string is the sequence of its characters, and a
    character is its code point, which [ascii] has up to 255: [len] and
    slices count characters.  Among these, [str.lower()] moves the letters
    [A] to [Z] and the letters from [À] to [Þ] (192 to 222, but for the
    sign [×], 215) by 32, and leaves the others. *)
Definition lower_ascii (c : ascii) : ascii :=
  let n := nat_of_ascii c in
  if (65 <=? n)%nat && (n <=? 90)%nat
     || (192 <=? n)%nat && (n <=? 222)%nat && negb (n =? 215)%nat
  then ascii_of_nat (n + 32) else c.

Fixpoint lower (s : string) : string :=
  match s with
  | EmptyString => EmptyString
  | String c rest => String (lower_ascii c) (lower rest)
  end.

Section trigger_code.
Context `{Collaborators}.

Definition utcnow : M string := λ w,
  (Ok (utcnow_strftime (clock w)),
   {| already_triggered := already_triggered w; trace := trace w;
      clock := S (clock w) |}).

Definition _construct_tekton_trigger_resource
    (saas_file_name env_name tkn_cluster_console_url tkn_namespace_name : string)
    (settings : settings) (integration integration_version : string)
  : M (openshift_resource * string) :=
  let long_name := lower (saas_file_name ++ "-" ++ env_name) in
  ts ← utcnow;
  let name :=
    substring 0 UNIQUE_SAAS_FILE_ENV_COMBO_LEN long_name ++ "-" ++ ts in
  let body := {|
    apiVersion := "tekton.dev/v1beta1";
    kind := "PipelineRun";
    metadata_name := name;
    pipelineRef_name := saasDeployJobTemplate settings;
    params := [("saas_file_name", saas_file_name);
               ("env_name", env_name);
               ("tkn_cluster_console_url", tkn_cluster_console_url);
               ("tkn_namespace_name", tkn_namespace_name)] |} in
  mret ({| body := body; integration_of := integration;
           integration_version_of := integration_version;
           error_details := name |}, long_name).

Definition _trigger_jenkins (spec : trigger_spec) (dry_run : bool)
    (jenkins_map : gmap string jenkins_api) (settings : settings)
    (trigger_type : string) : M bool :=
  let saas_file_name := saas_file_name spec in
  let env_name := env_name spec in
  match pipelines_provider spec with
  | Jenkins instance_name =>
      let job_name :=
        get_openshift_saas_deploy_job_name saas_file_name env_name settings in
      to_trigger ← on_already_triggered (_register_trigger job_name);
      error ←
        (if to_trigger : bool then
           emit (logging_info ["trigger_job"; instance_name; job_name]);;
           if negb dry_run then
             match jenkins_map !! instance_name with
             | None => raise (KeyError instance_name)
             | Some jenkins =>
                 emit (jenkins_trigger_job instance_name job_name);;
                 match trigger_job jenkins job_name with
                 | None => mret false
                 | Some details =>
                     emit (logging_error
                             ("could not trigger job " ++ job_name ++
                              " in " ++ instance_name ++
                              ". details: " ++ details));;
                     mret true
                 end
             end
           else mret false
         else mret false);
      (if negb error && negb dry_run
       then emit (update_state trigger_type spec) else mret tt);;
      mret error
  | _ => raise (KeyError "instance")
  end.

Definition _trigger_tekton (spec : trigger_spec) (dry_run : bool)
    (settings : settings) (trigger_type integration integration_version : string)
  : M bool :=
  let saas_file_name := saas_file_name spec in
  let env_name := env_name spec in
  match pipelines_provider spec with
  | Tekton tkn_namespace_info =>
      let tkn_namespace_name := ns_name tkn_namespace_info in
      let tkn_cluster_name := ns_cluster_name tkn_namespace_info in
      let tkn_cluster_console_url := ns_cluster_consoleUrl tkn_namespace_info in
      '(tkn_trigger_resource, tkn_name) ←
        _construct_tekton_trigger_resource saas_file_name env_name
          tkn_cluster_console_url tkn_namespace_name settings
          integration integration_version;
      to_trigger ← on_already_triggered (_register_trigger tkn_name);
      error ←
        (if to_trigger : bool then
           emit (osb_create_resource dry_run tkn_cluster_name tkn_namespace_name
                   (kind (body tkn_trigger_resource)) tkn_trigger_resource);;
           match osb_create dry_run tkn_cluster_name tkn_namespace_name
                   (kind (body tkn_trigger_resource)) tkn_trigger_resource with
           | None => mret false
           | Some details =>
               emit (logging_error
                       ("could not trigger pipeline " ++ tkn_name ++
                        " in " ++ tkn_cluster_name ++ "/" ++
                        tkn_namespace_name ++ ". details: " ++ details));;
               mret true
           end
         else mret false);
      (if negb error && negb dry_run
       then emit (update_state trigger_type spec) else mret tt);;
      mret error
  | _ => raise (KeyError "namespace")
  end.

Definition trigger (spec : trigger_spec) (dry_run : bool)
    (jenkins_map : gmap string jenkins_api) (settings : settings)
    (trigger_type integration integration_version : string) : M bool :=
  match pipelines_provider spec with
  | Jenkins _ =>
      _trigger_jenkins spec dry_run jenkins_map settings trigger_type
  | Tekton _ =>
      _trigger_tekton spec dry_run settings trigger_type
        integration integration_version
  | Unsupported provider_name =>
      emit (logging_error
              ("[" ++ saas_file_name spec ++ "] unsupported provider: " ++
               provider_name));;
      mret true
  end.

(** [list.remove(x)]: drops the first element equal to [x]. *)
Fixpoint list_remove (x : target) (l : list target) : list target :=
  match l with
  | [] => []
  | y :: l' => if decide (x = y) then l' else y :: list_remove x l'
  end.

(** The loop [for target in targets[:]: if target['disable']:
    targets.remove(target)]. *)
Definition remove_disabled (targets : list target) : list target :=
  foldl (λ ts target, if disable target then list_remove target ts else ts)
        targets targets.

(** What [setup] hands to [run]: the saas files saasherder was built on,
    the Jenkins clients and the settings. *)
Record resources := {
  saasherder : list saas_file;
  jenkins_map : gmap string jenkins_api;
  settings_of : settings;
}.

Definition setup (thread_pool_size : nat) (internal use_jump_host : bool)
    (integration integration_version : string) (v1 v2 : bool)
  : M (option resources * bool) :=
  let saas_files := queries_get_saas_files v1 v2 in
  if bool_decide (saas_files = []) then
    emit (logging_error "no saas files found");;
    mret (None, true)
  else
    let saas_files := filter (λ sf, is_in_shard (name sf) = true) saas_files in
    let saas_files :=
      (λ sf, {| name := name sf;
                resourceTemplates :=
                  (λ rt, {| rt_name := rt_name rt;
                            targets := remove_disabled (targets rt) |})
                  <$> resourceTemplates sf |}) <$> saas_files in
    mret (Some {| saasherder := saas_files;
                  jenkins_map := jenkins_base_get_jenkins_map;
                  settings_of := queries_get_app_interface_settings |},
          false).

(** Modelled from the spec: [threaded.run], "a generic map of a function
    over inputs with bounded parallelism". The workers only share the
    lock-protected set, so a pass is taken in the order in which its
    workers run, here the order of the inputs; an exception that leaves a
    worker ends the map. *)
Fixpoint threaded_run {A B} (func : A → M B) (iterable : list A) : M (list B) :=
  match iterable with
  | [] => mret []
  | x :: rest =>
      y ← func x;
      ys ← threaded_run func rest;
      mret (y :: ys)
  end.

(** [@defer]: the registered call runs when the function is left. *)
Definition deferring {A} (deferred : event) (m : M A) : M A := λ w,
  let '(r, w') := m w in
  (r, {| already_triggered := already_triggered w';
         trace := trace w' ++ [deferred]; clock := clock w' |}).

Definition run (dry_run : bool) (trigger_type integration integration_version : string)
    (thread_pool_size : nat) (internal use_jump_host v1 v2 : bool) : M bool :=
  '(res, error) ← setup thread_pool_size internal use_jump_host
                    integration integration_version v1 v2;
  if error : bool then mret error
  else
    match res with
    | None => raise (TypeError "NoneType")
    | Some res =>
        deferring oc_map_cleanup (
          emit (get_diff trigger_type dry_run);;
          let '(trigger_specs, diff_err) :=
            saasherder_get_diff (saasherder res) trigger_type dry_run in
          (* already_triggered = set() *)
          on_already_triggered (λ _, (tt, ∅));;
          errors ← threaded_run
                     (λ spec, trigger spec dry_run (jenkins_map res)
                                (settings_of res) trigger_type
                                integration integration_version)
                     trigger_specs;
          mret (existsb id (errors ++ [diff_err])))
    end.

(** *** Notions used to state the properties of a pass *)

(** The identity a spec registers in [already_triggered]: the Jenkins job
    name, or the [long_name] returned by
    [_construct_tekton_trigger_resource]. *)
Definition trigger_identity (settings : settings) (spec : trigger_spec)
  : option string :=
  match pipelines_provider spec with
  | Jenkins _ =>
      Some (get_openshift_saas_deploy_job_name
              (saas_file_name spec) (env_name spec) settings)
  | Tekton _ => Some (lower (saas_file_name spec ++ "-" ++ env_name spec))
  | Unsupported _ => None
  end.

(** The resource [_construct_tekton_trigger_resource] builds when the
    clock reads [ts]. *)
Definition pipeline_run_resource
    (saas_file_name env_name tkn_cluster_console_url tkn_namespace_name : string)
    (settings : settings) (integration integration_version ts : string)
  : openshift_resource :=
  let name :=
    substring 0 UNIQUE_SAAS_FILE_ENV_COMBO_LEN
      (lower (saas_file_name ++ "-" ++ env_name)) ++ "-" ++ ts in
  {| body := {| apiVersion := "tekton.dev/v1beta1";
                kind := "PipelineRun";
                metadata_name := name;
                pipelineRef_name := saasDeployJobTemplate settings;
                params := [("saas_file_name", saas_file_name);
                           ("env_name", env_name);
                           ("tkn_cluster_console_url", tkn_cluster_console_url);
                           ("tkn_namespace_name", tkn_namespace_name)] |};
     integration_of := integration;
     integration_version_of := integration_version;
     error_details := name |}.

(** Clock readings made while one spec is processed. *)
Definition clock_readings (spec : trigger_spec) : nat :=
  match pipelines_provider spec with Tekton _ => 1 | _ => 0 end.

(** The error a spec contributes when it is processed with registry [reg]
    and the clock at its [now]-th reading: an unsupported provider, or an
    adapter call that is made and raises. *)
Definition trigger_error (dry_run : bool) (jenkins_map : gmap string jenkins_api)
    (settings : settings) (integration integration_version : string)
    (reg : gset string) (now : nat) (spec : trigger_spec) : bool :=
  match pipelines_provider spec with
  | Jenkins instance_name =>
      let job_name :=
        get_openshift_saas_deploy_job_name
          (saas_file_name spec) (env_name spec) settings in
      bool_decide (job_name ∉ reg) && negb dry_run &&
      match jenkins_map !! instance_name with
      | Some jenkins => bool_decide (is_Some (trigger_job jenkins job_name))
      | None => false
      end
  | Tekton ns =>
      let resource :=
        pipeline_run_resource (saas_file_name spec) (env_name spec)
          (ns_cluster_consoleUrl ns) (ns_name ns) settings
          integration integration_version (utcnow_strftime now) in
      bool_decide (lower (saas_file_name spec ++ "-" ++ env_name spec) ∉ reg) &&
      bool_decide (is_Some (osb_create dry_run (ns_cluster_name ns) (ns_name ns)
                              (kind (body resource)) resource))
  | Unsupported _ => true
  end.

(** Every Jenkins spec names an instance of the Jenkins map. *)
Definition known_instances (jenkins_map : gmap string jenkins_api)
    (specs : list trigger_spec) : Prop :=
  ∀ spec instance_name, spec ∈ specs →
    pipelines_provider spec = Jenkins instance_name →
    is_Some (jenkins_map !! instance_name).

(** What a spec adds to [already_triggered]. *)
Definition registered (settings : settings) (spec : trigger_spec) : gset string :=
  from_option singleton ∅ (trigger_identity settings spec).

(** Clock readings made while a list of specs is processed. *)
Fixpoint readings (specs : list trigger_spec) : nat :=
  match specs with
  | [] => 0
  | spec :: rest => clock_readings spec + readings rest
  end.

Definition is_update_state (ev : event) : bool :=
  match ev with update_state _ _ => true | _ => false end.

(** The calls that dispatch a trigger to a pipeline provider. *)
Definition is_dispatch (ev : event) : bool :=
  match ev with
  | jenkins_trigger_job _ _ | osb_create_resource _ _ _ _ _ => true
  | _ => false
  end.

End trigger_code.

(** *** Notions used to state further properties *)

(** The identity a PipelineRun resource was built for, read off its
    [saas_file_name] and [env_name] parameters. *)
Definition resource_identity (resource : openshift_resource) : option string :=
  match params (body resource) with
  | (_, saas_file_name) :: (_, env_name) :: _ =>
      Some (lower (saas_file_name ++ "-" ++ env_name))
  | _ => None
  end.

(** The identity an adapter call dispatches: the job of a
    [jenkins.trigger_job], the identity of the resource of an
    [osb.create]. *)
Definition dispatched (ev : event) : option string :=
  match ev with
  | jenkins_trigger_job _ job_name => Some job_name
  | osb_create_resource _ _ _ _ resource => resource_identity resource
  | _ => None
  end.

(** A call that changes something outside the process: a Jenkins job
    triggered, a resource created outside a dry run, a state updated. *)
Definition mutates (ev : event) : bool :=
  match ev with
  | jenkins_trigger_job _ _ => true
  | osb_create_resource dry_run _ _ _ _ => negb dry_run
  | update_state _ _ => true
  | _ => false
  end.

(** *** A small configuration, used in the examples *)

Definition example_settings : settings :=
  {| saasDeployJobTemplate := "openshift-saas-deploy" |}.

Definition example_jenkins : jenkins_api := {| trigger_job := λ _, None |}.

Definition example_namespace : namespace_info :=
  {| ns_name := "pipelines"; ns_cluster_name := "appsre01";
     ns_cluster_consoleUrl := "https://console.appsre01" |}.

Definition example_jenkins_spec : trigger_spec :=
  {| saas_file_name := "App"; env_name := "Prod";
     pipelines_provider := Jenkins "ci-int" |}.

Definition example_tekton_spec : trigger_spec :=
  {| saas_file_name := "App"; env_name := "Prod";
     pipelines_provider := Tekton example_namespace |}.

Definition example_unsupported_spec : trigger_spec :=
  {| saas_file_name := "App"; env_name := "Stage";
     pipelines_provider := Unsupported "argo" |}.

Definition example_collaborators : Collaborators := {|
  queries_get_saas_files := λ _ _,
    [{| name := "App";
        resourceTemplates :=
          [{| rt_name := "app";
              targets := [{| target_namespace := "app-prod";
                             target_ref := "abc"; disable := false |}] |}] |}];
  queries_get_app_interface_settings := example_settings;
  jenkins_base_get_jenkins_map := {[ "ci-int" := example_jenkins ]};
  is_in_shard := λ _, true;
  get_openshift_saas_deploy_job_name := λ saas_file_name env_name _,
    "openshift-saas-deploy-" ++ saas_file_name ++ "-" ++ env_name;
  UNIQUE_SAAS_FILE_ENV_COMBO_LEN := 50;
  utcnow_strftime := λ n,
    if decide (n = 0) then "202101010000" else "202101010001";
  osb_create := λ _ _ _ _ _, None;
  saasherder_get_diff := λ _ _ _,
    ([example_jenkins_spec; example_jenkins_spec;
      example_tekton_spec; example_unsupported_spec], false);
|}.

Definition example_world : world :=
  {| already_triggered := ∅; trace := []; clock := 0 |}.

(** A configuration whose first spec names a Jenkins instance that the
    Jenkins map does not have. *)
Definition example_unknown_instance_collaborators : Collaborators := {|
  queries_get_saas_files := λ _ _,
    [{| name := "App";
        resourceTemplates :=
          [{| rt_name := "app";
              targets := [{| target_namespace := "app-prod";
                             target_ref := "abc"; disable := false |}] |}] |}];
  queries_get_app_interface_settings := example_settings;
  jenkins_base_get_jenkins_map := {[ "ci-int" := example_jenkins ]};
  is_in_shard := λ _, true;
  get_openshift_saas_deploy_job_name := λ saas_file_name env_name _,
    "openshift-saas-deploy-" ++ saas_file_name ++ "-" ++ env_name;
  UNIQUE_SAAS_FILE_ENV_COMBO_LEN := 50;
  utcnow_strftime := λ _, "202101010000";
  osb_create := λ _ _ _ _ _, None;
  saasherder_get_diff := λ _ _ _,
    ([{| saas_file_name := "App"; env_name := "Prod";
         pipelines_provider := Jenkins "ci-ext" |};
      example_unsupported_spec], false);
|}.

Definition example_resources : resources :=
  {| saasherder :=
       queries_get_saas_files (Collaborators:=example_collaborators) true true;
     jenkins_map := {[ "ci-int" := example_jenkins ]};
     settings_of := example_settings |}.

(** A configuration with a disabled target and a saas file outside the
    shard. *)
Definition example_saas_files : list saas_file :=
  [{| name := "App";
      resourceTemplates :=
        [{| rt_name := "app";
            targets := [{| target_namespace := "app-stage";
                           target_ref := "main"; disable := true |};
                        {| target_namespace := "app-prod";
                           target_ref := "abc"; disable := false |};
                        {| target_namespace := "app-stage";
                           target_ref := "main"; disable := true |}] |}] |};
   {| name := "Other"; resourceTemplates := [] |}].

Definition example_sharded_collaborators : Collaborators := {|
  queries_get_saas_files := λ _ _, example_saas_files;
  queries_get_app_interface_settings := example_settings;
  jenkins_base_get_jenkins_map := {[ "ci-int" := example_jenkins ]};
  is_in_shard := λ name, bool_decide (name = "App");
  get_openshift_saas_deploy_job_name := λ saas_file_name env_name _,
    "openshift-saas-deploy-" ++ saas_file_name ++ "-" ++ env_name;
  UNIQUE_SAAS_FILE_ENV_COMBO_LEN := 50;
  utcnow_strftime := λ _, "202101010000";
  osb_create := λ _ _ _ _ _, None;
  saasherder_get_diff := λ _ _ _,
    ([example_jenkins_spec; example_tekton_spec; example_jenkins_spec;
      {| saas_file_name := "App"; env_name := "Prod";
         pipelines_provider := Jenkins "ci-ext" |}], false);
|}.

End TriggerBase.

(** ** reconcile/saas_file_owners.py *)

Module SaasFileOwners.

(** *** State entries *)

(** A value of a [parameters] dict, as [json.loads] returns it: saas
    file parameters are template parameters, a JSON object of scalars.
    The values are taken as Python compares them with [==], which is how
    the code compares entries: a number by its value, whether [json.loads]
    returned it as an [int] or as a [float], with [true] and [false] the
    numbers 1 and 0 ([True == 1 == 1.0]); a string only equals the same
    string, and [None] only [None].  Equality of [json] values is then the
    [==] of Python.  [NaN] and the infinities, which are not JSON, are
    left out. *)
Inductive json :=
| JNull
| JNum (q : Qc)
| JStr (s : string).

(** The dict under ['saas_file_definitions']. *)
Record definitions := {
  managed_resource_types : list string;
  image_patterns : list string;
  use_channel_in_image_tag : bool;
}.

(** One entry of a state, the dict [collect_state] appends. Equality of
    records is equality of the dicts: key by key, whatever the order of
    the keys, [parameters] compared as a mapping. A state read from a
    baseline may carry the key ['disable'] ([valid_diff] pops it when it
    is there); [disable] is [None] when the key is absent. *)
Record state_entry := {
  saas_file_path : string;
  saas_file_name : string;
  resource_template_name : string;
  cluster : string;
  namespace : string;
  environment : string;
  url : string;
  ref : string;
  parameters : gmap string json;
  saas_file_definitions : definitions;
  delete : option bool;
  disable : option (option bool);
}.

#[global] Instance json_eq_dec : EqDecision json.
Proof. solve_decision. Defined.
#[global] Instance definitions_eq_dec : EqDecision definitions.
Proof. solve_decision. Defined.
#[global] Instance state_entry_eq_dec : EqDecision state_entry.
Proof. solve_decision. Defined.

(** *** [collect_state] *)

(** What [queries.get_saas_files] returns, as far as [collect_state]
    reads it. *)
Record target_namespace := {
  tn_name : string;               (* ['name'] *)
  tn_cluster_name : string;       (* ['cluster']['name'] *)
  tn_environment_name : string;   (* ['environment']['name'] *)
}.
Record target := {
  t_namespace : target_namespace;
  t_ref : string;
  t_delete : option bool;         (* target.get('delete') *)
  t_parameters : option string;   (* target.get('parameters') *)
}.
Record resource_template := {
  rt_name : string;
  rt_url : string;
  rt_parameters : option string;
  rt_targets : list target;
}.
Record saas_file := {
  sf_path : string;
  sf_name : string;
  sf_parameters : option string;
  sf_managedResourceTypes : list string;
  sf_imagePatterns : list string;
  sf_use_channel_in_image_tag : option bool;
  sf_resourceTemplates : list resource_template;
}.

Class Queries := {
  (** [queries.get_saas_files(v1=True, v2=True)] *)
  get_saas_files : list saas_file;
  (** [json.loads] on a JSON object; raises on a malformed text *)
  json_loads : string → outcome (gmap string json);
}.

Section collect.
Context `{Queries}.

(** [json.loads(x.get('parameters') or '{}')] *)
Definition loads_parameters (text : option string) : outcome (gmap string json) :=
  match text with
  | None | Some "" => Ok ∅
  | Some text => json_loads text
  end.

(** The loop over [resource_template['targets']]. *)
Fixpoint collect_targets (saas_file : saas_file)
    (saas_file_parameters : gmap string json)
    (saas_file_definitions : definitions)
    (resource_template : resource_template)
    (resource_template_parameters : gmap string json)
    (targets : list target) : outcome (list state_entry) :=
  match targets with
  | [] => Ok []
  | target :: rest =>
      let namespace_info := t_namespace target in
      target_parameters ← loads_parameters (t_parameters target);
      (* parameters = {}; three times parameters.update(...) *)
      let parameters :=
        target_parameters ∪ (resource_template_parameters ∪
          (saas_file_parameters ∪ ∅)) in
      let entry := {|
        saas_file_path := sf_path saas_file;
        saas_file_name := sf_name saas_file;
        resource_template_name := rt_name resource_template;
        cluster := tn_cluster_name namespace_info;
        namespace := tn_name namespace_info;
        environment := tn_environment_name namespace_info;
        url := rt_url resource_template;
        ref := t_ref target;
        parameters := parameters;
        saas_file_definitions := saas_file_definitions;
        delete := t_delete target;
        disable := None |} in
      state ← collect_targets saas_file saas_file_parameters
                 saas_file_definitions resource_template
                 resource_template_parameters rest;
      Ok (entry :: state)
  end.

(** The loop over [saas_file['resourceTemplates']]. *)
Fixpoint collect_resource_templates (saas_file : saas_file)
    (saas_file_parameters : gmap string json)
    (saas_file_definitions : definitions)
    (resource_templates : list resource_template) : outcome (list state_entry) :=
  match resource_templates with
  | [] => Ok []
  | resource_template :: rest =>
      resource_template_parameters ←
        loads_parameters (rt_parameters resource_template);
      state1 ← collect_targets saas_file saas_file_parameters
                  saas_file_definitions resource_template
                  resource_template_parameters (rt_targets resource_template);
      state2 ← collect_resource_templates saas_file saas_file_parameters
                  saas_file_definitions rest;
      Ok (state1 ++ state2)%list
  end.

Fixpoint collect_saas_files (saas_files : list saas_file)
  : outcome (list state_entry) :=
  match saas_files with
  | [] => Ok []
  | saas_file :: rest =>
      saas_file_parameters ← loads_parameters (sf_parameters saas_file);
      let saas_file_definitions := {|
        managed_resource_types := sf_managedResourceTypes saas_file;
        image_patterns := sf_imagePatterns saas_file;
        use_channel_in_image_tag :=
          default false (sf_use_channel_in_image_tag saas_file) |} in
      state1 ← collect_resource_templates saas_file saas_file_parameters
                  saas_file_definitions (sf_resourceTemplates saas_file);
      state2 ← collect_saas_files rest;
      Ok (state1 ++ state2)%list
  end.

Definition collect_state : outcome (list state_entry) :=
  collect_saas_files get_saas_files.

End collect.

(** *** The diff of [run] and [collect_compare_diffs] *)

(** [diffs = [s for s in desired_state if s not in current_state]] *)
Fixpoint diffs (current_state desired_state : list state_entry)
  : list state_entry :=
  match desired_state with
  | [] => []
  | s :: rest =>
      if bool_decide (s ∉ current_state)
      then s :: diffs current_state rest
      else diffs current_state rest
  end.

(** [c.endswith(suffix)] *)
Definition endswith (c suffix : string) : bool :=
  bool_decide (list_ascii_of_string suffix `suffix_of` list_ascii_of_string c).

Definition collect_compare_diffs (current_state desired_state : list state_entry)
    (changed_paths : list string) : gset string :=
  foldl (λ (compare_diffs : gset string) d,
    let changed_path_matches :=
      filter (λ c, endswith c (saas_file_path d) = true) changed_paths in
    if bool_decide (changed_path_matches = []) then compare_diffs
    else
      foldl (λ (compare_diffs : gset string) c,
        if bool_decide (saas_file_name d ≠ saas_file_name c) then compare_diffs
        else if bool_decide (resource_template_name d ≠ resource_template_name c)
        then compare_diffs
        else if bool_decide (environment d ≠ environment c) then compare_diffs
        else if bool_decide (cluster d ≠ cluster c) then compare_diffs
        else if bool_decide (namespace d ≠ namespace c) then compare_diffs
        else if bool_decide (ref d = ref c) then compare_diffs
        else {[ url d ++ "/compare/" ++ ref c ++ "..." ++ ref d ]}
               ∪ compare_diffs)
        compare_diffs current_state)
    ∅ desired_state.

(** *** [check_if_lgtm] *)

Record comment := {
  username : string;
  body : string;
  created_at : string;
}.

#[global] Instance comment_eq_dec : EqDecision comment.
Proof. solve_decision. Defined.

(** [sorted(comments, key=lambda k: k['created_at'])]: a stable sort;
    an element goes in front of the first one whose key is not below its
    own. Keys are compared as Python compares [str]. *)
Fixpoint insert_sorted (x : comment) (l : list comment) : list comment :=
  match l with
  | [] => [x]
  | y :: l' =>
      if String.ltb (created_at y) (created_at x)
      then y :: insert_sorted x l'
      else x :: y :: l'
  end.

Definition sorted (comments : list comment) : list comment :=
  foldr insert_sorted [] comments.

(** [u.replace('@', '')] *)
Fixpoint replace_at (u : string) : string :=
  match u with
  | EmptyString => EmptyString
  | String c rest =>
      if Ascii.eqb c "@" then replace_at rest else String c (replace_at rest)
  end.

(** [s.split('\n')] *)
Fixpoint split_lines (s : string) : list string :=
  match s with
  | EmptyString => [EmptyString]
  | String c rest =>
      if Ascii.eqb c "010" then EmptyString :: split_lines rest
      else match split_lines rest with
           | line :: lines => String c line :: lines
           | [] => [String c EmptyString]
           end
  end.

(** The body of the loop over the lines of a comment; the state is
    [(approved, hold, lgtm_comment)]. *)
Definition check_line (st : bool * bool * bool) (line : string)
  : bool * bool * bool :=
  let '(approved, hold, lgtm_comment) := st in
  let '(approved, hold, lgtm_comment) :=
    if bool_decide (line = "/lgtm") then (true, hold, true)
    else (approved, hold, lgtm_comment) in
  let '(approved, hold, lgtm_comment) :=
    if bool_decide (line = "/lgtm cancel") then (false, hold, false)
    else (approved, hold, lgtm_comment) in
  let '(approved, hold, lgtm_comment) :=
    if bool_decide (line = "/hold") then (false, true, lgtm_comment)
    else (approved, hold, lgtm_comment) in
  let '(approved, hold, lgtm_comment) :=
    if bool_decide (line = "/hold cancel")
    then ((if lgtm_comment then true else approved), false, lgtm_comment)
    else (approved, hold, lgtm_comment) in
  (approved, hold, lgtm_comment).

(** [owners] is [None] when [owners.get(saas_file_name)] finds nothing. *)
Definition check_if_lgtm (owners : option (list string)) (comments : list comment)
  : bool * bool :=
  match owners with
  | None | Some [] => (false, false)
  | Some owners =>
      let sorted_comments := sorted comments in
      let owners := replace_at <$> owners in
      let '(approved, hold, _) :=
        foldl (λ st comment,
          let commenter := username comment in
          if bool_decide (commenter ∉ owners) then st
          else foldl check_line st (split_lines (body comment)))
          (false, false, false) sorted_comments in
      (approved, hold)
  end.

(** [check_saas_files_changes_only] *)
Definition check_saas_files_changes_only (changed_paths : list string)
    (diffs : list state_entry) : bool :=
  let saas_file_paths := saas_file_path <$> diffs in
  let non_saas_file_changed_paths :=
    filter (λ changed_path,
              ¬ Exists (λ saas_file_path,
                          endswith changed_path saas_file_path = true)
                       saas_file_paths)
           changed_paths in
  bool_decide (length non_saas_file_changed_paths = 0).

(** *** [valid_diff]

    [valid_diff] deep-copies its arguments and pops keys from the copies
    in place. States are therefore taken as Python has them: objects in a
    store, held by reference. *)

(** References: positions in the store. *)
Notation loc := nat (only parsing).

(** A state entry dict. [P] and [D] are what it holds under
    ['parameters'] and ['saas_file_definitions']: references in the store,
    the dicts themselves in a value. A key that [valid_diff] pops is
    [None] once it is absent. *)
Record entry_dict (P D : Type) := {
  d_saas_file_path : string;
  d_saas_file_name : string;
  d_resource_template_name : string;
  d_cluster : string;
  d_namespace : string;
  d_environment : string;
  d_url : string;
  d_ref : option string;
  d_parameters : option P;
  d_saas_file_definitions : D;
  d_delete : option bool;
  d_disable : option (option bool);
}.
Arguments d_saas_file_path {P D} _.
Arguments d_saas_file_name {P D} _.
Arguments d_resource_template_name {P D} _.
Arguments d_cluster {P D} _.
Arguments d_namespace {P D} _.
Arguments d_environment {P D} _.
Arguments d_url {P D} _.
Arguments d_ref {P D} _.
Arguments d_parameters {P D} _.
Arguments d_saas_file_definitions {P D} _.
Arguments d_delete {P D} _.
Arguments d_disable {P D} _.

(** The dict under ['saas_file_definitions'], from which
    ['use_channel_in_image_tag'] can be popped. *)
Record definitions_dict := {
  d_managed_resource_types : list string;
  d_image_patterns : list string;
  d_use_channel_in_image_tag : option bool;
}.

Inductive object :=
| ListObj (items : list loc)
| EntryObj (e : entry_dict loc loc)
| DefinitionsObj (d : definitions_dict)
| ParametersObj (p : gmap string json).

Notation store := (list object).

#[global] Instance definitions_dict_eq_dec : EqDecision definitions_dict.
Proof. solve_decision. Defined.
#[global] Instance entry_dict_eq_dec `{EqDecision P, EqDecision D} :
  EqDecision (entry_dict P D).
Proof. solve_decision. Defined.
#[global] Instance object_eq_dec : EqDecision object.
Proof. solve_decision. Defined.

(** The entry [e] with other things under ['parameters'] and
    ['saas_file_definitions']. *)
Definition with_parts {P D P' D'} (e : entry_dict P D)
    (parameters : option P') (definitions : D') : entry_dict P' D' :=
  {| d_saas_file_path := d_saas_file_path e;
     d_saas_file_name := d_saas_file_name e;
     d_resource_template_name := d_resource_template_name e;
     d_cluster := d_cluster e;
     d_namespace := d_namespace e;
     d_environment := d_environment e;
     d_url := d_url e;
     d_ref := d_ref e;
     d_parameters := parameters;
     d_saas_file_definitions := definitions;
     d_delete := d_delete e;
     d_disable := d_disable e |}.

Definition without_ref {P D} (e : entry_dict P D) : entry_dict P D :=
  {| d_saas_file_path := d_saas_file_path e;
     d_saas_file_name := d_saas_file_name e;
     d_resource_template_name := d_resource_template_name e;
     d_cluster := d_cluster e;
     d_namespace := d_namespace e;
     d_environment := d_environment e;
     d_url := d_url e;
     d_ref := None;
     d_parameters := d_parameters e;
     d_saas_file_definitions := d_saas_file_definitions e;
     d_delete := d_delete e;
     d_disable := d_disable e |}.

Definition without_disable {P D} (e : entry_dict P D) : entry_dict P D :=
  {| d_saas_file_path := d_saas_file_path e;
     d_saas_file_name := d_saas_file_name e;
     d_resource_template_name := d_resource_template_name e;
     d_cluster := d_cluster e;
     d_namespace := d_namespace e;
     d_environment := d_environment e;
     d_url := d_url e;
     d_ref := d_ref e;
     d_parameters := d_parameters e;
     d_saas_file_definitions := d_saas_file_definitions e;
     d_delete := d_delete e;
     d_disable := None |}.

Definition without_use_channel (d : definitions_dict) : definitions_dict :=
  {| d_managed_resource_types := d_managed_resource_types d;
     d_image_patterns := d_image_patterns d;
     d_use_channel_in_image_tag := None |}.

(** [sys.getrecursionlimit()] *)
Definition recursion_limit : nat := 1000.

(** Allocation of a new object: its reference is the next free one. *)
Definition alloc (o : object) (x : loc)
  : stateful (store * gmap loc loc) loc :=
  λ '(σ, memo),
    (Ok (length σ), ((σ ++ [o])%list, <[x := length σ]> memo)).

(** The loop of [_deepcopy_list] over the items, given the copy of one
    item. *)
Fixpoint copy_items (copy : loc → stateful (store * gmap loc loc) loc)
    (items : list loc) : stateful (store * gmap loc loc) (list loc) :=
  match items with
  | [] => mret []
  | x :: rest =>
      y ← copy x;
      ys ← copy_items copy rest;
      mret (y :: ys)
  end.

(** [copy.deepcopy(x, memo)]: an object already copied is not copied
    again, so that what is shared in the original is shared in the copy.
    A state has no cycles (a list of dicts of dicts), and the copy of an
    object is allocated once its parts are copied; [fuel] bounds the depth
    of the recursion. *)
Fixpoint deepcopy (fuel : nat) (x : loc)
  : stateful (store * gmap loc loc) loc :=
  match fuel with
  | 0 => λ s, (Raise RecursionError, s)
  | S fuel => λ s,
      match s.2 !! x with
      | Some y => (Ok y, s)
      | None =>
          match s.1 !! x with
          | None => (Raise (TypeError "no such object"), s)
          | Some (ParametersObj p) => alloc (ParametersObj p) x s
          | Some (DefinitionsObj d) => alloc (DefinitionsObj d) x s
          | Some (EntryObj e) =>
              (parameters ←
                 match d_parameters e with
                 | None => mret None
                 | Some lp => lp' ← deepcopy fuel lp; mret (Some lp')
                 end;
               definitions ← deepcopy fuel (d_saas_file_definitions e);
               alloc (EntryObj (with_parts e parameters definitions)) x) s
          | Some (ListObj items) =>
              (items' ← copy_items (deepcopy fuel) items;
               alloc (ListObj items') x) s
          end
      end
  end.

(** [copy.deepcopy(x)] *)
Definition copy_deepcopy (x : loc) : stateful store loc := λ σ,
  let '(r, (σ', _)) := deepcopy recursion_limit x (σ, ∅) in (r, σ').

(** [c.pop('ref')] *)
Definition pop_ref (c : loc) : stateful store unit := λ σ,
  match σ !! c with
  | Some (EntryObj e) =>
      match d_ref e with
      | Some _ => (Ok tt, <[c := EntryObj (without_ref e)]> σ)
      | None => (Raise (KeyError "ref"), σ)
      end
  | _ => (Raise (TypeError "not a state entry"), σ)
  end.

(** [c.pop('parameters')] *)
Definition pop_parameters (c : loc) : stateful store unit := λ σ,
  match σ !! c with
  | Some (EntryObj e) =>
      match d_parameters e with
      | Some _ =>
          (Ok tt,
           <[c := EntryObj (with_parts e None (d_saas_file_definitions e))]> σ)
      | None => (Raise (KeyError "parameters"), σ)
      end
  | _ => (Raise (TypeError "not a state entry"), σ)
  end.

(** [c['saas_file_definitions'].pop('use_channel_in_image_tag')] *)
Definition pop_use_channel_in_image_tag (c : loc) : stateful store unit := λ σ,
  match σ !! c with
  | Some (EntryObj e) =>
      let definitions := d_saas_file_definitions e in
      match σ !! definitions with
      | Some (DefinitionsObj d) =>
          match d_use_channel_in_image_tag d with
          | Some _ =>
              (Ok tt,
               <[definitions := DefinitionsObj (without_use_channel d)]> σ)
          | None => (Raise (KeyError "use_channel_in_image_tag"), σ)
          end
      | _ => (Raise (TypeError "not a definitions dict"), σ)
      end
  | _ => (Raise (TypeError "not a state entry"), σ)
  end.

(** [c.pop('disable', None)] *)
Definition pop_disable (c : loc) : stateful store unit := λ σ,
  match σ !! c with
  | Some (EntryObj e) => (Ok tt, <[c := EntryObj (without_disable e)]> σ)
  | _ => (Raise (TypeError "not a state entry"), σ)
  end.

(** The body of the two loops of [valid_diff]. *)
Definition pop_trivial_fields (c : loc) : stateful store unit :=
  pop_ref c;;
  pop_parameters c;;
  pop_use_channel_in_image_tag c;;
  pop_disable c.

(** [for c in state_copy: ...] *)
Fixpoint for_each (body : loc → stateful store unit) (items : list loc)
  : stateful store unit :=
  match items with
  | [] => mret tt
  | c :: rest => body c;; for_each body rest
  end.

Definition iterate (state : loc) (body : loc → stateful store unit)
  : stateful store unit := λ σ,
  match σ !! state with
  | Some (ListObj items) => for_each body items σ
  | _ => (Raise (TypeError "not a list"), σ)
  end.

(** The loop of [==] on two lists of equal length. *)
Fixpoint all_eq (eq : loc → loc → outcome bool) (xs ys : list loc)
  : outcome bool :=
  match xs, ys with
  | [], [] => Ok true
  | x :: xs, y :: ys =>
      b ← eq x y;
      if b : bool then all_eq eq xs ys else Ok false
  | _, _ => Ok false
  end.

(** [x == y] on objects of the store: lists item by item, dicts key by
    key. *)
Fixpoint py_eq (fuel : nat) (σ : store) (x y : loc) : outcome bool :=
  match fuel with
  | 0 => Raise RecursionError
  | S fuel =>
      match σ !! x, σ !! y with
      | Some (ParametersObj p1), Some (ParametersObj p2) =>
          Ok (bool_decide (p1 = p2))
      | Some (DefinitionsObj d1), Some (DefinitionsObj d2) =>
          Ok (bool_decide (d1 = d2))
      | Some (EntryObj e1), Some (EntryObj e2) =>
          if bool_decide (with_parts e1 (@None unit) tt
                          = with_parts e2 (@None unit) tt)
          then
            b ← match d_parameters e1, d_parameters e2 with
                | None, None => Ok true
                | Some p1, Some p2 => py_eq fuel σ p1 p2
                | _, _ => Ok false
                end;
            if b : bool
            then py_eq fuel σ (d_saas_file_definitions e1)
                              (d_saas_file_definitions e2)
            else Ok false
          else Ok false
      | Some (ListObj xs), Some (ListObj ys) =>
          if bool_decide (length xs = length ys)
          then all_eq (py_eq fuel σ) xs ys
          else Ok false
      | Some _, Some _ => Ok false
      | _, _ => Raise (TypeError "no such object")
      end
  end.

(** [x == y] *)
Definition equal (x y : loc) : stateful store bool := λ σ,
  (py_eq recursion_limit σ x y, σ).

Definition valid_diff (current_state desired_state : loc) : stateful store bool :=
  current_state_copy ← copy_deepcopy current_state;
  iterate current_state_copy pop_trivial_fields;;
  desired_state_copy ← copy_deepcopy desired_state;
  iterate desired_state_copy pop_trivial_fields;;
  equal current_state_copy desired_state_copy.

(** *** States in the store and their values *)

(** The value of an entry dict: the dicts it refers to in place of the
    references. *)
Notation entry_value := (entry_dict (gmap string json) definitions_dict).

Definition read_entry (σ : store) (l : loc) : option entry_value :=
  match σ !! l with
  | Some (EntryObj e) =>
      parameters ←
        match d_parameters e with
        | None => Some None
        | Some lp =>
            match σ !! lp with
            | Some (ParametersObj p) => Some (Some p)
            | _ => None
            end
        end;
      match σ !! d_saas_file_definitions e with
      | Some (DefinitionsObj d) => Some (with_parts e parameters d)
      | _ => None
      end
  | _ => None
  end.

Definition read_state (σ : store) (l : loc) : option (list entry_value) :=
  match σ !! l with
  | Some (ListObj items) => mapM (read_entry σ) items
  | _ => None
  end.

(** The objects an entry, and a state, are made of. *)
Definition entry_footprint (σ : store) (l : loc) : list loc :=
  match σ !! l with
  | Some (EntryObj e) =>
      l :: from_option (λ lp, [lp]) [] (d_parameters e)
        ++ [d_saas_file_definitions e]
  | _ => [l]
  end%list.

Definition footprint (σ : store) (l : loc) : list loc :=
  match σ !! l with
  | Some (ListObj items) => items ≫= entry_footprint σ
  | _ => []
  end.

(** The dict [collect_state] appends for an entry. *)
Definition dict_of (s : state_entry) : entry_value :=
  {| d_saas_file_path := saas_file_path s;
     d_saas_file_name := saas_file_name s;
     d_resource_template_name := resource_template_name s;
     d_cluster := cluster s;
     d_namespace := namespace s;
     d_environment := environment s;
     d_url := url s;
     d_ref := Some (ref s);
     d_parameters := Some (parameters s);
     d_saas_file_definitions :=
       {| d_managed_resource_types :=
            managed_resource_types (saas_file_definitions s);
          d_image_patterns := image_patterns (saas_file_definitions s);
          d_use_channel_in_image_tag :=
            Some (use_channel_in_image_tag (saas_file_definitions s)) |};
     d_delete := delete s;
     d_disable := disable s |}.

(** The store holds [state] at [l], no object shared between two
    entries: what [collect_state], and [json.load] of a baseline, build. *)
Definition holds (σ : store) (l : loc) (state : list state_entry) : Prop :=
  read_state σ l = Some (dict_of <$> state) ∧ NoDup (footprint σ l).

(** An entry with [ref], [parameters], [disable] and
    [use_channel_in_image_tag] removed, in the words of the
    specification. *)
Definition without_trivial_fields (s : state_entry) : entry_value :=
  {| d_saas_file_path := saas_file_path s;
     d_saas_file_name := saas_file_name s;
     d_resource_template_name := resource_template_name s;
     d_cluster := cluster s;
     d_namespace := namespace s;
     d_environment := environment s;
     d_url := url s;
     d_ref := None;
     d_parameters := None;
     d_saas_file_definitions :=
       {| d_managed_resource_types :=
            managed_resource_types (saas_file_definitions s);
          d_image_patterns := image_patterns (saas_file_definitions s);
          d_use_channel_in_image_tag := None |};
     d_delete := delete s;
     d_disable := None |}.

(** *** Notions used to state the properties of [valid_diff] *)

(** The references an object holds. *)
Definition refs_of (o : object) : list loc :=
  match o with
  | ListObj items => items
  | EntryObj e =>
      (from_option (λ lp, [lp]) [] (d_parameters e)
         ++ [d_saas_file_definitions e])%list
  | _ => []
  end.

(** From [n] on, the store is closed: the objects there refer to objects
    there. *)
Definition closed_from (n : nat) (σ : store) : Prop :=
  ∀ l o, (n ≤ l)%nat → σ !! l = Some o → Forall (λ r, (n ≤ r)%nat) (refs_of o).

(** A deep copy under way: what is copied is from [n] on. *)
Definition copies_from (n : nat) (s : store * gmap loc loc) : Prop :=
  (n ≤ length s.1)%nat ∧ closed_from n s.1 ∧
  ∀ x y, s.2 !! x = Some y → (n ≤ y)%nat.

Definition copy_ok (n : nat)
    (copy : loc → stateful (store * gmap loc loc) loc) : Prop :=
  ∀ x s, copies_from n s →
    take n (copy x s).2.1 = take n s.1 ∧ copies_from n (copy x s).2 ∧
    ∀ y, (copy x s).1 = Ok y → (n ≤ y)%nat.

(** What a step on the store keeps: the store below [n], and that it is
    closed from [n] on. *)
Definition keeps (n : nat) (σ σ' : store) : Prop :=
  take n σ' = take n σ ∧ (n ≤ length σ')%nat ∧ closed_from n σ'.

(** Code that keeps the store below [n] as it is. *)
Definition keeper {A} (n : nat) (m : stateful store A) : Prop :=
  ∀ σ, (n ≤ length σ)%nat → closed_from n σ → keeps n σ (m σ).2.

(** [σ'] has the objects of [σ]. *)
Definition extends (σ σ' : store) : Prop :=
  ∀ l o, σ !! l = Some o → σ' !! l = Some o.

(** A state put in the store, entry by entry, as [collect_state] builds
    it: a dict of parameters, a dict of definitions and the entry for each
    element, then the list. *)
Definition put_entry (σ : store) (s : state_entry) : store * loc :=
  let v := dict_of s in
  ((σ ++ [ParametersObj (parameters s);
          DefinitionsObj (d_saas_file_definitions v);
          EntryObj (with_parts v (Some (length σ)) (S (length σ)))])%list,
   S (S (length σ))).

Fixpoint put_entries (σ : store) (state : list state_entry)
  : store * list loc :=
  match state with
  | [] => (σ, [])
  | s :: rest =>
      let '(σ, l) := put_entry σ s in
      let '(σ, ls) := put_entries σ rest in
      (σ, l :: ls)
  end.

Definition put_state (σ : store) (state : list state_entry) : store * loc :=
  let '(σ, items) := put_entries σ state in
  ((σ ++ [ListObj items])%list, length σ).

(** *** The approval grammar, in the words of the specification *)

Inductive command := Lgtm | LgtmCancel | Hold | HoldCancel.

Definition parse_command (line : string) : option command :=
  if bool_decide (line = "/lgtm") then Some Lgtm
  else if bool_decide (line = "/lgtm cancel") then Some LgtmCancel
  else if bool_decide (line = "/hold") then Some Hold
  else if bool_decide (line = "/hold cancel") then Some HoldCancel
  else None.

Record approval_state := {
  approved : bool;
  hold : bool;
  lgtm_seen : bool;
}.

Definition apply_command (st : approval_state) (c : command) : approval_state :=
  match c with
  | Lgtm => {| approved := true; hold := hold st; lgtm_seen := true |}
  | LgtmCancel => {| approved := false; hold := hold st; lgtm_seen := false |}
  | Hold => {| approved := false; hold := true; lgtm_seen := lgtm_seen st |}
  | HoldCancel => {| approved := if lgtm_seen st then true else approved st;
                     hold := false; lgtm_seen := lgtm_seen st |}
  end.

(** [evaluateApproval], with the normalisation of approver identifiers
    left open. *)
Definition evaluateApproval (normalize : string → string)
    (approvers : list string) (comments : list comment) : bool * bool :=
  match approvers with
  | [] => (false, false)
  | _ =>
      let by_approver :=
        filter (λ c, username c ∈ normalize <$> approvers) (sorted comments) in
      let commands :=
        omap parse_command (by_approver ≫= (λ c, split_lines (body c))) in
      let final :=
        foldl apply_command
              {| approved := false; hold := false; lgtm_seen := false |}
              commands in
      (approved final, hold final)
  end.

(** "stripping a leading [@]" *)
Definition strip_leading_at (u : string) : string :=
  match u with
  | String "@" rest => rest
  | _ => u
  end.

(** The state of the loop of [check_if_lgtm] as an approval state. *)
Definition state_of (st : bool * bool * bool) : approval_state :=
  {| approved := st.1.1; hold := st.1.2; lgtm_seen := st.2 |}.

(** *** Notions used to state the properties *)

(** [a] was not created after [b]. *)
Definition before (a b : comment) : Prop :=
  String.leb (created_at a) (created_at b) = true.

(** The comparison URL of a current-side and a desired-side entry. *)
Definition compare_url (c d : state_entry) : string :=
  url d ++ "/compare/" ++ ref c ++ "..." ++ ref d.

(** The two entries agree on saas file, resource template, environment,
    cluster and namespace. *)
Definition same_target (c d : state_entry) : Prop :=
  saas_file_name d = saas_file_name c ∧
  resource_template_name d = resource_template_name c ∧
  environment d = environment c ∧
  cluster d = cluster c ∧
  namespace d = namespace c.

(** The path of the file that defines [d] matches a changed path: some
    changed path ends with it. *)
Definition changed (changed_paths : list string) (d : state_entry) : Prop :=
  ∃ c, c ∈ changed_paths ∧ endswith c (saas_file_path d) = true.

(** *** Examples *)

Definition example_definitions : definitions :=
  {| managed_resource_types := ["Deployment"; "Service"];
     image_patterns := ["quay.io/app-sre"];
     use_channel_in_image_tag := false |}.

Definition example_current : state_entry :=
  {| saas_file_path := "/services/app/cicd/saas.yaml";
     saas_file_name := "app";
     resource_template_name := "app-template";
     cluster := "appsre01";
     namespace := "app-prod";
     environment := "production";
     url := "https://git/example";
     ref := "abc";
     parameters := {[ "REPLICAS" := JNum (Qc_of_Z 3) ]};
     saas_file_definitions := example_definitions;
     delete := None;
     disable := None |}.

Definition example_desired : state_entry :=
  {| saas_file_path := "/services/app/cicd/saas.yaml";
     saas_file_name := "app";
     resource_template_name := "app-template";
     cluster := "appsre01";
     namespace := "app-prod";
     environment := "production";
     url := "https://git/example";
     ref := "def";
     parameters := {[ "REPLICAS" := JNum (Qc_of_Z 3) ]};
     saas_file_definitions := example_definitions;
     delete := None;
     disable := None |}.

(** A store with the current state at [example_current_state] and the
    desired state at [example_desired_state]. *)
Definition example_store : store :=
  (put_state (put_state [] [example_current]).1 [example_desired]).1.
Definition example_current_state : loc :=
  (put_state [] [example_current]).2.
Definition example_desired_state : loc :=
  (put_state (put_state [] [example_current]).1 [example_desired]).2.

Definition example_comments : list comment :=
  [{| username := "alice"; body := "/lgtm";
      created_at := "2021-03-01T10:00:00Z" |};
   {| username := "alice"; body := "/hold";
      created_at := "2021-03-01T10:05:00Z" |};
   {| username := "alice"; body := "/hold cancel";
      created_at := "2021-03-01T10:10:00Z" |}].

(** *** [collect_owners] *)

(** What [queries.get_saas_files] returns, as far as [collect_owners]
    reads it. *)
Record owner_user := {
  org_username : string;
  tag_on_merge_requests : option bool;   (* .get('tag_on_merge_requests') *)
}.
Record owner_role := {
  users : option (list owner_user);      (* owner_role.get('users') *)
}.
Record owned_saas_file := {
  osf_name : string;
  osf_roles : option (list owner_role);  (* saas_file.get('roles') *)
}.

(** The name under which an owner is recorded. *)
Definition owner_username (owner_user : owner_user) : string :=
  if default false (tag_on_merge_requests owner_user)
  then "@" ++ org_username owner_user
  else org_username owner_user.

(** [collect_owners], on the saas files the query returns. The sets are
    turned into lists at the end; Python fixes no order for [list(set)],
    [elements] is one. *)
Definition collect_owners (saas_files : list owned_saas_file)
  : gmap string (list string) :=
  let owners :=
    foldl (λ (owners : gmap string (gset string)) saas_file,
      let saas_file_name := osf_name saas_file in
      let owners := <[saas_file_name := ∅]> owners in
      foldl (λ (owners : gmap string (gset string)) owner_role,
        foldl (λ (owners : gmap string (gset string)) owner_user,
          alter (λ names, {[owner_username owner_user]} ∪ names)
                saas_file_name owners)
          owners (default [] (users owner_role)))
        owners (default [] (osf_roles saas_file)))
      ∅ saas_files in
  elements <$> owners.

(** *** [write_diffs_to_file] *)

(** The body dumped to the diffs file; an item is a diff cut down to its
    ['saas_file_name'] and its ['environment']. *)
Record diffs_body := {
  valid_saas_file_changes_only : bool;
  items : list (string * string);
}.

#[global] Instance diffs_body_eq_dec : EqDecision diffs_body.
Proof. solve_decision. Defined.

(** The body [write_diffs_to_file] writes. *)
Definition write_diffs_to_file (diffs : list state_entry)
    (valid_saas_file_changes_only : bool) : diffs_body :=
  let diffs := (λ diff, (saas_file_name diff, environment diff)) <$> diffs in
  let unique_diffs :=
    foldl (λ unique_diffs diff,
             if bool_decide (diff ∉ unique_diffs)
             then (unique_diffs ++ [diff])%list
             else unique_diffs)
          [] diffs in
  {| valid_saas_file_changes_only := valid_saas_file_changes_only;
     items := unique_diffs |}.

(** *** [run] *)

(** What [run] does to the merge request, to the files and to the
    output. *)
Inductive call :=
| write_baseline_to_file (owners : gmap string (list string))
                         (state : list state_entry)
| json_dump_diffs (body : diffs_body)
| print (output : string)
| logging_warning (diff : state_entry)
| add_comment_to_merge_request (body : string)
| add_label_to_merge_request (label : string)
| remove_label_from_merge_request (label : string).

#[global] Instance call_eq_dec : EqDecision call.
Proof. solve_decision. Defined.

(** The merge request and the baseline file [run] works on. *)
Class MergeRequest := {
  (** what [queries.get_saas_files] returns to [collect_owners] *)
  get_owned_saas_files : list owned_saas_file;
  (** [read_baseline_from_file(io_dir)]: the ['owners'] and the
      ['state'] *)
  baseline_owners : gmap string (list string);
  baseline_state : list state_entry;
  (** [gl.get_merge_request_changed_paths(gitlab_merge_request_id)] *)
  get_merge_request_changed_paths : list string;
  (** [gl.get_merge_request_labels(gitlab_merge_request_id)] *)
  get_merge_request_labels : list string;
  (** [gl.get_merge_request_comments(gitlab_merge_request_id)] *)
  get_merge_request_comments : list comment;
  (** how an f-string shows [saas_file_owners], a list or [None] *)
  format_owners : option (list string) → string;
}.

(** [valid_diff(current_state, desired_state)] as [run] calls it: on two
    states that share no object, one loaded from the baseline file, the
    other built by [collect_state]. *)
Definition valid_diff_on (current_state desired_state : list state_entry)
  : outcome bool :=
  let '(σ, current) := put_state [] current_state in
  let '(σ, desired) := put_state σ desired_state in
  (valid_diff current desired σ).1.

(** [comment_lines[saas_file_name] = comment_line_body]: a dict keeps
    the order in which its keys were first set. *)
Fixpoint dict_set (k v : string) (d : list (string * string))
  : list (string * string) :=
  match d with
  | [] => [(k, v)]
  | (k', v') :: rest =>
      if bool_decide (k = k') then (k, v) :: rest
      else (k', v') :: dict_set k v rest
  end.

Section run_code.
Context `{Queries} `{MergeRequest}.

(** The body of the loop [for diff in diffs] of [run]; the state is
    [(changed_paths, hold, comment_lines)] and the calls made so far. *)
Definition check_diff
    (st : list string * bool * list (string * string) * list call)
    (diff : state_entry)
  : list string * bool * list (string * string) * list call :=
  let '(changed_paths, hold, comment_lines, calls) := st in
  (* check if this diff was actually changed in the current MR *)
  let saas_file_path := saas_file_path diff in
  let changed_path_matches :=
    filter (λ c, endswith c saas_file_path = true) changed_paths in
  if bool_decide (changed_path_matches = [])
  then (changed_paths, hold, comment_lines,
        (calls ++ [logging_warning diff])%list)
  else
    (* check for a lgtm by an owner of this app *)
    let saas_file_name := saas_file_name diff in
    let saas_file_owners := baseline_owners !! saas_file_name in
    let '(valid_lgtm, current_hold) :=
      check_if_lgtm saas_file_owners get_merge_request_comments in
    let hold := hold || current_hold in
    let calls :=
      (calls ++ [if hold then add_label_to_merge_request "bot/hold"
                 else remove_label_from_merge_request "bot/hold"])%list in
    if negb valid_lgtm
    then
      let comment_line_body :=
        "- changes to saas file '" ++ saas_file_name ++ "' " ++
        "require approval (`/lgtm`) from one of: " ++
        format_owners saas_file_owners ++ "." in
      (changed_paths, hold,
       dict_set saas_file_name comment_line_body comment_lines,
       (calls ++ [remove_label_from_merge_request "bot/approved"])%list)
    else
      (* this diff is approved - remove it from changed_paths *)
      (filter (λ c, c ∉ changed_path_matches) changed_paths, hold,
       comment_lines, calls).

(** [run]; the identifiers of the project and of the merge request and
    the directory of the files say which [MergeRequest] it works on. *)
Definition run (dry_run compare : bool) : outcome unit * list call :=
  if negb compare
  then
    (* baseline = collect_baseline() *)
    let owners := collect_owners get_owned_saas_files in
    match collect_state with
    | Raise e => (Raise e, [])
    | Ok state => (Ok tt, [write_baseline_to_file owners state])
    end
  else
    let saas_label := "saas-file-update" in
    let approved_label := "bot/approved" in
    let owners := baseline_owners in
    let current_state := baseline_state in
    match collect_state with
    | Raise e => (Raise e, [])
    | Ok desired_state =>
        let diffs := diffs current_state desired_state in
        let changed_paths := get_merge_request_changed_paths in
        let compare_diffs :=
          collect_compare_diffs current_state desired_state changed_paths in
        let commented :=
          if bool_decide (compare_diffs ≠ ∅)
          then [add_comment_to_merge_request
                  ("Diffs:" ++ String "010" "" ++
                   String.concat (String "010" "")
                     ((λ d, "- " ++ d) <$> elements compare_diffs))]
          else [] in
        let is_saas_file_changes_only :=
          check_saas_files_changes_only changed_paths diffs in
        match valid_diff_on current_state desired_state with
        | Raise e => (Raise e, commented)
        | Ok is_valid_diff =>
            let valid_saas_file_changes_only :=
              is_saas_file_changes_only && is_valid_diff in
            let reported :=
              [json_dump_diffs
                 (write_diffs_to_file diffs valid_saas_file_changes_only);
               print (if valid_saas_file_changes_only then "yes" else "no")] in
            let labels := get_merge_request_labels in
            let labelled :=
              ((if valid_saas_file_changes_only
                   && bool_decide (saas_label ∉ labels)
                then [add_label_to_merge_request saas_label] else []) ++
               (if negb valid_saas_file_changes_only
                   && bool_decide (saas_label ∈ labels)
                then [remove_label_from_merge_request saas_label] else []))%list in
            let approval :=
              if bool_decide (desired_state = current_state)
              then [remove_label_from_merge_request approved_label]
              else if negb is_valid_diff
              then [remove_label_from_merge_request approved_label]
              else
                let '(changed_paths, _, comment_lines, calls) :=
                  foldl check_diff (changed_paths, false, [], []) diffs in
                let comment_body :=
                  String.concat (String "010" "") (snd <$> comment_lines) in
                let commented :=
                  if bool_decide (comment_body ≠ "")
                  then
                    (* if there are still entries in this list - they are
                       not approved *)
                    [add_comment_to_merge_request
                       (if negb valid_saas_file_changes_only
                        then comment_body ++ String "010" (String "010" "") ++
                             "Note: this merge request can not be self-serviced."
                        else comment_body)]
                  else [] in
                (calls ++ commented ++
                 [if bool_decide (length changed_paths ≠ 0%nat)
                  then remove_label_from_merge_request approved_label
                  else add_label_to_merge_request approved_label])%list in
            (Ok tt, (commented ++ reported ++ labelled ++ approval)%list)
        end
    end.

End run_code.

(** *** Notions used to state further properties *)

(** The lines of the comments of the owners, in the order in which
    [check_if_lgtm] reads them. *)
Definition owner_lines (owners : list string) (comments : list comment)
  : list string :=
  filter (λ c, username c ∈ replace_at <$> owners) (sorted comments)
    ≫= λ c, split_lines (body c).

(** The last line among those that satisfy [P]. *)
Definition last_line (P : string → Prop) `{∀ line, Decision (P line)}
    (lines : list string) : option string :=
  last (filter P lines).

(** The saas file that sets the owners of [name]: the last one of that
    name in the query. *)
Definition sets_owners (saas_files : list owned_saas_file) (name : string)
    (saas_file : owned_saas_file) : Prop :=
  ∃ earlier later,
    saas_files = (earlier ++ saas_file :: later)%list ∧
    osf_name saas_file = name ∧
    name ∉ osf_name <$> later.

(** The users of the roles of a saas file. *)
Definition role_users (saas_file : owned_saas_file) : list owner_user :=
  default [] (osf_roles saas_file) ≫= λ role, default [] (users role).

(** The owners of a diff approve it. *)
Definition lgtm `{MergeRequest} (diff : state_entry) : bool :=
  (check_if_lgtm (baseline_owners !! saas_file_name diff)
                 get_merge_request_comments).1.

(** The fields [valid_diff] leaves in an entry: all but ['ref'],
    ['parameters'], ['disable'] and the ['use_channel_in_image_tag'] of
    the definitions. *)
Definition kept_fields (s : state_entry)
  : string * string * string * string * string * string * string
    * list string * list string * option bool :=
  (saas_file_path s, saas_file_name s, resource_template_name s,
   cluster s, namespace s, environment s, url s,
   managed_resource_types (saas_file_definitions s),
   image_patterns (saas_file_definitions s), delete s).

(** An entry with its ['disable'] set to [flag], or without the key. *)
Definition with_disable (flag : option (option bool)) (s : state_entry)
  : state_entry :=
  {| saas_file_path := saas_file_path s;
     saas_file_name := saas_file_name s;
     resource_template_name := resource_template_name s;
     cluster := cluster s;
     namespace := namespace s;
     environment := environment s;
     url := url s;
     ref := ref s;
     parameters := parameters s;
     saas_file_definitions := saas_file_definitions s;
     delete := delete s;
     disable := flag |}.

(** The targets of the saas files of the query, each with its saas file
    and its resource template, in the order in which [collect_state] goes
    through them. *)
Definition targets_of `{Queries}
  : list (saas_file * resource_template * target) :=
  saas_file ← get_saas_files;
  resource_template ← sf_resourceTemplates saas_file;
  target ← rt_targets resource_template;
  [(saas_file, resource_template, target)].

(** An entry [s] of the state is the entry of [target], a target of
    [resource_template] of [saas_file], given the parameters loaded for
    each of them: a parameter has the value the target gives it, else the
    one of the resource template, else the one of the saas file. *)
Definition entry_of_target (saas_file : saas_file)
    (resource_template : resource_template) (target : target)
    (saas_file_parameters resource_template_parameters target_parameters
       : gmap string json)
    (s : state_entry) : Prop :=
  saas_file_path s = sf_path saas_file ∧
  saas_file_name s = sf_name saas_file ∧
  resource_template_name s = rt_name resource_template ∧
  cluster s = tn_cluster_name (t_namespace target) ∧
  namespace s = tn_name (t_namespace target) ∧
  environment s = tn_environment_name (t_namespace target) ∧
  url s = rt_url resource_template ∧
  ref s = t_ref target ∧
  (∀ k, parameters s !! k =
        match target_parameters !! k with
        | Some v => Some v
        | None =>
            match resource_template_parameters !! k with
            | Some v => Some v
            | None => saas_file_parameters !! k
            end
        end) ∧
  managed_resource_types (saas_file_definitions s)
    = sf_managedResourceTypes saas_file ∧
  image_patterns (saas_file_definitions s) = sf_imagePatterns saas_file ∧
  use_channel_in_image_tag (saas_file_definitions s)
    = bool_decide (sf_use_channel_in_image_tag saas_file = Some true) ∧
  delete s = t_delete target ∧
  disable s = None.

(** *** Examples of a query and of a merge request *)

Definition example_queries : Queries := {|
  get_saas_files :=
    [{| sf_path := "/services/app/cicd/saas.yaml";
        sf_name := "app";
        sf_parameters := Some "{}";
        sf_managedResourceTypes := ["Deployment"; "Service"];
        sf_imagePatterns := ["quay.io/app-sre"];
        sf_use_channel_in_image_tag := None;
        sf_resourceTemplates :=
          [{| rt_name := "app-template";
              rt_url := "https://git/example";
              rt_parameters := None;
              rt_targets :=
                [{| t_namespace :=
                      {| tn_name := "app-prod";
                         tn_cluster_name := "appsre01";
                         tn_environment_name := "production" |};
                    t_ref := "def";
                    t_delete := None;
                    t_parameters := None |}] |}] |}];
  json_loads := λ text,
    if bool_decide (text = "{}") then Ok ∅
    else Raise (Exception "JSONDecodeError");
|}.

Definition example_owned_saas_files : list owned_saas_file :=
  [{| osf_name := "app";
      osf_roles :=
        Some [{| users :=
                   Some [{| org_username := "alice";
                            tag_on_merge_requests := Some true |};
                         {| org_username := "bob";
                            tag_on_merge_requests := None |}] |};
              {| users := None |}] |};
   {| osf_name := "other"; osf_roles := None |}].

Definition example_merge_request : MergeRequest := {|
  get_owned_saas_files := example_owned_saas_files;
  baseline_owners := {[ "app" := ["@alice"; "bob"] ]};
  baseline_state := [example_current];
  get_merge_request_changed_paths := ["data/services/app/cicd/saas.yaml"];
  get_merge_request_labels := [];
  get_merge_request_comments := example_comments;
  format_owners := λ _, "['@alice', 'bob']";
|}.

End SaasFileOwners.

(** ** reconcile/ocm_groups.py *)

Module OcmGroups.

(** An entry of a state: a user of a group of a cluster. *)
Record membership := {
  cluster : string;
  group : string;
  user : string;
}.

(** A diff, as [openshift_groups.calculate_diff] returns them. *)
Record diff := {
  action : string;
  diff_cluster : string;
  diff_group : string;
  diff_user : string;
}.

#[global] Instance membership_eq_dec : EqDecision membership.
Proof. solve_decision. Defined.
#[global] Instance diff_eq_dec : EqDecision diff.
Proof. solve_decision. Defined.

(** Calls made by [run]; [call_act] marks an invocation of [act]. *)
Inductive event :=
| logging_info (values : list string)
| call_act (d : diff)
| add_user_to_group (cluster group user : string)
| del_user_from_group (cluster group user : string).

#[global] Instance event_eq_dec : EqDecision event.
Proof. solve_decision. Defined.

Class Collaborators := {
  (** [openshift_groups.create_groups_list(clusters, oc_map)] on the
      clusters that have an [ocm] section: pairs of a cluster and a group
      name *)
  create_groups_list : list (string * string);
  (** [ocm.get_group_if_exists(cluster, group_name)]: the ['users'] of the
      group (which may be [None]) if it exists *)
  get_group_if_exists : string → string → option (option (list string));
  (** [openshift_groups.fetch_desired_state(oc_map)] *)
  fetch_desired_state : list membership;
  (** [openshift_groups.calculate_diff(current_state, desired_state)] *)
  calculate_diff : list membership → list membership → list diff;
  (** [openshift_groups.validate_diffs(diffs)]: [Some details] when it
      raises *)
  validate_diffs : list diff → option string;
  (** [list(diff.values())]: the values of a diff in the order of its
      keys, which is the order in which [calculate_diff] sets them *)
  diff_values : diff → list string;
}.

Section ocm_groups_code.
Context `{Collaborators}.

Definition get_cluster_state (group_items : string * string) : list membership :=
  let cluster := group_items.1 in
  let group_name := group_items.2 in
  match get_group_if_exists cluster group_name with
  | None => []
  | Some users =>
      (λ user, {| cluster := cluster; group := group_name; user := user |})
        <$> default [] users
  end.

(** [threaded.run] keeps the order of its inputs;
    [itertools.chain.from_iterable] concatenates the results. *)
Definition fetch_current_state (thread_pool_size : nat) : list membership :=
  concat (get_cluster_state <$> create_groups_list).

(** The calls [act(diff, ocm_map)] makes. *)
Definition act (d : diff) : list event :=
  if bool_decide (action d = "add_user_to_group")
  then [add_user_to_group (diff_cluster d) (diff_group d) (diff_user d)]
  else if bool_decide (action d = "del_user_from_group")
  then [del_user_from_group (diff_cluster d) (diff_group d) (diff_user d)]
  else [].

(** The loop [for diff in diffs] of [run]. *)
Fixpoint act_on (dry_run : bool) (diffs : list diff) : list event :=
  match diffs with
  | [] => []
  | d :: rest =>
      if bool_decide (action d ∈ ["create_group"; "delete_group"])
      then act_on dry_run rest
      else
        logging_info (diff_values d)
        :: (if negb dry_run then call_act d :: act d else [])
        ++ act_on dry_run rest
  end%list.

Definition run (dry_run : bool) (thread_pool_size : nat)
  : outcome unit * list event :=
  let current_state := fetch_current_state thread_pool_size in
  let desired_state := fetch_desired_state in
  (* we only manage dedicated-admins via OCM *)
  let current_state :=
    filter (λ s, group s = "dedicated-admins") current_state in
  let desired_state :=
    filter (λ s, group s = "dedicated-admins") desired_state in
  let diffs := calculate_diff current_state desired_state in
  match validate_diffs diffs with
  | Some details => (Raise (Exception details), [])
  | None => (Ok tt, act_on dry_run diffs)
  end.

End ocm_groups_code.

(** Modelled from the spec: [openshift_groups.calculate_diff], which is
    not part of the sources at hand; "computes add/remove diffs between
    current and desired external-group memberships". Used as an instance
    of the collaborator in the examples. *)
Definition membership_diff (current_state desired_state : list membership)
  : list diff :=
  ((λ s, {| action := "add_user_to_group"; diff_cluster := cluster s;
            diff_group := group s; diff_user := user s |})
     <$> filter (λ s, s ∉ current_state) desired_state) ++
  ((λ s, {| action := "del_user_from_group"; diff_cluster := cluster s;
            diff_group := group s; diff_user := user s |})
     <$> filter (λ s, s ∉ desired_state) current_state).

Definition example_collaborators : Collaborators := {|
  create_groups_list := [("appsre01", "dedicated-admins");
                         ("appsre01", "developers")];
  get_group_if_exists := λ cluster group_name,
    if bool_decide (group_name = "dedicated-admins") then Some (Some ["bob"])
    else Some (Some ["carol"]);
  fetch_desired_state :=
    [{| cluster := "appsre01"; group := "dedicated-admins"; user := "alice" |};
     {| cluster := "appsre01"; group := "developers"; user := "dave" |}];
  calculate_diff := membership_diff;
  validate_diffs := λ _, None;
  diff_values := λ d, [action d; diff_cluster d; diff_group d; diff_user d];
|}.

Definition example_diffs : list diff :=
  [{| action := "create_group"; diff_cluster := "appsre01";
      diff_group := "dedicated-admins"; diff_user := "" |};
   {| action := "add_user_to_group"; diff_cluster := "appsre01";
      diff_group := "dedicated-admins"; diff_user := "alice" |};
   {| action := "delete_group"; diff_cluster := "appsre01";
      diff_group := "dedicated-admins"; diff_user := "" |}].

(** *** Notions used to state further properties *)

(** The call to the OCM adapter that a diff stands for, if any. *)
Definition adapter_call_of (d : diff) : option event :=
  if bool_decide (action d = "add_user_to_group")
  then Some (add_user_to_group (diff_cluster d) (diff_group d) (diff_user d))
  else if bool_decide (action d = "del_user_from_group")
  then Some (del_user_from_group (diff_cluster d) (diff_group d) (diff_user d))
  else None.

Definition is_adapter_call (ev : event) : bool :=
  match ev with
  | add_user_to_group _ _ _ | del_user_from_group _ _ _ => true
  | _ => false
  end.

Definition is_logging (ev : event) : bool :=
  match ev with
  | logging_info _ => true
  | _ => false
  end.

End OcmGroups.

(** * Part II: properties *)

Local Open Scope list_scope.
Local Open Scope nat_scope.

Section register_trigger_facts.
Import TriggerBase.

Lemma register_trigger_answer name reg :
  (_register_trigger name reg).1 = bool_decide (name ∉ reg).
Proof.
  unfold _register_trigger. case_decide; simpl.
  - symmetry. by apply bool_decide_eq_true_2.
  - symmetry. apply bool_decide_eq_false_2. intros Hn. by apply Hn.
Qed.

Lemma register_trigger_registry name reg :
  (_register_trigger name reg).2 = {[name]} ∪ reg.
Proof.
  unfold _register_trigger. case_decide as Hin; simpl; [done|].
  set_solver.
Qed.

Lemma register_calls_spec names reg :
  length (register_calls names reg).1 = length names ∧
  (∀ i name, names !! i = Some name →
     (register_calls names reg).1 !! i
       = Some (bool_decide (name ∉ reg ∧ name ∉ take i names))) ∧
  (register_calls names reg).2 = list_to_set names ∪ reg.
Proof.
  revert reg. induction names as [|n names IH]; intros reg; simpl.
  - split_and!; [done| |set_solver]. intros i name Hi. by rewrite lookup_nil in Hi.
  - pose proof (register_trigger_answer n reg) as Ha.
    pose proof (register_trigger_registry n reg) as Hr.
    destruct (_register_trigger n reg) as [b reg1]; simpl in *; subst.
    destruct (IH ({[n]} ∪ reg)) as (Hlen & Hans & Hfin).
    destruct (register_calls names ({[n]} ∪ reg)) as [answers final]; simpl in *.
    split_and!.
    + by rewrite Hlen.
    + intros [|i] name Hi; simpl in *.
      * simplify_eq. f_equal. apply bool_decide_ext. set_solver.
      * rewrite (Hans _ _ Hi). f_equal. apply bool_decide_ext. set_solver.
    + rewrite Hfin. set_solver.
Qed.

(** C1. [_register_trigger] is a check-and-set on the registry of the
    pass. One call answers true exactly when the identity was not yet
    registered, leaves the identity registered, and removes nothing.
    Over any sequence of calls that starts from the empty registry, the
    call at position [i] answers true exactly when its identity does not
    occur among the earlier calls (so for every identity the first call
    answers true and every later one false), and the final registry is
    the set of identities passed in. *)
Theorem register_trigger_check_and_set :
  (∀ name reg,
     ((_register_trigger name reg).1 = true ↔ name ∉ reg) ∧
     name ∈ (_register_trigger name reg).2 ∧
     reg ⊆ (_register_trigger name reg).2) ∧
  (∀ names,
     length (register_calls names ∅).1 = length names ∧
     (∀ i name, names !! i = Some name →
        (register_calls names ∅).1 !! i
          = Some (bool_decide (name ∉ take i names))) ∧
     (∀ i j name, i < j → names !! i = Some name → names !! j = Some name →
        (register_calls names ∅).1 !! j = Some false) ∧
     (∀ name, name ∈ names →
        ∃ i, names !! i = Some name ∧
             (register_calls names ∅).1 !! i = Some true ∧
             ∀ j, names !! j = Some name →
                  (register_calls names ∅).1 !! j = Some true → j = i) ∧
     (register_calls names ∅).2 = list_to_set names).
Proof.
  split.
  - intros name reg. rewrite register_trigger_answer, register_trigger_registry.
    rewrite bool_decide_eq_true. set_solver.
  - intros names.
    destruct (register_calls_spec names ∅) as (Hlen & Hans & Hfin).
    assert (Hans' : ∀ i name, names !! i = Some name →
              (register_calls names ∅).1 !! i
                = Some (bool_decide (name ∉ take i names))).
    { intros i name Hi. rewrite (Hans _ _ Hi). f_equal.
      apply bool_decide_ext. set_solver. }
    split_and!; [done|done| | |].
    + intros i j name Hij Hi Hj. rewrite (Hans' _ _ Hj). f_equal.
      apply bool_decide_eq_false_2. intros Hn. apply Hn.
      apply list_elem_of_lookup. exists i. rewrite lookup_take_lt by lia. done.
    + intros name Hin.
      (* the first occurrence *)
      assert (∃ i, names !! i = Some name ∧ name ∉ take i names) as (i & Hi & Hfirst).
      { clear -Hin. induction names as [|n names IH]; [by apply elem_of_nil in Hin|].
        destruct (decide (n = name)) as [->|Hne].
        - exists 0. split; [done|]. simpl. apply not_elem_of_nil.
        - apply elem_of_cons in Hin as [?|Hin]; [congruence|].
          destruct (IH Hin) as (i & Hi & Hni). exists (S i). split; [done|].
          simpl. rewrite not_elem_of_cons. split; [congruence|done]. }
      exists i. split_and!; [done| |].
      * rewrite (Hans' _ _ Hi). f_equal. by apply bool_decide_eq_true_2.
      * intros j Hj Htrue. rewrite (Hans' _ _ Hj) in Htrue.
        injection Htrue as Htrue. apply bool_decide_eq_true in Htrue.
        destruct (Nat.lt_total j i) as [Hlt|[->|Hlt]]; [|done|].
        -- exfalso. apply Hfirst. apply list_elem_of_lookup. exists j.
           by rewrite lookup_take_lt by lia.
        -- exfalso. apply Htrue. apply list_elem_of_lookup. exists i.
           by rewrite lookup_take_lt by lia.
    + rewrite Hfin. set_solver.
Qed.

End register_trigger_facts.

Section trigger_facts.
Import TriggerBase.
Context `{Collaborators}.

Lemma construct_tekton_trigger_resource_eq sf env url ns st integ ver w :
  _construct_tekton_trigger_resource sf env url ns st integ ver w =
  (Ok (pipeline_run_resource sf env url ns st integ ver (utcnow_strftime (clock w)),
       lower (sf ++ "-" ++ env)%string),
   {| already_triggered := already_triggered w; trace := trace w;
      clock := S (clock w) |}).
Proof. reflexivity. Qed.

(** What processing one spec does, case by case. *)
Lemma trigger_jenkins_cases spec inst dry jm st tt integ ver w :
  pipelines_provider spec = Jenkins inst →
  let job := get_openshift_saas_deploy_job_name
               (saas_file_name spec) (env_name spec) st in
  let r := trigger spec dry jm st tt integ ver w in
  clock r.2 = clock w ∧
  already_triggered r.2 = {[job]} ∪ already_triggered w ∧
  if decide (job ∈ already_triggered w) then
    r.1 = Ok false ∧
    trace r.2 = trace w ++ (if dry then [] else [update_state tt spec])
  else if dry then
    r.1 = Ok false ∧
    trace r.2 = trace w ++ [logging_info ["trigger_job"; inst; job]]
  else
    match jm !! inst with
    | None =>
        r.1 = Raise (KeyError inst) ∧
        trace r.2 = trace w ++ [logging_info ["trigger_job"; inst; job]]
    | Some jenkins =>
        match trigger_job jenkins job with
        | None =>
            r.1 = Ok false ∧
            trace r.2 = trace w ++ [logging_info ["trigger_job"; inst; job];
                                    jenkins_trigger_job inst job;
                                    update_state tt spec]
        | Some details =>
            r.1 = Ok true ∧
            ∃ msg, trace r.2 = trace w ++ [logging_info ["trigger_job"; inst; job];
                                           jenkins_trigger_job inst job;
                                           logging_error msg]
        end
    end.
Proof.
  intros Hp job r.
  assert (Hr : r = trigger spec dry jm st tt integ ver w) by reflexivity.
  clearbody r. unfold trigger, _trigger_jenkins in Hr. rewrite Hp in Hr.
  fold job in Hr. clearbody job.
  unfold mbind, M_bind, mret, M_ret, on_already_triggered, _register_trigger,
    emit, raise in Hr.
  destruct w as [reg tr ck]; simpl in *.
  destruct (decide (job ∈ reg)) as [Hin|Hin].
  - rewrite decide_False in Hr by (intros Hn; by apply Hn). simpl in Hr.
    destruct dry; simpl in *; subst r; simpl; rewrite ?app_nil_r;
      split_and!; try done; set_solver.
  - rewrite decide_True in Hr by done. simpl in Hr.
    destruct dry; simpl in *; [by subst r|].
    destruct (jm !! inst) as [j|]; simpl in *; [|by subst r].
    destruct (trigger_job j job); simpl in *; subst r; simpl;
      split_and!; try done; try (eexists; by rewrite <-!app_assoc);
      by rewrite <-?app_assoc.
Qed.

Lemma trigger_tekton_cases spec ns dry jm st tt integ ver w :
  pipelines_provider spec = Tekton ns →
  let id := lower (saas_file_name spec ++ "-" ++ env_name spec)%string in
  let res := pipeline_run_resource (saas_file_name spec) (env_name spec)
               (ns_cluster_consoleUrl ns) (ns_name ns) st integ ver
               (utcnow_strftime (clock w)) in
  let call := osb_create_resource dry (ns_cluster_name ns) (ns_name ns)
                (kind (body res)) res in
  let r := trigger spec dry jm st tt integ ver w in
  clock r.2 = S (clock w) ∧
  already_triggered r.2 = {[id]} ∪ already_triggered w ∧
  if decide (id ∈ already_triggered w) then
    r.1 = Ok false ∧
    trace r.2 = trace w ++ (if dry then [] else [update_state tt spec])
  else
    match osb_create dry (ns_cluster_name ns) (ns_name ns)
            (kind (body res)) res with
    | None =>
        r.1 = Ok false ∧
        trace r.2 = trace w ++ call :: (if dry then [] else [update_state tt spec])
    | Some details =>
        r.1 = Ok true ∧
        ∃ msg, trace r.2 = trace w ++ [call; logging_error msg]
    end.
Proof.
  intros Hp id res call r.
  assert (Hr : r = trigger spec dry jm st tt integ ver w) by reflexivity.
  clearbody r. unfold trigger, _trigger_tekton in Hr. rewrite Hp in Hr.
  unfold mbind at 1, M_bind at 1 in Hr.
  rewrite construct_tekton_trigger_resource_eq in Hr.
  fold res in Hr. fold id in Hr. subst call. clearbody res id.
  unfold mbind, M_bind, mret, M_ret, on_already_triggered, _register_trigger,
    emit, raise in Hr.
  destruct w as [reg tr ck]; simpl in *.
  destruct (decide (id ∈ reg)) as [Hin|Hin].
  - rewrite decide_False in Hr by (intros Hn; by apply Hn). simpl in Hr.
    destruct dry; simpl in *; subst r; simpl; rewrite ?app_nil_r;
      split_and!; try done; set_solver.
  - rewrite decide_True in Hr by done. simpl in Hr.
    destruct (osb_create dry _ _ _ _), dry; simpl in *; subst r; simpl;
      split_and!; try done; try (eexists; by rewrite <-!app_assoc);
      by rewrite <-?app_assoc.
Qed.

Lemma trigger_unsupported_cases spec p dry jm st tt integ ver w :
  pipelines_provider spec = Unsupported p →
  let r := trigger spec dry jm st tt integ ver w in
  clock r.2 = clock w ∧
  already_triggered r.2 = already_triggered w ∧
  r.1 = Ok true ∧
  trace r.2 = trace w ++ [logging_error ("[" ++ saas_file_name spec ++
                                         "] unsupported provider: " ++ p)%string].
Proof. intros Hp r. subst r. unfold trigger. rewrite Hp. by destruct w. Qed.

Ltac step_done :=
  split_and!; simpl; try done;
  try (intros; simplify_eq; simpl; try done;
       try rewrite bool_decide_eq_true_2 by done;
       try rewrite bool_decide_eq_false_2 by (intros [? ?]; done);
       try rewrite bool_decide_eq_true_2 by (by eexists);
       try rewrite bool_decide_eq_false_2 by (intros [? ?]; done);
       try done;
       try (eexists; repeat first [apply list_elem_of_here | apply list_elem_of_further])).

Lemma trigger_step spec dry jm st tt integ ver w :
  let r := trigger spec dry jm st tt integ ver w in
  clock r.2 = clock w + clock_readings spec ∧
  already_triggered r.2 = registered st spec ∪ already_triggered w ∧
  ∃ evs,
    trace r.2 = trace w ++ evs ∧
    (dry = true ∨ known_instances jm [spec] →
     r.1 = Ok (trigger_error dry jm st integ ver (already_triggered w) (clock w) spec)) ∧
    filter (λ ev, is_update_state ev = true) evs =
      (if bool_decide (dry = false ∧ r.1 = Ok false)
       then [update_state tt spec] else []) ∧
    (∀ id, trigger_identity st spec = Some id → id ∈ already_triggered w →
       r.1 = Ok false ∧ evs = if dry then [] else [update_state tt spec]) ∧
    (r.1 = Ok true → ∃ msg, logging_error msg ∈ evs).
Proof.
  intros r. unfold registered, trigger_identity, clock_readings, trigger_error, known_instances.
  destruct (pipelines_provider spec) as [inst|ns|p] eqn:Hp; simpl.
  - destruct (trigger_jenkins_cases spec inst dry jm st tt integ ver w Hp)
      as (Hck & Hreg & Hcases). fold r in Hck, Hreg, Hcases.
    split; [lia|]. split; [done|].
    set (job := get_openshift_saas_deploy_job_name _ _ _) in *. clearbody job.
    destruct (decide (job ∈ already_triggered w)) as [Hin|Hin].
    + destruct Hcases as [Hr Htr]. eexists. split; [exact Htr|].
      rewrite Hr. rewrite (bool_decide_eq_false_2 (job ∉ _)) by (intros Hn; by apply Hn).
      destruct dry; simpl; step_done.
    + rewrite (bool_decide_eq_true_2 (job ∉ _)) by done.
      destruct dry; simpl.
      { destruct Hcases as [Hr Htr]. eexists. split; [exact Htr|]. rewrite Hr.
        step_done. }
      destruct (jm !! inst) as [j|] eqn:Hj.
      * destruct (trigger_job j job) eqn:Htj.
        -- destruct Hcases as [Hr [msg Htr]]. eexists. split; [exact Htr|]. rewrite Hr.
           step_done.
        -- destruct Hcases as [Hr Htr]. eexists. split; [exact Htr|]. rewrite Hr.
           step_done.
      * destruct Hcases as [Hr Htr]. eexists. split; [exact Htr|]. rewrite Hr.
        step_done.
        match goal with Hk : _ ∨ _ |- _ =>
          destruct Hk as [?|Hk]; [done|];
          destruct (Hk spec inst) as [? ?]; [set_solver|done|congruence] end.
  - destruct (trigger_tekton_cases spec ns dry jm st tt integ ver w Hp)
      as (Hck & Hreg & Hcases). fold r in Hck, Hreg, Hcases.
    split; [lia|]. split; [done|].
    set (id := lower _) in *. clearbody id.
    set (res := pipeline_run_resource _ _ _ _ _ _ _ _) in *.
    change (kind (body res)) with "PipelineRun" in *. clearbody res.
    destruct (decide (id ∈ already_triggered w)) as [Hin|Hin].
    + destruct Hcases as [Hr Htr]. eexists. split; [exact Htr|].
      rewrite Hr. rewrite (bool_decide_eq_false_2 (id ∉ _)) by (intros Hn; by apply Hn).
      destruct dry; simpl; step_done.
    + rewrite (bool_decide_eq_true_2 (id ∉ _)) by done. simpl.
      destruct (osb_create dry _ _ _ _) eqn:Hc.
      * destruct Hcases as [Hr [msg Htr]]. eexists. split; [exact Htr|]. rewrite Hr.
        step_done.
      * destruct Hcases as [Hr Htr]. eexists. split; [exact Htr|]. rewrite Hr.
        destruct dry; step_done.
  - destruct (trigger_unsupported_cases spec p dry jm st tt integ ver w Hp)
      as (Hck & Hreg & Hr & Htr). fold r in Hck, Hreg, Hr, Htr.
    split; [lia|]. split; [set_solver|].
    eexists. split; [exact Htr|]. rewrite Hr. step_done.
Qed.


Lemma known_instances_cons jm spec specs :
  known_instances jm (spec :: specs) →
  known_instances jm [spec] ∧ known_instances jm specs.
Proof.
  intros Hk. split; intros s i Hs; apply Hk; set_solver.
Qed.

Lemma threaded_run_trigger dry jm st tt integ ver specs w :
  dry = true ∨ known_instances jm specs →
  ∃ errors w' evs,
    threaded_run (λ spec, trigger spec dry jm st tt integ ver) specs w
      = (Ok errors, w') ∧
    length errors = length specs ∧
    already_triggered w'
      = list_to_set (omap (trigger_identity st) specs) ∪ already_triggered w ∧
    clock w' = clock w + readings specs ∧
    trace w' = trace w ++ evs ∧
    (∀ i spec, specs !! i = Some spec →
       errors !! i = Some (trigger_error dry jm st integ ver
         (list_to_set (omap (trigger_identity st) (take i specs))
            ∪ already_triggered w)
         (clock w + readings (take i specs)) spec)) ∧
    (∀ i, errors !! i = Some true → ∃ msg, logging_error msg ∈ evs).
Proof.
  revert w. induction specs as [|spec specs IH]; intros w Hk.
  - exists [], w, []. simpl. rewrite app_nil_r.
    split_and!; try done; try set_solver; cbn; lia.
  - assert (dry = true ∨ known_instances jm [spec]) as Hk1.
    { destruct Hk as [?|Hk]; [by left|right].
      by apply known_instances_cons in Hk as [? _]. }
    assert (dry = true ∨ known_instances jm specs) as Hk'.
    { destruct Hk as [?|Hk]; [by left|right].
      by apply known_instances_cons in Hk as [_ ?]. }
    clear Hk. rename Hk' into Hk.
    pose proof (trigger_step spec dry jm st tt integ ver w) as Hstep.
    simpl in Hstep. destruct Hstep as (Hck & Hreg & evs1 & Htr & Hres & _ & _ & Hlog).
    specialize (Hres Hk1).
    destruct (trigger spec dry jm st tt integ ver w) as [r1 w1] eqn:Ht.
    simpl in *. subst r1.
    destruct (IH w1 Hk) as (errors & w' & evs & Hrun & Hlen & Hreg' & Hck' & Htr' & Herr & Hlog').
    exists (trigger_error dry jm st integ ver (already_triggered w) (clock w) spec :: errors),
      w', (evs1 ++ evs).
    split_and!.
    + unfold mbind, M_bind. rewrite Ht. unfold mbind, M_bind in Hrun.
      rewrite Hrun. done.
    + simpl. by rewrite Hlen.
    + rewrite Hreg', Hreg. unfold registered.
      destruct (trigger_identity st spec); simpl; set_solver.
    + rewrite Hck', Hck. simpl; lia.
    + rewrite Htr', Htr. by rewrite app_assoc.
    + intros [|i] s Hs; simpl in *.
      * simplify_eq. f_equal. f_equal; [set_solver|simpl; lia].
      * rewrite (Herr _ _ Hs). f_equal. rewrite Hreg, Hck. f_equal.
        -- unfold registered. destruct (trigger_identity st spec); simpl; set_solver.
        -- simpl; lia.
    + intros [|i] Hi; simpl in *.
      * destruct (Hlog ltac:(congruence)) as [msg ?]. exists msg. set_solver.
      * destruct (Hlog' _ Hi) as [msg ?]. exists msg. set_solver.
Qed.

Lemma setup_no_saas_files tps internal ujh integ ver v1 v2 w :
  queries_get_saas_files v1 v2 = [] →
  setup tps internal ujh integ ver v1 v2 w =
    (Ok (None, true),
     {| already_triggered := already_triggered w;
        trace := trace w ++ [logging_error "no saas files found"];
        clock := clock w |}).
Proof. intros Hq. unfold setup. rewrite Hq. reflexivity. Qed.

Lemma setup_saas_files tps internal ujh integ ver v1 v2 w :
  queries_get_saas_files v1 v2 ≠ [] →
  ∃ res, setup tps internal ujh integ ver v1 v2 w = (Ok (Some res, false), w).
Proof.
  intros Hq. unfold setup. rewrite bool_decide_eq_false_2 by done.
  eexists. reflexivity.
Qed.

Lemma existsb_id_app errors diff_err :
  existsb id (errors ++ [diff_err]) = existsb id errors || diff_err.
Proof. rewrite existsb_app. simpl. by rewrite orb_false_r. Qed.

(** C7. For a cluster-apply (Tekton) trigger the identity registered in
    [already_triggered] is [long_name], the lower-cased
    [{saas_file_name}-{env_name}], as returned by
    [_construct_tekton_trigger_resource]; the truncation and the timestamp
    only enter the [metadata.name] of the PipelineRun. Take two specs for
    the same saas file and environment processed one after the other in a
    pass, whatever the clock reads at either of them. Each builds its
    resource at its own reading of the clock, under its own
    [metadata.name], and both come with the same identity. When the
    identity is new to the pass, the first spec registers it and calls
    [osb.create] once, on the resource it has built, in the cluster and
    namespace of its provider, and makes no other dispatch. The second
    finds the identity registered: it creates no resource and registers
    nothing new. So the calls of the two specs hold one dispatch, the
    [osb.create] of the first. *)
Theorem tekton_identity_is_pre_timestamp
    (saas env : string) (ns1 ns2 : namespace_info) (dry : bool)
    (st : settings) (tt integ ver : string) (w : world) :
  let spec1 := {| saas_file_name := saas; env_name := env;
                  pipelines_provider := Tekton ns1 |} in
  let spec2 := {| saas_file_name := saas; env_name := env;
                  pipelines_provider := Tekton ns2 |} in
  let long_name := lower (saas ++ "-" ++ env)%string in
  let built := _construct_tekton_trigger_resource saas env
                 (ns_cluster_consoleUrl ns1) (ns_name ns1) st integ ver w in
  let r1 := _trigger_tekton spec1 dry st tt integ ver w in
  let built2 := _construct_tekton_trigger_resource saas env
                  (ns_cluster_consoleUrl ns2) (ns_name ns2) st integ ver r1.2 in
  let r2 := _trigger_tekton spec2 dry st tt integ ver r1.2 in
  (∃ resource,
     built.1 = Ok (resource, long_name) ∧
     metadata_name (body resource) =
       (substring 0 UNIQUE_SAAS_FILE_ENV_COMBO_LEN long_name ++ "-" ++
        utcnow_strftime (clock w))%string ∧
     (long_name ∉ already_triggered w →
      ∃ rest evs,
        trace r1.2 = trace w ++
          osb_create_resource dry (ns_cluster_name ns1) (ns_name ns1)
            "PipelineRun" resource :: rest ∧
        (∀ ev, ev ∈ rest → is_dispatch ev = false) ∧
        trace r2.2 = trace w ++ evs ∧
        filter (λ ev, is_dispatch ev = true) evs =
          [osb_create_resource dry (ns_cluster_name ns1) (ns_name ns1)
             "PipelineRun" resource])) ∧
  (∃ resource2,
     built2.1 = Ok (resource2, long_name) ∧
     metadata_name (body resource2) =
       (substring 0 UNIQUE_SAAS_FILE_ENV_COMBO_LEN long_name ++ "-" ++
        utcnow_strftime (S (clock w)))%string) ∧
  already_triggered r1.2 = {[long_name]} ∪ already_triggered w ∧
  r2.1 = Ok false ∧
  trace r2.2 = trace r1.2 ++ (if dry then [] else [update_state tt spec2]) ∧
  already_triggered r2.2 = already_triggered r1.2.
Proof.
  intros spec1 spec2 long_name built r1 built2 r2.
  destruct (trigger_tekton_cases spec1 ns1 dry ∅ st tt integ ver w eq_refl)
    as (Hck1 & Hreg1 & Hcases1).
  change (trigger spec1 dry ∅ st tt integ ver w) with r1 in Hck1, Hreg1, Hcases1.
  simpl in Hreg1, Hcases1. fold long_name in Hreg1, Hcases1.
  destruct (trigger_tekton_cases spec2 ns2 dry ∅ st tt integ ver r1.2 eq_refl)
    as (_ & Hreg2 & Hcases).
  change (trigger spec2 dry ∅ st tt integ ver r1.2) with r2 in Hreg2, Hcases.
  simpl in Hreg2, Hcases. fold long_name in Hreg2, Hcases.
  rewrite decide_True in Hcases by (rewrite Hreg1; set_solver).
  destruct Hcases as [Hr2 Htr2].
  split_and!; [| |done|done|done|by rewrite Hreg2, Hreg1; set_solver].
  - eexists. subst built. rewrite construct_tekton_trigger_resource_eq.
    split; [reflexivity|]. split; [reflexivity|].
    intros Hfresh. rewrite decide_False in Hcases1 by done.
    assert (∃ rest, trace r1.2 = trace w ++
              osb_create_resource dry (ns_cluster_name ns1) (ns_name ns1)
                "PipelineRun"
                (pipeline_run_resource saas env (ns_cluster_consoleUrl ns1)
                   (ns_name ns1) st integ ver (utcnow_strftime (clock w)))
              :: rest ∧
            ∀ ev, ev ∈ rest → is_dispatch ev = false) as (rest & Htr1 & Hrest).
    { destruct (osb_create dry _ _ _ _).
      - destruct Hcases1 as [_ [msg Htr1]]. eexists. split; [exact Htr1|].
        intros ev Hev. apply list_elem_of_singleton in Hev. by subst ev.
      - destruct Hcases1 as [_ Htr1]. eexists. split; [exact Htr1|].
        intros ev Hev. destruct dry; [by apply elem_of_nil in Hev|].
        apply list_elem_of_singleton in Hev. by subst ev. }
    exists rest. eexists. split; [exact Htr1|]. split; [exact Hrest|].
    split.
    + rewrite Htr2, Htr1. rewrite <-app_assoc. reflexivity.
    + rewrite <-app_comm_cons, filter_cons_True by done. f_equal.
      rewrite filter_app.
      assert (∀ l, (∀ ev, ev ∈ l → is_dispatch ev = false) →
                filter (λ ev, is_dispatch ev = true) l = []) as Hnone.
      { intros l Hl. induction l as [|ev l IH]; [done|].
        rewrite filter_cons_False.
        - apply IH. intros ev' Hev'. apply Hl. set_solver.
        - rewrite (Hl ev) by set_solver. done. }
      rewrite (Hnone rest Hrest). simpl. apply Hnone.
      intros ev Hev. destruct dry; [by apply elem_of_nil in Hev|].
      apply list_elem_of_singleton in Hev. by subst ev.
  - eexists. subst built2. rewrite construct_tekton_trigger_resource_eq.
    rewrite Hck1. split; reflexivity.
Qed.


(** The map stops at the first worker that raises. *)
Lemma threaded_run_raises {A B} (func : A → M B) before x after w errors w1 e w2 :
  threaded_run func before w = (Ok errors, w1) →
  func x w1 = (Raise e, w2) →
  threaded_run func (before ++ x :: after) w = (Raise e, w2).
Proof.
  revert w errors. induction before as [|y before IH]; intros w errors Hb Hx.
  - simpl in Hb. injection Hb as _ <-. simpl. unfold mbind, M_bind.
    by rewrite Hx.
  - simpl in *. unfold mbind, M_bind in *.
    destruct (func y w) as [[b|e'] w'] eqn:Hy; [|discriminate Hb].
    destruct (threaded_run func before w') as [[bs|e'] w''] eqn:Hrest;
      [|discriminate Hb].
    injection Hb as _ <-. by rewrite (IH _ _ Hrest Hx).
Qed.


End trigger_facts.

Section trigger_examples.
Import TriggerBase.

Lemma register_trigger_check_and_set_witness :
  (register_calls ["x"; "y"; "x"] ∅).1 !! 2 = Some false.
Proof.
  destruct register_trigger_check_and_set as [_ Hseq].
  destruct (Hseq ["x"; "y"; "x"]) as (_ & _ & Hlater & _).
  apply (Hlater 0 2 "x"); [lia|reflexivity|reflexivity].
Defined.

Lemma tekton_identity_is_pre_timestamp_witness :
  let r1 := _trigger_tekton (H:=example_collaborators) example_tekton_spec
              false example_settings "configs"
              "openshift-saas-deploy-trigger-configs" "0.1.0" example_world in
  let r2 := _trigger_tekton (H:=example_collaborators) example_tekton_spec
              false example_settings "configs"
              "openshift-saas-deploy-trigger-configs" "0.1.0" r1.2 in
  ∃ resource evs,
    metadata_name (body resource) = "app-prod-202101010000" ∧
    trace r2.2 = [] ++ evs ∧
    filter (λ ev, is_dispatch ev = true) evs =
      [osb_create_resource false "appsre01" "pipelines" "PipelineRun" resource].
Proof.
  destruct (tekton_identity_is_pre_timestamp
    (H:=example_collaborators) "App" "Prod" example_namespace
    example_namespace false example_settings "configs"
    "openshift-saas-deploy-trigger-configs" "0.1.0" example_world)
    as ((resource & _ & Hname & Hfresh) & _).
  destruct (Hfresh (not_elem_of_empty (C:=gset string) _))
    as (rest & evs & _ & _ & Htr & Hone).
  exists resource, evs. split; [exact Hname|]. split; [exact Htr|exact Hone].
Defined.





End trigger_examples.

Section diff_facts.
Import SaasFileOwners.

Lemma diffs_filter current_state desired_state :
  diffs current_state desired_state
    = filter (λ s, s ∉ current_state) desired_state.
Proof.
  induction desired_state as [|s rest IH]; simpl; [done|].
  rewrite filter_cons, IH.
  destruct (decide (s ∉ current_state)) as [Hs|Hs].
  - by rewrite bool_decide_eq_true_2.
  - by rewrite bool_decide_eq_false_2.
Qed.

(** C6. The diff of [run] is the list of the entries of the desired state
    that are equal to no entry of the current state, in the order of the
    desired state; the diff of a state with itself is empty. *)
Theorem diffs_desired_without_current :
  (∀ current_state desired_state,
     diffs current_state desired_state
       = filter (λ s, s ∉ current_state) desired_state ∧
     (∀ s, s ∈ diffs current_state desired_state
           ↔ s ∈ desired_state ∧ s ∉ current_state) ∧
     diffs current_state desired_state `sublist_of` desired_state) ∧
  (∀ state, diffs state state = []).
Proof.
  split.
  - intros cur des. rewrite diffs_filter. split_and!; [done| |].
    + intros s. rewrite list_elem_of_filter. tauto.
    + apply sublist_filter.
  - intros state. rewrite diffs_filter.
    induction state as [|s rest IH] using rev_ind; [done|].
    rewrite filter_app. 
    assert (Hnil : ∀ l1 l2 : list state_entry, l1 ⊆ l2 → filter (λ s, s ∉ l2) l1 = []).
    { clear. intros l1 l2 Hsub. induction l1 as [|x l1 IH]; [done|].
      rewrite filter_cons. rewrite decide_False by (intros Hn; apply Hn; set_solver).
      apply IH. set_solver. }
    rewrite !Hnil by set_solver. done.
Qed.

Lemma list_ascii_of_string_app s1 s2 :
  list_ascii_of_string (s1 ++ s2)%string
    = list_ascii_of_string s1 ++ list_ascii_of_string s2.
Proof. induction s1 as [|c s1 IH]; simpl; [done|]. by rewrite IH. Qed.

Lemma endswith_spec c suffix :
  endswith c suffix = true ↔ ∃ prefix, c = (prefix ++ suffix)%string.
Proof.
  unfold endswith. rewrite bool_decide_eq_true. split.
  - intros [k Hk]. exists (string_of_list_ascii k).
    rewrite <-(string_of_list_ascii_of_string c), Hk.
    rewrite <-(string_of_list_ascii_of_string suffix) at 2.
    clear. induction k as [|a k IH]; simpl; [done|]. by rewrite IH.
  - intros [p ->]. exists (list_ascii_of_string p).
    apply list_ascii_of_string_app.
Qed.

Lemma inner_loop_spec d cur (acc : gset string) u :
  u ∈ foldl (λ (compare_diffs : gset string) c,
        if bool_decide (saas_file_name d ≠ saas_file_name c) then compare_diffs
        else if bool_decide (resource_template_name d ≠ resource_template_name c)
        then compare_diffs
        else if bool_decide (environment d ≠ environment c) then compare_diffs
        else if bool_decide (cluster d ≠ cluster c) then compare_diffs
        else if bool_decide (namespace d ≠ namespace c) then compare_diffs
        else if bool_decide (ref d = ref c) then compare_diffs
        else {[ (url d ++ "/compare/" ++ ref c ++ "..." ++ ref d)%string ]}
               ∪ compare_diffs) acc cur
  ↔ u ∈ acc ∨ ∃ c, c ∈ cur ∧ same_target c d ∧ ref d ≠ ref c ∧ u = compare_url c d.
Proof.
  revert acc. induction cur as [|c cur IH]; intros acc; simpl.
  - split; [auto|]. intros [?|(c & Hc & _)]; [done|]. by apply elem_of_nil in Hc.
  - rewrite IH. unfold same_target, compare_url.
    repeat case_bool_decide.
    all: split; [intros [Hu|(c' & Hc' & Hrest)]|intros [Hu|(c' & Hc' & Hrest)]].
    all: try (left; done).
    all: try (right; exists c'; split; [set_solver|done]).
    all: try (apply elem_of_cons in Hc' as [->|Hc']; [naive_solver|right; exists c'; done]).
    + apply elem_of_union in Hu as [Hu|Hu]; [|by left].
      apply elem_of_singleton in Hu. right. exists c. split; [set_solver|]. naive_solver.
    + left. set_solver.
    + apply elem_of_cons in Hc' as [->|Hc']; [|right; exists c'; done].
      left. destruct Hrest as (_ & _ & ->). set_solver.
Qed.

Lemma changed_path_matches_nil changed_paths d :
  filter (λ c, endswith c (saas_file_path d) = true) changed_paths = []
  ↔ ¬ changed changed_paths d.
Proof.
  unfold changed. split.
  - intros Hnil (c & Hc & He).
    assert (c ∈ filter (λ c, endswith c (saas_file_path d) = true) changed_paths)
      as Hin by (apply list_elem_of_filter; done).
    rewrite Hnil in Hin. by apply elem_of_nil in Hin.
  - intros Hno. induction changed_paths as [|c cps IH]; [done|].
    rewrite filter_cons. destruct (decide _) as [He|He].
    + exfalso. apply Hno. exists c. split; [set_solver|done].
    + apply IH. intros (c' & Hc' & He'). apply Hno. exists c'. split; [set_solver|done].
Qed.

Lemma collect_compare_diffs_elem current_state desired_state changed_paths u :
  u ∈ collect_compare_diffs current_state desired_state changed_paths ↔
  ∃ d c, d ∈ desired_state ∧ c ∈ current_state ∧ changed changed_paths d ∧
         same_target c d ∧ ref d ≠ ref c ∧ u = compare_url c d.
Proof.
  unfold collect_compare_diffs.
  assert (Hgen : ∀ acc : gset string,
    u ∈ foldl (λ (compare_diffs : gset string) d,
      let changed_path_matches :=
        filter (λ c, endswith c (saas_file_path d) = true) changed_paths in
      if bool_decide (changed_path_matches = []) then compare_diffs
      else
        foldl (λ (compare_diffs : gset string) c,
          if bool_decide (saas_file_name d ≠ saas_file_name c) then compare_diffs
          else if bool_decide (resource_template_name d ≠ resource_template_name c)
          then compare_diffs
          else if bool_decide (environment d ≠ environment c) then compare_diffs
          else if bool_decide (cluster d ≠ cluster c) then compare_diffs
          else if bool_decide (namespace d ≠ namespace c) then compare_diffs
          else if bool_decide (ref d = ref c) then compare_diffs
          else {[ (url d ++ "/compare/" ++ ref c ++ "..." ++ ref d)%string ]}
                 ∪ compare_diffs)
          compare_diffs current_state) acc desired_state
    ↔ u ∈ acc ∨ ∃ d c, d ∈ desired_state ∧ c ∈ current_state ∧
         changed changed_paths d ∧ same_target c d ∧ ref d ≠ ref c ∧
         u = compare_url c d).
  { induction desired_state as [|d des IH]; intros acc; simpl.
    - split; [auto|]. intros [?|(d & c & Hd & _)]; [done|]. by apply elem_of_nil in Hd.
    - rewrite IH. case_bool_decide as Hm.
      + apply changed_path_matches_nil in Hm. split.
        * intros [?|(d' & c & Hd' & Hrest)]; [by left|].
          right. exists d', c. split; [set_solver|done].
        * intros [?|(d' & c & Hd' & Hc & Hch & Hrest)]; [by left|].
          apply elem_of_cons in Hd' as [->|Hd']; [done|].
          right. exists d', c. done.
      + assert (changed changed_paths d) as Hch.
        { destruct (filter (λ c, endswith c (saas_file_path d) = true)
                      changed_paths) as [|c l] eqn:Hf; [done|].
          assert (c ∈ filter (λ c, endswith c (saas_file_path d) = true)
                        changed_paths) as Hin by (rewrite Hf; set_solver).
          apply list_elem_of_filter in Hin as [He Hin]. by exists c. }
        rewrite inner_loop_spec. split.
        * intros [[?|(c & Hc & Hrest)]|(d' & c & Hd' & Hrest)]; [by left | |].
          -- right. exists d, c. split; [set_solver|done].
          -- right. exists d', c. split; [set_solver|done].
        * intros [?|(d' & c & Hd' & Hc & Hch' & Hrest)]; [by left; left|].
          apply elem_of_cons in Hd' as [->|Hd'].
          -- left. right. exists c. done.
          -- right. exists d', c. done. }
  rewrite Hgen. set_solver.
Qed.


(** C8. [collect_compare_diffs] returns exactly the set of the strings
    [{url}/compare/{old ref}...{new ref}], one for every entry of the
    desired state whose saas file path matches a changed path (a changed
    path ends with it) and every entry of the current state that agrees
    with it on saas file name, resource template name, environment,
    cluster and namespace and has another ref. An entry of the desired
    state whose path matches no changed path contributes nothing. With
    current ref "abc", desired ref "def" and url "https://git/example"
    the result is exactly "https://git/example/compare/abc...def". *)
Theorem collect_compare_diffs_urls :
  (∀ current_state desired_state changed_paths u,
     u ∈ collect_compare_diffs current_state desired_state changed_paths ↔
     ∃ d c, d ∈ desired_state ∧ c ∈ current_state ∧
            changed changed_paths d ∧ same_target c d ∧ ref d ≠ ref c ∧
            u = (url d ++ "/compare/" ++ ref c ++ "..." ++ ref d)%string) ∧
  (∀ c suffix,
     endswith c suffix = true ↔ ∃ prefix, c = (prefix ++ suffix)%string) ∧
  (∀ current_state desired1 d desired2 changed_paths,
     ¬ changed changed_paths d →
     collect_compare_diffs current_state (desired1 ++ d :: desired2) changed_paths
       = collect_compare_diffs current_state (desired1 ++ desired2) changed_paths) ∧
  collect_compare_diffs [example_current] [example_desired]
    ["data/services/app/cicd/saas.yaml"]
    = {[ "https://git/example/compare/abc...def" ]}.
Proof.
  split_and!.
  - apply collect_compare_diffs_elem.
  - apply endswith_spec.
  - intros cur des1 d des2 cps Hd. apply set_eq. intros u.
    rewrite !collect_compare_diffs_elem. split.
    + intros (d' & c & Hd' & Hrest). exists d', c. split; [|done].
      apply elem_of_app in Hd' as [?|Hd']; [set_solver|].
      apply elem_of_cons in Hd' as [->|?]; [|set_solver].
      by destruct Hrest as (_ & ? & _).
    + intros (d' & c & Hd' & Hrest). exists d', c. split; [|done]. set_solver.
  - apply set_eq. intros u. rewrite collect_compare_diffs_elem.
    rewrite elem_of_singleton. split.
    + intros (d & c & Hd & Hc & _ & _ & _ & ->).
      apply list_elem_of_singleton in Hd, Hc. by subst.
    + intros ->. exists example_desired, example_current.
      split_and!; try apply list_elem_of_here; try done.
      exists "data/services/app/cicd/saas.yaml".
      split; [apply list_elem_of_here|by vm_compute].
Qed.

End diff_facts.

Section diff_examples.
Import SaasFileOwners.

Lemma diffs_desired_without_current_witness :
  example_desired ∈ diffs [example_current] [example_desired; example_current].
Proof.
  destruct diffs_desired_without_current as [Hd _].
  destruct (Hd [example_current] [example_desired; example_current])
    as (_ & Hin & _).
  apply Hin. split; [apply list_elem_of_here|].
  intros Hc. apply list_elem_of_singleton in Hc. discriminate Hc.
Defined.

Lemma collect_compare_diffs_urls_witness :
  collect_compare_diffs [example_current] [example_desired; example_desired]
    ["unrelated.yaml"] = collect_compare_diffs [example_current]
    [example_desired] ["unrelated.yaml"].
Proof.
  destruct collect_compare_diffs_urls as (_ & _ & Hskip & _).
  apply (Hskip [example_current] [] example_desired [example_desired]
           ["unrelated.yaml"]).
  intros (c & Hc & He). apply list_elem_of_singleton in Hc. subst c.
  vm_compute in He. discriminate He.
Defined.

End diff_examples.

Section approval_facts.
Import SaasFileOwners.

Lemma ltb_leb s1 s2 : String.ltb s1 s2 = true → String.leb s1 s2 = true.
Proof. unfold String.ltb, String.leb. by destruct (String.compare s1 s2). Qed.

Lemma not_ltb_leb s1 s2 : String.ltb s1 s2 = false → String.leb s2 s1 = true.
Proof.
  unfold String.ltb, String.leb. rewrite (String.compare_antisym s1 s2).
  by destruct (String.compare s2 s1).
Qed.

Lemma ltb_irrefl s : String.ltb s s = false.
Proof.
  unfold String.ltb. pose proof (String.compare_antisym s s) as Hc.
  destruct (String.compare s s); simpl in Hc; done.
Qed.

Lemma insert_sorted_perm x l : insert_sorted x l ≡ₚ x :: l.
Proof.
  induction l as [|y l IH]; simpl; [done|].
  destruct (String.ltb _ _); [|done]. rewrite IH. apply Permutation_swap.
Qed.

Lemma insert_sorted_hd x y l :
  before y x → HdRel before y l → HdRel before y (insert_sorted x l).
Proof.
  intros Hyx Hhd. destruct l as [|z l]; simpl; [by constructor|].
  destruct (String.ltb _ _); constructor; [|done]. by inversion Hhd.
Qed.

Lemma insert_sorted_sorted x l :
  Sorted before l → Sorted before (insert_sorted x l).
Proof.
  induction 1 as [|y l Hs IH Hhd]; simpl; [by repeat constructor|].
  destruct (String.ltb (created_at y) (created_at x)) eqn:Hlt.
  - constructor; [done|]. apply insert_sorted_hd; [|done]. by apply ltb_leb.
  - constructor; [by constructor|]. constructor. by apply not_ltb_leb.
Qed.

Lemma insert_sorted_filter (P : comment → Prop) `{∀ c, Decision (P c)} x l :
  (∀ c c', P c → P c' → created_at c = created_at c') →
  filter P (insert_sorted x l) = filter P (x :: l).
Proof.
  intros Hkey. induction l as [|y l IH]; simpl; [done|].
  destruct (String.ltb (created_at y) (created_at x)) eqn:Hlt; [|done].
  rewrite filter_cons, IH, !filter_cons.
  destruct (decide (P y)) as [Hy|Hy], (decide (P x)) as [Hx|Hx]; try done.
  rewrite (Hkey _ _ Hy Hx), ltb_irrefl in Hlt. done.
Qed.

Lemma sorted_spec comments :
  sorted comments ≡ₚ comments ∧
  Sorted before (sorted comments) ∧
  ∀ key, filter (λ c, created_at c = key) (sorted comments)
         = filter (λ c, created_at c = key) comments.
Proof.
  unfold sorted. induction comments as [|c l (IHp & IHs & IHf)]; simpl.
  - split_and!; [done|constructor|done].
  - split_and!.
    + by rewrite insert_sorted_perm, IHp.
    + by apply insert_sorted_sorted.
    + intros key. rewrite insert_sorted_filter by (intros; congruence).
      by rewrite !filter_cons, IHf.
Qed.

Lemma check_line_command st line :
  state_of (check_line st line)
    = from_option (apply_command (state_of st)) (state_of st) (parse_command line).
Proof.
  destruct st as [[a h] l]. unfold check_line, parse_command.
  repeat case_bool_decide; simplify_eq; try done.
Qed.

Lemma foldl_check_line st lines :
  state_of (foldl check_line st lines)
    = foldl apply_command (state_of st) (omap parse_command lines).
Proof.
  revert st. induction lines as [|line lines IH]; intros st; simpl; [done|].
  rewrite IH, check_line_command. by destruct (parse_command line).
Qed.

Lemma check_if_lgtm_evaluateApproval owners comments :
  check_if_lgtm (Some owners) comments
    = evaluateApproval replace_at owners comments.
Proof.
  unfold check_if_lgtm, evaluateApproval.
  destruct owners as [|o owners]; [done|].
  generalize (replace_at <$> o :: owners) as os. intros os.
  generalize (sorted comments) as cs. intros cs.
  change {| approved := false; hold := false; lgtm_seen := false |}
    with (state_of (false, false, false)).
  generalize (false, false, false) as st.
  induction cs as [|c cs IH]; intros st; simpl.
  - by destruct st as [[a h] l].
  - rewrite IH. rewrite filter_cons.
    destruct (decide (username c ∈ os)) as [Hc|Hc].
    + rewrite bool_decide_eq_false_2 by (intros Hn; by apply Hn).
      simpl. rewrite omap_app, foldl_app. by rewrite foldl_check_line.
    + by rewrite bool_decide_eq_true_2.
Qed.


Lemma replace_at_filter u :
  list_ascii_of_string (replace_at u)
    = filter (λ c, c ≠ "@"%char) (list_ascii_of_string u).
Proof.
  induction u as [|c u IH]; simpl; [done|].
  rewrite filter_cons. destruct (Ascii.eqb c "@") eqn:Hc.
  - apply Ascii.eqb_eq in Hc. by rewrite decide_False by (intros Hn; by apply Hn).
  - apply Ascii.eqb_neq in Hc. rewrite decide_True by done. simpl. by rewrite IH.
Qed.

Lemma replace_at_leading u :
  (∀ c, c ∈ list_ascii_of_string u → c ≠ "@"%char) →
  replace_at u = u ∧ replace_at (String "@" u) = strip_leading_at (String "@" u).
Proof.
  intros Hno. assert (replace_at u = u) as Hu.
  { rewrite <-(string_of_list_ascii_of_string (replace_at u)), replace_at_filter.
    rewrite <-(string_of_list_ascii_of_string u) at 2. f_equal.
    induction (list_ascii_of_string u) as [|c l IH]; [done|].
    rewrite filter_cons, decide_True by (apply Hno; set_solver).
    f_equal. apply IH. intros c' Hc'. apply Hno. set_solver. }
  split; [done|]. simpl. done.
Qed.

Lemma approved_lgtm_seen commands :
  let st := foldl apply_command
              {| approved := false; hold := false; lgtm_seen := false |}
              commands in
  approved st = true → lgtm_seen st = true.
Proof.
  induction commands as [|c commands IH] using rev_ind; simpl; [done|].
  rewrite foldl_app. simpl. simpl in IH.
  destruct c; simpl; try done. by destruct (lgtm_seen _).
Qed.

(** C4, as the code has it. [check_if_lgtm] is the approval state
    machine: without owners the result is (false, false) whatever the
    comments; otherwise the comments are taken in ascending order of
    creation time (a stable sort), the owners are normalised by removing
    every [@] they contain (for an owner whose only [@] is a leading one,
    this strips it), the comments of others are skipped, and the lines of
    the comments of owners are run through the grammar: [/lgtm] sets the
    flag and approves, [/lgtm cancel] clears the flag and the approval,
    [/hold] holds and clears the approval, [/hold cancel] releases the hold
    and leaves the merge request approved exactly when the flag is set;
    any other line changes nothing. With owner alice and her comments
    [/lgtm], [/hold], [/hold cancel], the result is (true, false). *)
Theorem check_if_lgtm_state_machine :
  (∀ comments,
     check_if_lgtm None comments = (false, false) ∧
     check_if_lgtm (Some []) comments = (false, false)) ∧
  (∀ owners comments,
     check_if_lgtm (Some owners) comments
       = evaluateApproval replace_at owners comments) ∧
  (∀ comments,
     sorted comments ≡ₚ comments ∧
     Sorted before (sorted comments) ∧
     ∀ key, filter (λ c, created_at c = key) (sorted comments)
            = filter (λ c, created_at c = key) comments) ∧
  (∀ u,
     list_ascii_of_string (replace_at u)
       = filter (λ c, c ≠ "@"%char) (list_ascii_of_string u)) ∧
  (∀ u,
     (∀ c, c ∈ list_ascii_of_string u → c ≠ "@"%char) →
     replace_at u = u ∧
     replace_at (String "@" u) = strip_leading_at (String "@" u)) ∧
  (∀ approved hold lgtm_comment line,
     let st := (approved, hold, lgtm_comment) in
     check_line st "/lgtm" = (true, hold, true) ∧
     check_line st "/lgtm cancel" = (false, hold, false) ∧
     check_line st "/hold" = (false, true, lgtm_comment) ∧
     check_line st "/hold cancel"
       = (if lgtm_comment then true else approved, false, lgtm_comment) ∧
     (parse_command line = None → check_line st line = st) ∧
     state_of (check_line st line)
       = from_option (apply_command (state_of st)) (state_of st)
                     (parse_command line)) ∧
  (∀ commands,
     let st := foldl apply_command
                 {| approved := false; hold := false; lgtm_seen := false |}
                 commands in
     (approved st = true → lgtm_seen st = true) ∧
     approved (apply_command st HoldCancel) = lgtm_seen st ∧
     hold (apply_command st HoldCancel) = false) ∧
  check_if_lgtm (Some ["alice"]) example_comments = (true, false).
Proof.
  split_and!.
  - done.
  - apply check_if_lgtm_evaluateApproval.
  - apply sorted_spec.
  - apply replace_at_filter.
  - apply replace_at_leading.
  - intros a h l line st. split_and!; try done.
    + intros Hp. subst st. unfold parse_command in Hp. unfold check_line.
      repeat case_bool_decide; simplify_eq; done.
    + apply check_line_command.
  - intros commands st. pose proof (approved_lgtm_seen commands) as Hinv.
    fold st in Hinv. simpl in Hinv. split_and!; [done| |done].
    simpl. destruct (lgtm_seen st) eqn:Hl; [done|].
    destruct (approved st); [by specialize (Hinv eq_refl)|done].
  - by vm_compute.
Qed.

End approval_facts.

Section approval_examples.
Import SaasFileOwners.

(** C4, as the claim states it, fails: only a leading [@] stripped,
    "alice" is not among the approvers of an owner list ["al@ice"], and
    her comment would be skipped; the code removes every [@] and
    approves. *)
Lemma check_if_lgtm_removes_every_at :
  let comments := [{| username := "alice"; body := "/lgtm";
                      created_at := "2021-03-01T10:00:00Z" |}] in
  "alice" ∉ strip_leading_at <$> ["al@ice"] ∧
  evaluateApproval strip_leading_at ["al@ice"] comments = (false, false) ∧
  check_if_lgtm (Some ["al@ice"]) comments = (true, false).
Proof.
  split_and!; [|by vm_compute|by vm_compute].
  intros Hin. apply list_elem_of_singleton in Hin. discriminate Hin.
Qed.

Lemma check_if_lgtm_state_machine_witness :
  replace_at "@alice" = "alice".
Proof.
  destruct check_if_lgtm_state_machine as (_ & _ & _ & _ & Hlead & _).
  destruct (Hlead "alice") as [_ Hstrip]; [|exact Hstrip].
  intros c Hc. vm_compute in Hc.
  repeat (apply elem_of_cons in Hc as [->|Hc]; [discriminate|]).
  by apply elem_of_nil in Hc.
Defined.

End approval_examples.

Section ocm_groups_facts.
Import OcmGroups.
Context `{Collaborators}.

Lemma act_on_calls dry_run diffs d :
  call_act d ∈ act_on dry_run diffs →
  dry_run = false ∧ d ∈ diffs ∧
  action d ≠ "create_group" ∧ action d ≠ "delete_group".
Proof.
  induction diffs as [|d' diffs IH]; simpl.
  - intros Hin. by apply elem_of_nil in Hin.
  - case_bool_decide as Ha.
    + intros Hin. destruct (IH Hin) as (? & ? & ? & ?).
      split_and!; try done. set_solver.
    + intros Hin. apply elem_of_cons in Hin as [?|Hin]; [done|].
      apply elem_of_app in Hin as [Hin|Hin].
      * destruct dry_run; simpl in Hin; [by apply elem_of_nil in Hin|].
        apply elem_of_cons in Hin as [Heq|Hin].
        -- injection Heq as ->. split_and!; [done|set_solver| |];
             intros Hact; apply Ha; rewrite Hact; set_solver.
        -- unfold act in Hin. repeat case_bool_decide; set_solver.
      * destruct (IH Hin) as (? & ? & ? & ?). split_and!; try done. set_solver.
Qed.

(** C9. [run] never invokes [act] on a diff whose action is
    [create_group] or [delete_group]; and, the groups of the diffs that
    [calculate_diff] returns being groups of the states it is given, never
    on a diff of another group than [dedicated-admins]. Of the diffs
    [create_group], [add_user_to_group], [delete_group], only
    [add_user_to_group] is acted upon. *)
Theorem act_only_on_dedicated_admins_membership
    (dry_run : bool) (thread_pool_size : nat) :
  (∀ d, call_act d ∈ (run dry_run thread_pool_size).2 →
        action d ≠ "create_group" ∧ action d ≠ "delete_group") ∧
  ((∀ current_state desired_state d,
      d ∈ calculate_diff current_state desired_state →
      ∃ s, s ∈ current_state ++ desired_state ∧ group s = diff_group d) →
   ∀ d, call_act d ∈ (run dry_run thread_pool_size).2 →
        diff_group d = "dedicated-admins") ∧
  (∀ d_create d_add d_delete,
     action d_create = "create_group" →
     action d_add = "add_user_to_group" →
     action d_delete = "delete_group" →
     act_on false [d_create; d_add; d_delete]
       = [logging_info (diff_values d_add);
          call_act d_add;
          add_user_to_group (diff_cluster d_add) (diff_group d_add)
                            (diff_user d_add)]).
Proof.
  split_and!.
  - intros d. unfold run. destruct (validate_diffs _); simpl.
    + intros Hin. by apply elem_of_nil in Hin.
    + intros Hin. apply act_on_calls in Hin. naive_solver.
  - intros Hgroups d. unfold run. destruct (validate_diffs _); simpl.
    + intros Hin. by apply elem_of_nil in Hin.
    + intros Hin. apply act_on_calls in Hin as (_ & Hd & _).
      apply Hgroups in Hd as (s & Hs & <-).
      apply elem_of_app in Hs as [Hs|Hs];
        apply list_elem_of_filter in Hs as [Hs _]; done.
  - intros dc da dd Hc Ha Hd. simpl. unfold act. rewrite Hc, Ha, Hd. done.
Qed.

End ocm_groups_facts.

Section ocm_groups_examples.
Import OcmGroups.

Lemma membership_diff_groups current_state desired_state d :
  d ∈ membership_diff current_state desired_state →
  ∃ s, s ∈ current_state ++ desired_state ∧ group s = diff_group d.
Proof.
  unfold membership_diff. intros Hd.
  apply elem_of_app in Hd as [Hd|Hd];
    apply list_elem_of_fmap in Hd as (s & -> & Hs);
    apply list_elem_of_filter in Hs as [_ Hs];
    exists s; (split; [set_solver|done]).
Qed.

Lemma act_only_on_dedicated_admins_membership_witness :
  let d := {| action := "add_user_to_group"; diff_cluster := "appsre01";
              diff_group := "dedicated-admins"; diff_user := "alice" |} in
  call_act d ∈ (run (H:=example_collaborators) false 10).2 ∧
  diff_group d = "dedicated-admins".
Proof.
  intros d.
  assert (call_act d ∈ (run (H:=example_collaborators) false 10).2) as Hcall.
  { vm_compute. apply list_elem_of_further, list_elem_of_here. }
  split; [exact Hcall|].
  apply (proj1 (proj2 (act_only_on_dedicated_admins_membership
                         (H:=example_collaborators) false 10)));
    [|exact Hcall].
  intros cur des d'. apply membership_diff_groups.
Defined.

End ocm_groups_examples.

Section store_facts.
Import SaasFileOwners.


Lemma bind_unfold {S A B} (m : stateful S A) (k : A → stateful S B) σ :
  (m ≫= k) σ = match m σ with
               | (Ok a, σ') => k a σ'
               | (Raise e, σ') => (Raise e, σ')
               end.
Proof. reflexivity. Qed.

Lemma closed_from_app n σ o :
  closed_from n σ → Forall (λ r, n ≤ r) (refs_of o) → closed_from n (σ ++ [o]).
Proof.
  intros Hc Ho l o' Hl Hlook. apply lookup_app_Some in Hlook as [Hlook|[_ Hlook]].
  - by apply (Hc l).
  - apply list_lookup_singleton_Some in Hlook as [_ <-]. done.
Qed.

Lemma closed_from_insert n σ c o o' :
  closed_from n σ → σ !! c = Some o →
  (Forall (λ r, n ≤ r) (refs_of o) → Forall (λ r, n ≤ r) (refs_of o')) →
  closed_from n (<[c := o']> σ).
Proof.
  intros Hc Hco Ho l o'' Hl Hlook.
  apply list_lookup_insert_Some in Hlook as [(<- & <- & _)|[_ Hlook]].
  - apply Ho. by apply (Hc c).
  - by apply (Hc l).
Qed.

Lemma alloc_copies n o x s :
  copies_from n s → Forall (λ r, n ≤ r) (refs_of o) →
  ∃ y s', alloc o x s = (Ok y, s') ∧ n ≤ y ∧
          take n s'.1 = take n s.1 ∧ copies_from n s'.
Proof.
  destruct s as [σ memo]. intros (Hn & Hc & Hm) Ho. simpl in *.
  eexists _, _. split; [reflexivity|]. simpl.
  split; [done|]. split; [by rewrite take_app_le|]. unfold copies_from. simpl.
  split_and!.
  - rewrite length_app. lia.
  - by apply closed_from_app.
  - intros x' y Hxy. apply lookup_insert_Some in Hxy as [[_ <-]|[_ Hxy]]; [done|].
    by apply (Hm x').
Qed.

Lemma copy_items_copies n copy items s :
  copy_ok n copy → copies_from n s →
  take n (copy_items copy items s).2.1 = take n s.1 ∧
  copies_from n (copy_items copy items s).2 ∧
  ∀ ys, (copy_items copy items s).1 = Ok ys → Forall (λ y, n ≤ y) ys.
Proof.
  intros Hcopy. revert s. induction items as [|x items IH]; intros s Hs; simpl.
  - split_and!; [done|done|]. intros ys [= <-]. constructor.
  - rewrite bind_unfold. destruct (Hcopy x s Hs) as (Ht & Hs' & Hy).
    destruct (copy x s) as [[y|e] s']; simpl in *; [|done].
    rewrite bind_unfold. destruct (IH s' Hs') as (Ht' & Hs'' & Hys).
    destruct (copy_items copy items s') as [[ys|e] s'']; simpl in *.
    + split_and!; [congruence|done|]. intros ? [= <-]. constructor; auto.
    + split_and!; [congruence|done|done].
Qed.

Lemma deepcopy_copies n fuel : copy_ok n (deepcopy fuel).
Proof.
  induction fuel as [|fuel IH]; intros x s Hs; simpl; [done|].
  destruct (s.2 !! x) as [y|] eqn:Hmemo; simpl.
  { split_and!; [done|done|]. intros ? [= <-]. destruct Hs as (_ & _ & Hm). eauto. }
  destruct (s.1 !! x) as [[items|e|d|p]|] eqn:Hx; simpl; [| | | |done].
  - rewrite bind_unfold.
    destruct (copy_items_copies n (deepcopy fuel) items s IH Hs) as (Ht & Hs' & Hys).
    destruct (copy_items (deepcopy fuel) items s) as [[ys|err] s']; simpl in *; [|done].
    destruct (alloc_copies n (ListObj ys) x s' Hs') as (y & s'' & -> & Hy & Ht' & Hs'');
      [by apply Hys|].
    simpl. split_and!; [congruence|done|]. by intros ? [= <-].
  - rewrite bind_unfold.
    assert (∃ r s', (match d_parameters e with
              | Some lp => lp' ← deepcopy fuel lp; mret (Some lp')
              | None => mret None
              end) s = (r, s') ∧ take n s'.1 = take n s.1 ∧ copies_from n s' ∧
              ∀ p, r = Ok p → Forall (λ r, n ≤ r) (from_option (λ lp, [lp]) [] p))
      as (r & s' & -> & Ht & Hs' & Hp).
    { destruct (d_parameters e) as [lp|].
      - rewrite bind_unfold. destruct (IH lp s Hs) as (Ht & Hs' & Hy).
        destruct (deepcopy fuel lp s) as [[y|err] s']; simpl in *.
        + eexists _, _. split; [reflexivity|]. split_and!; [done|done|].
          intros ? [= <-]. simpl. constructor; auto.
        + eexists _, _. split; [reflexivity|]. by split_and!.
      - eexists _, _. split; [reflexivity|]. split_and!; [done|done|].
        intros ? [= <-]. constructor. }
    destruct r as [p'|err]; simpl; [|done].
    rewrite bind_unfold. destruct (IH (d_saas_file_definitions e) s' Hs') as (Ht' & Hs'' & Hy).
    destruct (deepcopy fuel (d_saas_file_definitions e) s') as [[d'|err] s'']; simpl in *;
      [|split_and!; [congruence|done|done]].
    destruct (alloc_copies n (EntryObj (with_parts e p' d')) x s'' Hs'')
      as (y & s3 & -> & Hy3 & Ht3 & Hs3).
    { simpl. apply Forall_app. split; [by apply Hp|]. constructor; [auto|constructor]. }
    simpl. split_and!; [congruence|done|]. by intros ? [= <-].
  - destruct (alloc_copies n (DefinitionsObj d) x s Hs) as (y & s' & -> & Hy & Ht & Hs');
      [constructor|].
    simpl. split_and!; [done|done|]. by intros ? [= <-].
  - destruct (alloc_copies n (ParametersObj p) x s Hs) as (y & s' & -> & Hy & Ht & Hs');
      [constructor|].
    simpl. split_and!; [done|done|]. by intros ? [= <-].
Qed.

Lemma keeps_refl n σ : n ≤ length σ → closed_from n σ → keeps n σ σ.
Proof. by intros; split_and!. Qed.

Lemma keeps_trans n σ1 σ2 σ3 : keeps n σ1 σ2 → keeps n σ2 σ3 → keeps n σ1 σ3.
Proof. intros (? & ? & ?) (? & ? & ?). split_and!; [congruence|done|done]. Qed.

Lemma copy_deepcopy_keeps n x σ :
  n ≤ length σ → closed_from n σ →
  keeps n σ (copy_deepcopy x σ).2 ∧ ∀ y, (copy_deepcopy x σ).1 = Ok y → n ≤ y.
Proof.
  intros Hn Hc. unfold copy_deepcopy.
  destruct (deepcopy_copies n recursion_limit x (σ, ∅)) as (Ht & (Hn' & Hc' & _) & Hy).
  { split_and!; [done|done|]. intros ?? Hm. simpl in Hm. by rewrite lookup_empty in Hm. }
  destruct (deepcopy recursion_limit x (σ, ∅)) as [r [σ' memo]]. simpl in *.
  by split_and!.
Qed.

Lemma insert_keeps n σ c o o' :
  n ≤ c → n ≤ length σ → closed_from n σ → σ !! c = Some o →
  (Forall (λ r, n ≤ r) (refs_of o) → Forall (λ r, n ≤ r) (refs_of o')) →
  keeps n σ (<[c := o']> σ).
Proof.
  intros Hc Hn Hcl Ho Hrefs. split_and!.
  - by apply take_insert_ge.
  - by rewrite length_insert.
  - by eapply closed_from_insert.
Qed.

Lemma keeper_bind {A B} n (P : A → Prop) (m : stateful store A)
    (k : A → stateful store B) :
  keeper n m →
  (∀ σ a, n ≤ length σ → closed_from n σ → (m σ).1 = Ok a → P a) →
  (∀ a, P a → keeper n (k a)) →
  keeper n (m ≫= k).
Proof.
  intros Hm HP Hk σ Hn Hcl. rewrite bind_unfold.
  specialize (Hm σ Hn Hcl). specialize (HP σ).
  destruct (m σ) as [[a|e] σ']; simpl in *; [|done].
  eapply keeps_trans; [exact Hm|]. destruct Hm as (_ & Hn' & Hcl').
  apply Hk; [by apply HP|done|done].
Qed.

Lemma keeper_seq {A B} n (m : stateful store A) (k : stateful store B) :
  keeper n m → keeper n k → keeper n (m ≫= λ _, k).
Proof. intros Hm Hk. by apply (keeper_bind n (λ _, True)). Qed.

Lemma copy_deepcopy_keeper n x : keeper n (copy_deepcopy x).
Proof. intros σ Hn Hcl. by apply copy_deepcopy_keeps. Qed.

Lemma pop_ref_keeper n c : n ≤ c → keeper n (pop_ref c).
Proof.
  intros Hc σ Hn Hcl. unfold pop_ref.
  destruct (σ !! c) as [[items|e|d|p]|] eqn:Hlook; simpl; try by apply keeps_refl.
  destruct (d_ref e); simpl; [|by apply keeps_refl].
  by eapply insert_keeps.
Qed.

Lemma pop_parameters_keeper n c : n ≤ c → keeper n (pop_parameters c).
Proof.
  intros Hc σ Hn Hcl. unfold pop_parameters.
  destruct (σ !! c) as [[items|e|d|p]|] eqn:Hlook; simpl; try by apply keeps_refl.
  destruct (d_parameters e) eqn:Hp; simpl; [|by apply keeps_refl].
  eapply insert_keeps; try done. simpl. rewrite Hp. simpl.
  intros Hf. by apply Forall_cons in Hf as [_ Hf].
Qed.

Lemma pop_use_channel_in_image_tag_keeper n c :
  n ≤ c → keeper n (pop_use_channel_in_image_tag c).
Proof.
  intros Hc σ Hn Hcl. unfold pop_use_channel_in_image_tag.
  destruct (σ !! c) as [[items|e|d|p]|] eqn:Hlook; simpl; try by apply keeps_refl.
  assert (n ≤ d_saas_file_definitions e) as Hld.
  { pose proof (Hcl c _ Hc Hlook) as Hf. simpl in Hf.
    apply Forall_app in Hf as [_ Hf]. by apply Forall_cons in Hf as [? _]. }
  destruct (σ !! d_saas_file_definitions e) as [[items|e'|d|p]|] eqn:Hd; simpl;
    try by apply keeps_refl.
  destruct (d_use_channel_in_image_tag d); simpl; [|by apply keeps_refl].
  by eapply insert_keeps.
Qed.

Lemma pop_disable_keeper n c : n ≤ c → keeper n (pop_disable c).
Proof.
  intros Hc σ Hn Hcl. unfold pop_disable.
  destruct (σ !! c) as [[items|e|d|p]|] eqn:Hlook; simpl; try by apply keeps_refl.
  by eapply insert_keeps.
Qed.

Lemma pop_trivial_fields_keeper n c : n ≤ c → keeper n (pop_trivial_fields c).
Proof.
  intros Hc. unfold pop_trivial_fields.
  apply keeper_seq; [by apply pop_ref_keeper|].
  apply keeper_seq; [by apply pop_parameters_keeper|].
  apply keeper_seq; [by apply pop_use_channel_in_image_tag_keeper|].
  by apply pop_disable_keeper.
Qed.

Lemma for_each_keeper n body items :
  (∀ c, n ≤ c → keeper n (body c)) → Forall (λ c, n ≤ c) items →
  keeper n (for_each body items).
Proof.
  intros Hbody. induction 1 as [|c items Hc Hitems IH]; simpl.
  - intros σ Hn Hcl. by apply keeps_refl.
  - apply keeper_seq; [by apply Hbody|done].
Qed.

Lemma iterate_keeper n state body :
  (∀ c, n ≤ c → keeper n (body c)) → n ≤ state → keeper n (iterate state body).
Proof.
  intros Hbody Hs σ Hn Hcl. unfold iterate.
  destruct (σ !! state) as [[items|e|d|p]|] eqn:Hlook; simpl; try by apply keeps_refl.
  apply for_each_keeper; try done. by apply (Hcl state _ Hs Hlook).
Qed.

Lemma valid_diff_keeper n current_state desired_state :
  keeper n (valid_diff current_state desired_state).
Proof.
  unfold valid_diff.
  apply (keeper_bind n (λ y, n ≤ y)); [apply copy_deepcopy_keeper| |].
  { intros σ y Hn Hcl. by apply copy_deepcopy_keeps. }
  intros y1 Hy1.
  apply keeper_seq; [apply iterate_keeper; [apply pop_trivial_fields_keeper|done]|].
  apply (keeper_bind n (λ y, n ≤ y)); [apply copy_deepcopy_keeper| |].
  { intros σ y Hn Hcl. by apply copy_deepcopy_keeps. }
  intros y2 Hy2.
  apply keeper_seq; [apply iterate_keeper; [apply pop_trivial_fields_keeper|done]|].
  intros σ Hn Hcl. by apply keeps_refl.
Qed.

Lemma valid_diff_frame current_state desired_state σ l :
  l < length σ →
  (valid_diff current_state desired_state σ).2 !! l = σ !! l.
Proof.
  intros Hl.
  destruct (valid_diff_keeper (length σ) current_state desired_state σ)
    as (Ht & _ & _); [done| |].
  { intros l' o Hl' Hlook. apply lookup_lt_Some in Hlook. lia. }
  rewrite <-(lookup_take_lt _ (length σ)) by done. rewrite Ht.
  by rewrite lookup_take_lt.
Qed.


Lemma read_entry_extends σ σ' l v :
  extends σ σ' → read_entry σ l = Some v → read_entry σ' l = Some v.
Proof.
  intros Hext. unfold read_entry.
  destruct (σ !! l) as [[items|e|d|p]|] eqn:Hl; try done.
  rewrite (Hext _ _ Hl).
  destruct (d_parameters e) as [lp|]; simpl.
  - destruct (σ !! lp) as [[items|e'|d|p]|] eqn:Hlp; try done.
    rewrite (Hext _ _ Hlp). simpl.
    destruct (σ !! d_saas_file_definitions e) as [[items|e'|d|p']|] eqn:Hld; try done.
    by rewrite (Hext _ _ Hld).
  - destruct (σ !! d_saas_file_definitions e) as [[items|e'|d|p']|] eqn:Hld; try done.
    by rewrite (Hext _ _ Hld).
Qed.

Lemma read_state_extends σ σ' l vs :
  extends σ σ' → read_state σ l = Some vs → read_state σ' l = Some vs.
Proof.
  intros Hext. unfold read_state.
  destruct (σ !! l) as [[items|e|d|p]|] eqn:Hl; try done.
  rewrite (Hext _ _ Hl). rewrite !mapM_Some.
  intros HF. eapply Forall2_impl; [exact HF|].
  intros x y. by apply read_entry_extends.
Qed.

Lemma valid_diff_extends current_state desired_state σ :
  extends σ (valid_diff current_state desired_state σ).2.
Proof.
  intros l o Hl. rewrite valid_diff_frame; [done|]. by apply lookup_lt_Some in Hl.
Qed.

(** C10. [valid_diff] leaves its arguments as they are: whatever the two
    states and whatever the outcome, every object the store held before
    the call is the same after it (the keys are popped from deep copies,
    which are new objects), so every entry and every state reads as
    before, the dicts under ['parameters'] and ['saas_file_definitions']
    included. *)
Theorem valid_diff_leaves_states_unchanged
    (current_state desired_state : loc) (σ : store) :
  let σ' := (valid_diff current_state desired_state σ).2 in
  (∀ l, l < length σ → σ' !! l = σ !! l) ∧
  (∀ l v, read_entry σ l = Some v → read_entry σ' l = Some v) ∧
  (∀ l state, read_state σ l = Some state → read_state σ' l = Some state).
Proof.
  intros σ'. split_and!.
  - intros l Hl. by apply valid_diff_frame.
  - intros l v. apply read_entry_extends, valid_diff_extends.
  - intros l vs. apply read_state_extends, valid_diff_extends.
Qed.


End store_facts.

Section store_examples.
Import SaasFileOwners.

Lemma valid_diff_leaves_states_unchanged_witness :
  (valid_diff example_current_state example_desired_state example_store).1
    = Ok true ∧
  read_state
    (valid_diff example_current_state example_desired_state example_store).2
    example_current_state = Some (dict_of <$> [example_current]).
Proof.
  split; [by vm_compute|].
  apply (valid_diff_leaves_states_unchanged example_current_state
           example_desired_state example_store).
  by vm_compute.
Defined.

End store_examples.

(** * Part III: further properties of the code *)

Section setup_facts.
Import TriggerBase.
Context `{Collaborators}.

Lemma list_remove_app_notin (t : target) (l1 l2 : list target) :
  t ∉ l1 → list_remove t (l1 ++ t :: l2) = l1 ++ l2.
Proof.
  induction l1 as [|x l1 IH]; simpl; intros Hn.
  - by rewrite decide_True.
  - rewrite decide_False by set_solver. f_equal. apply IH. set_solver.
Qed.

Lemma remove_disabled_loop (done rest : list target) :
  foldl (λ ts target, if disable target then list_remove target ts else ts)
        (filter (λ t, disable t = false) done ++ rest) rest
  = filter (λ t, disable t = false) (done ++ rest).
Proof.
  revert done. induction rest as [|t rest IH]; intros done; simpl.
  - by rewrite !app_nil_r.
  - destruct (disable t) eqn:Ht.
    + rewrite list_remove_app_notin.
      * rewrite (IH done). rewrite !filter_app, filter_cons.
        rewrite decide_False by congruence. done.
      * intros Hin. apply list_elem_of_filter in Hin as [Hd _]. congruence.
    + replace (filter (λ t, disable t = false) done ++ t :: rest)
        with (filter (λ t, disable t = false) (done ++ [t]) ++ rest).
      * rewrite (IH (done ++ [t])). by rewrite <-app_assoc.
      * rewrite filter_app, filter_cons, decide_True by done.
        by rewrite <-app_assoc.
Qed.

Lemma remove_disabled_filter targets :
  remove_disabled targets = filter (λ t, disable t = false) targets.
Proof. apply (remove_disabled_loop [] targets). Qed.

(** X1. [setup] hands saasherder the saas files of the shard, in the
    order of the query, each with its resource templates and, of their
    targets, exactly those that are not disabled, in their order: the loop
    that removes targets from the list it runs over leaves no disabled
    target behind, also when a disabled target occurs more than once. *)
Theorem setup_hands_over_enabled_targets
    (tps : nat) (internal ujh : bool) (integ ver : string) (v1 v2 : bool)
    (w : world) (res : resources) :
  (setup tps internal ujh integ ver v1 v2 w).1 = Ok (Some res, false) →
  saasherder res =
    (λ sf, {| name := name sf;
              resourceTemplates :=
                (λ rt, {| rt_name := rt_name rt;
                          targets := filter (λ t, disable t = false) (targets rt) |})
                <$> resourceTemplates sf |})
    <$> filter (λ sf, is_in_shard (name sf) = true) (queries_get_saas_files v1 v2) ∧
  (∀ sf rt t, sf ∈ saasherder res → rt ∈ resourceTemplates sf →
              t ∈ targets rt → disable t = false) ∧
  (∀ sf, sf ∈ saasherder res → is_in_shard (name sf) = true).
Proof.
  unfold setup. case_bool_decide as Hq; [done|]. simpl. intros [= <-]. simpl.
  assert (Heq : ∀ l : list saas_file,
    (λ sf, {| name := name sf;
              resourceTemplates :=
                (λ rt, {| rt_name := rt_name rt;
                          targets := remove_disabled (targets rt) |})
                <$> resourceTemplates sf |}) <$> l
    = (λ sf, {| name := name sf;
                resourceTemplates :=
                  (λ rt, {| rt_name := rt_name rt;
                            targets := filter (λ t, disable t = false) (targets rt) |})
                  <$> resourceTemplates sf |}) <$> l).
  { intros l. apply list_fmap_ext. intros _ sf _. f_equal.
    apply list_fmap_ext. intros _ rt _. f_equal. apply remove_disabled_filter. }
  rewrite Heq. split_and!; [done| |].
  - intros sf rt t Hsf Hrt Ht.
    apply list_elem_of_fmap in Hsf as (sf0 & -> & _). simpl in Hrt.
    apply list_elem_of_fmap in Hrt as (rt0 & -> & _). simpl in Ht.
    by apply list_elem_of_filter in Ht as [? _].
  - intros sf Hsf. apply list_elem_of_fmap in Hsf as (sf0 & -> & Hsf0). simpl.
    by apply list_elem_of_filter in Hsf0 as [? _].
Qed.

End setup_facts.

Section setup_examples.
Import TriggerBase.

Lemma setup_hands_over_enabled_targets_witness :
  (setup (H:=example_sharded_collaborators) 10 true true
     "openshift-saas-deploy-trigger-configs" "0.1.0" true true
     example_world).1
  = Ok (Some {| saasherder :=
                  [{| name := "App";
                      resourceTemplates :=
                        [{| rt_name := "app";
                            targets := [{| target_namespace := "app-prod";
                                           target_ref := "abc";
                                           disable := false |}] |}] |}];
                jenkins_map := {[ "ci-int" := example_jenkins ]};
                settings_of := example_settings |}, false) ∧
  disable {| target_namespace := "app-prod"; target_ref := "abc";
             disable := false |} = false.
Proof.
  assert (Hsetup : (setup (H:=example_sharded_collaborators) 10 true true
            "openshift-saas-deploy-trigger-configs" "0.1.0" true true
            example_world).1
          = Ok (Some {| saasherder :=
                  [{| name := "App";
                      resourceTemplates :=
                        [{| rt_name := "app";
                            targets := [{| target_namespace := "app-prod";
                                           target_ref := "abc";
                                           disable := false |}] |}] |}];
                jenkins_map := {[ "ci-int" := example_jenkins ]};
                settings_of := example_settings |}, false))
    by (vm_compute; reflexivity).
  split; [exact Hsetup|].
  destruct (setup_hands_over_enabled_targets (H:=example_sharded_collaborators)
              _ _ _ _ _ _ _ _ _ Hsetup) as (_ & Hen & _).
  eapply Hen; apply list_elem_of_here.
Defined.

End setup_examples.

Section dispatch_facts.
Import TriggerBase.
Context `{Collaborators}.

(** What one spec dispatches, and what it does in a dry run. *)
Lemma trigger_dispatch spec dry jm st tt integ ver w :
  let r := trigger spec dry jm st tt integ ver w in
  already_triggered w ⊆ already_triggered r.2 ∧
  ∃ evs,
    trace r.2 = trace w ++ evs ∧
    (omap dispatched evs = [] ∨
     ∃ id, omap dispatched evs = [id] ∧
           id ∉ already_triggered w ∧ id ∈ already_triggered r.2) ∧
    (dry = true →
     Forall (λ ev, mutates ev = false) evs ∧ ∃ error, r.1 = Ok error).
Proof.
  intros r. destruct (pipelines_provider spec) as [inst|ns|p] eqn:Hp.
  - destruct (trigger_jenkins_cases spec inst dry jm st tt integ ver w Hp)
      as (_ & Hreg & Hcases). fold r in Hreg, Hcases.
    set (job := get_openshift_saas_deploy_job_name _ _ _) in *. clearbody job.
    split; [rewrite Hreg; set_solver|].
    destruct (decide (job ∈ already_triggered w)) as [Hin|Hin].
    { destruct Hcases as [Hr Htr]. eexists. split; [exact Htr|].
      destruct dry; simpl; (split; [by left|]); [|done].
      intros _. split; [constructor|by eexists]. }
    destruct dry.
    { destruct Hcases as [Hr Htr]. eexists. split; [exact Htr|].
      split; [by left|]. intros _. split; [by repeat constructor|by eexists]. }
    destruct (jm !! inst) as [j|].
    + destruct (trigger_job j job).
      * destruct Hcases as [Hr [msg Htr]]. eexists. split; [exact Htr|].
        split; [|done]. right. exists job. simpl.
        split_and!; [done|done|rewrite Hreg; set_solver].
      * destruct Hcases as [Hr Htr]. eexists. split; [exact Htr|].
        split; [|done]. right. exists job. simpl.
        split_and!; [done|done|rewrite Hreg; set_solver].
    + destruct Hcases as [Hr Htr]. eexists. split; [exact Htr|].
      split; [by left|done].
  - destruct (trigger_tekton_cases spec ns dry jm st tt integ ver w Hp)
      as (_ & Hreg & Hcases). fold r in Hreg, Hcases.
    set (id := lower _) in *.
    set (res := pipeline_run_resource _ _ _ _ _ _ _ _) in *.
    assert (resource_identity res = Some id) as Hid by reflexivity.
    change (kind (body res)) with "PipelineRun" in *.
    clearbody res id.
    split; [rewrite Hreg; set_solver|].
    destruct (decide (id ∈ already_triggered w)) as [Hin|Hin].
    { destruct Hcases as [Hr Htr]. eexists. split; [exact Htr|].
      destruct dry; simpl; (split; [by left|]); [|done].
      intros _. split; [constructor|by eexists]. }
    destruct (osb_create dry _ _ _ _).
    + destruct Hcases as [Hr [msg Htr]]. eexists. split; [exact Htr|].
      split.
      * right. exists id. simpl. rewrite Hid. simpl.
        split_and!; [done|done|rewrite Hreg; set_solver].
      * intros ->. split; [by repeat constructor|by eexists].
    + destruct Hcases as [Hr Htr]. eexists. split; [exact Htr|].
      split.
      * right. exists id. simpl. rewrite Hid.
        destruct dry; simpl; (split_and!; [done|done|rewrite Hreg; set_solver]).
      * intros ->. split; [by repeat constructor|by eexists].
  - destruct (trigger_unsupported_cases spec p dry jm st tt integ ver w Hp)
      as (_ & Hreg & Hr & Htr). fold r in Hreg, Hr, Htr.
    split; [by rewrite Hreg|].
    eexists. split; [exact Htr|]. split; [by left|].
    intros _. split; [by repeat constructor|by eexists].
Qed.

Lemma threaded_run_cons {A B} (f : A → M B) x rest w :
  threaded_run f (x :: rest) w =
    match f x w with
    | (Ok y, w1) =>
        match threaded_run f rest w1 with
        | (Ok ys, w2) => (Ok (y :: ys), w2)
        | (Raise e, w2) => (Raise e, w2)
        end
    | (Raise e, w1) => (Raise e, w1)
    end.
Proof. reflexivity. Qed.

Lemma threaded_run_dispatch dry jm st tt integ ver specs w :
  let r := threaded_run (λ spec, trigger spec dry jm st tt integ ver) specs w in
  already_triggered w ⊆ already_triggered r.2 ∧
  ∃ evs,
    trace r.2 = trace w ++ evs ∧
    NoDup (omap dispatched evs) ∧
    (∀ id, id ∈ omap dispatched evs →
           id ∉ already_triggered w ∧ id ∈ already_triggered r.2) ∧
    (dry = true →
     Forall (λ ev, mutates ev = false) evs ∧ ∃ errors, r.1 = Ok errors).
Proof.
  revert w. induction specs as [|spec specs IH]; intros w r.
  - split; [done|]. exists []. simpl. rewrite app_nil_r.
    split_and!; [done|constructor| |].
    + intros id Hid. by apply elem_of_nil in Hid.
    + intros _. split; [constructor|by eexists].
  - subst r. rewrite threaded_run_cons.
    destruct (trigger_dispatch spec dry jm st tt integ ver w)
      as (Hsub1 & evs1 & Htr1 & Hd1 & Hdry1).
    assert (Hone : NoDup (omap dispatched evs1) ∧
              ∀ id, id ∈ omap dispatched evs1 →
                id ∉ already_triggered w ∧
                id ∈ already_triggered (trigger spec dry jm st tt integ ver w).2).
    { destruct Hd1 as [->|(id & -> & Hn & Hin)].
      - split; [constructor|]. intros id Hid. by apply elem_of_nil in Hid.
      - split; [apply NoDup_singleton|]. intros id' Hid.
        apply list_elem_of_singleton in Hid. by subst id'. }
    clear Hd1. destruct Hone as [Hnd1 Hd1].
    destruct (trigger spec dry jm st tt integ ver w) as [[error|e] w1]; simpl in *.
    + destruct (IH w1) as (Hsub2 & evs2 & Htr2 & Hnd2 & Hd2 & Hdry2).
      assert (Hgoal : ∀ w2,
        already_triggered w1 ⊆ already_triggered w2 →
        trace w2 = trace w1 ++ evs2 →
        (∀ id, id ∈ omap dispatched evs2 →
               id ∉ already_triggered w1 ∧ id ∈ already_triggered w2) →
        already_triggered w ⊆ already_triggered w2 ∧
        trace w2 = trace w ++ evs1 ++ evs2 ∧
        NoDup (omap dispatched (evs1 ++ evs2)) ∧
        (∀ id, id ∈ omap dispatched (evs1 ++ evs2) →
               id ∉ already_triggered w ∧ id ∈ already_triggered w2)).
      { intros w2 Hsub Htr Hd. split_and!.
        - set_solver.
        - by rewrite Htr, Htr1, app_assoc.
        - rewrite omap_app. apply NoDup_app. split_and!; [done| |done].
          intros id Hid1 Hid2. destruct (Hd1 _ Hid1). by destruct (Hd _ Hid2).
        - intros id Hid. rewrite omap_app in Hid.
          apply elem_of_app in Hid as [Hid|Hid].
          + destruct (Hd1 _ Hid). split; [done|set_solver].
          + destruct (Hd _ Hid). split; [set_solver|done]. }
      destruct (threaded_run _ specs w1) as [[errors|e] w2]; simpl in *.
      * destruct (Hgoal w2 Hsub2 Htr2 Hd2) as (? & ? & ? & ?).
        split; [done|]. exists (evs1 ++ evs2). split_and!; try done.
        intros Hdry. destruct (Hdry1 Hdry) as [HF1 _].
        destruct (Hdry2 Hdry) as [HF2 _]. split; [by apply Forall_app|by eexists].
      * destruct (Hgoal w2 Hsub2 Htr2 Hd2) as (? & ? & ? & ?).
        split; [done|]. exists (evs1 ++ evs2). split_and!; try done.
        intros Hdry. destruct (Hdry2 Hdry) as [_ [? ?]]. done.
    + split; [done|]. exists evs1. split_and!; try done.
      intros Hdry. destruct (Hdry1 Hdry) as [_ [? ?]]. done.
Qed.

(** The trace of [run], by cases on what the query returns. *)
Lemma run_cases dry tt integ ver tps internal ujh v1 v2 w :
  let r := run dry tt integ ver tps internal ujh v1 v2 w in
  (r.1 = Ok true ∧ trace r.2 = trace w ++ [logging_error "no saas files found"]) ∨
  ∃ res specs diff_err,
    setup tps internal ujh integ ver v1 v2 w = (Ok (Some res, false), w) ∧
    saasherder_get_diff (saasherder res) tt dry = (specs, diff_err) ∧
    let w1 := {| already_triggered := ∅;
                 trace := trace w ++ [get_diff tt dry];
                 clock := clock w |} in
    let p := threaded_run
               (λ spec, trigger spec dry (jenkins_map res) (settings_of res)
                          tt integ ver) specs w1 in
    trace r.2 = trace p.2 ++ [oc_map_cleanup] ∧
    already_triggered r.2 = already_triggered p.2 ∧
    r.1 = match p.1 with
          | Ok errors => Ok (existsb id (errors ++ [diff_err]))
          | Raise e => Raise e
          end.
Proof.
  intros r.
  destruct (decide (queries_get_saas_files v1 v2 = [])) as [Hq|Hq].
  - left.
    assert (Hr : r = run dry tt integ ver tps internal ujh v1 v2 w) by done.
    clearbody r. unfold run in Hr. unfold mbind at 1, M_bind at 1 in Hr.
    rewrite setup_no_saas_files in Hr by done. by subst r.
  - right. destruct (setup_saas_files tps internal ujh integ ver v1 v2 w Hq)
      as [res Hsetup].
    destruct (saasherder_get_diff (saasherder res) tt dry) as [specs diff_err] eqn:Hdiff.
    exists res, specs, diff_err. split; [done|]. split; [done|].
    intros w1 p.
    assert (Hr : r = run dry tt integ ver tps internal ujh v1 v2 w) by done.
    clearbody r. unfold run in Hr. unfold mbind at 1, M_bind at 1 in Hr.
    rewrite Hsetup in Hr. simpl in Hr. unfold deferring in Hr.
    unfold mbind at 1, M_bind at 1 in Hr. simpl in Hr. rewrite Hdiff in Hr.
    unfold mbind at 1, M_bind at 1 in Hr. simpl in Hr.
    unfold mbind at 1, M_bind at 1 in Hr. fold w1 in Hr. fold p in Hr.
    destruct p as [[errors|e] w2]; simpl in *; by subst r.
Qed.

(** X2. In one pass no identity is dispatched twice: among the adapter
    calls ([jenkins.trigger_job], [osb.create]) that the triggering of a
    list of specs makes, one after the other, every job name or
    PipelineRun identity occurs at most once, each was absent from the
    registry before the pass and is in it afterwards; the same holds for
    the calls of a whole [run], whatever the query and the diff return. *)
Theorem run_dispatches_each_identity_once
    (dry : bool) (tt integ ver : string) (tps : nat)
    (internal ujh v1 v2 : bool) (w : world) :
  (∀ jm st specs,
     let p := threaded_run (λ spec, trigger spec dry jm st tt integ ver) specs w in
     ∃ evs, trace p.2 = trace w ++ evs ∧
            NoDup (omap dispatched evs) ∧
            ∀ id, id ∈ omap dispatched evs →
                  id ∉ already_triggered w ∧ id ∈ already_triggered p.2) ∧
  ∃ evs, trace (run dry tt integ ver tps internal ujh v1 v2 w).2 = trace w ++ evs ∧
         NoDup (omap dispatched evs).
Proof.
  split.
  - intros jm st specs p.
    destruct (threaded_run_dispatch dry jm st tt integ ver specs w)
      as (_ & evs & Htr & Hnd & Hd & _).
    exists evs. done.
  - destruct (run_cases dry tt integ ver tps internal ujh v1 v2 w)
      as [[_ Htr]|(res & specs & diff_err & _ & _ & Htr & _)].
    + eexists. split; [exact Htr|]. constructor.
    + simpl in Htr.
      destruct (threaded_run_dispatch dry (jenkins_map res) (settings_of res)
                  tt integ ver specs
                  {| already_triggered := ∅;
                     trace := trace w ++ [get_diff tt dry];
                     clock := clock w |})
        as (_ & evs & Htr' & Hnd & _). simpl in Htr'.
      exists ([get_diff tt dry] ++ evs ++ [oc_map_cleanup]). split.
      * rewrite Htr, Htr'. by rewrite <-!app_assoc.
      * rewrite !omap_app. simpl. by rewrite app_nil_r.
Qed.

(** X3. A dry run changes nothing outside the process: [run] with
    [dry_run] set triggers no Jenkins job, updates no state and creates
    resources only with the dry-run flag passed on; and the triggering
    code raises nothing in it, the lookup of the Jenkins instance, the one
    place where it can, being skipped. *)
Theorem dry_run_mutates_nothing
    (tt integ ver : string) (tps : nat) (internal ujh v1 v2 : bool) (w : world) :
  let r := run true tt integ ver tps internal ujh v1 v2 w in
  (∃ error, r.1 = Ok error) ∧
  ∃ evs, trace r.2 = trace w ++ evs ∧ Forall (λ ev, mutates ev = false) evs.
Proof.
  intros r.
  destruct (run_cases true tt integ ver tps internal ujh v1 v2 w)
    as [[Hr Htr]|(res & specs & diff_err & _ & _ & Htr & _ & Hr)].
  - fold r in Hr, Htr. split; [by eexists|].
    eexists. split; [exact Htr|]. by repeat constructor.
  - fold r in Hr, Htr. simpl in Htr, Hr.
    destruct (threaded_run_dispatch true (jenkins_map res) (settings_of res)
                tt integ ver specs
                {| already_triggered := ∅;
                   trace := trace w ++ [get_diff tt true];
                   clock := clock w |})
      as (_ & evs & Htr' & _ & _ & Hdry). simpl in Htr'.
    destruct (Hdry eq_refl) as [HF [errors Herrors]].
    split.
    + rewrite Hr, Herrors. by eexists.
    + exists ([get_diff tt true] ++ evs ++ [oc_map_cleanup]). split.
      * rewrite Htr, Htr'. by rewrite <-!app_assoc.
      * apply Forall_app. split; [by repeat constructor|].
        apply Forall_app. split; [done|by repeat constructor].
Qed.

(** X4. An identity is registered before its dispatch is attempted,
    and never retried in the same registry: once a spec has been handed to
    [trigger], whatever came of it, a later spec with the same identity is
    not dispatched, is no error, and has its state updated.  This includes
    the case where the first attempt fails on a Jenkins instance that is
    not in the map: that lookup raises [KeyError] after the job has been
    registered and logged, with no state update for the first spec. *)
Theorem registered_identity_is_never_retried
    (spec1 spec2 : trigger_spec) (id : string)
    (jm : gmap string jenkins_api) (st : settings) (tt integ ver : string)
    (w : world) :
  trigger_identity st spec1 = Some id →
  trigger_identity st spec2 = Some id →
  let r1 := trigger spec1 false jm st tt integ ver w in
  let r2 := trigger spec2 false jm st tt integ ver r1.2 in
  id ∈ already_triggered r1.2 ∧
  r2.1 = Ok false ∧
  trace r2.2 = trace r1.2 ++ [update_state tt spec2] ∧
  (∀ inst, pipelines_provider spec1 = Jenkins inst → jm !! inst = None →
           id ∉ already_triggered w →
           r1.1 = Raise (KeyError inst) ∧
           trace r1.2 = trace w ++ [logging_info ["trigger_job"; inst; id]]).
Proof.
  intros Hid1 Hid2 r1 r2.
  destruct (trigger_step spec1 false jm st tt integ ver w)
    as (_ & Hreg1 & _). fold r1 in Hreg1.
  assert (id ∈ already_triggered r1.2) as Hin.
  { rewrite Hreg1. unfold registered. rewrite Hid1. simpl. set_solver. }
  destruct (trigger_step spec2 false jm st tt integ ver r1.2)
    as (_ & _ & evs & Htr & _ & _ & Hdup & _). fold r2 in Htr, Hdup.
  destruct (Hdup id Hid2 Hin) as [Hr2 Hevs]. subst evs.
  split_and!; [done|done|done|].
  intros inst Hp Hj Hfresh.
  destruct (trigger_jenkins_cases spec1 inst false jm st tt integ ver w Hp)
    as (_ & _ & Hcases). fold r1 in Hcases.
  unfold trigger_identity in Hid1. rewrite Hp in Hid1. injection Hid1 as Hid1.
  rewrite Hid1 in Hcases. rewrite decide_False in Hcases by done.
  by rewrite Hj in Hcases.
Qed.

Lemma length_string_app s1 s2 :
  String.length (s1 ++ s2)%string = String.length s1 + String.length s2.
Proof. induction s1 as [|c s1 IH]; simpl; [done|]. by rewrite IH. Qed.

Lemma length_substring_0 n s :
  String.length (substring 0 n s) = n `min` String.length s.
Proof.
  revert s. induction n as [|n IH]; intros [|c s]; simpl; try done.
  by rewrite IH.
Qed.

Lemma substring_0_all n s : String.length s ≤ n → substring 0 n s = s.
Proof.
  revert s. induction n as [|n IH]; intros [|c s]; simpl; try done; try lia.
  intros Hl. rewrite IH by lia. done.
Qed.

(** X5. The PipelineRun built by [_construct_tekton_trigger_resource]
    is named by the first [UNIQUE_SAAS_FILE_ENV_COMBO_LEN] characters of
    the lowercased [<saas file>-<env>], a dash and the timestamp: its
    length is the shorter of the two lengths plus one plus the length of
    the timestamp; a long name that fits is kept whole; and with at most 50
    characters kept and the 12 of the timestamp format the name has at
    most 63 characters.  The same name is the resource's error details,
    and the untruncated name is returned beside the resource. *)
Theorem tekton_resource_name_length
    (saas env url ns : string) (st : settings) (integ ver : string) (w : world) :
  let long_name := lower (saas ++ "-" ++ env)%string in
  let ts := utcnow_strftime (clock w) in
  ∃ resource w',
    _construct_tekton_trigger_resource saas env url ns st integ ver w
      = (Ok (resource, long_name), w') ∧
    clock w' = S (clock w) ∧
    error_details resource = metadata_name (body resource) ∧
    String.length (metadata_name (body resource))
      = (UNIQUE_SAAS_FILE_ENV_COMBO_LEN `min` String.length long_name)
        + 1 + String.length ts ∧
    (String.length long_name ≤ UNIQUE_SAAS_FILE_ENV_COMBO_LEN →
     metadata_name (body resource) = (long_name ++ "-" ++ ts)%string) ∧
    (UNIQUE_SAAS_FILE_ENV_COMBO_LEN ≤ 50 → String.length ts = 12 →
     String.length (metadata_name (body resource)) ≤ 63).
Proof.
  intros long_name ts. rewrite construct_tekton_trigger_resource_eq.
  eexists _, _. split; [reflexivity|]. simpl. fold long_name. fold ts.
  assert (String.length (substring 0 UNIQUE_SAAS_FILE_ENV_COMBO_LEN long_name
                           ++ "-" ++ ts)%string
          = (UNIQUE_SAAS_FILE_ENV_COMBO_LEN `min` String.length long_name)
            + 1 + String.length ts) as Hname.
  { rewrite !length_string_app, length_substring_0. simpl. lia. }
  split_and!; [done|done|done| |].
  - intros Hle. by rewrite substring_0_all.
  - intros Hlen Hts. rewrite Hname, Hts. lia.
Qed.

End dispatch_facts.

Section dispatch_examples.
Import TriggerBase.

Lemma registered_identity_is_never_retried_witness :
  let r1 := trigger (H:=example_collaborators) example_jenkins_spec false ∅
              example_settings "configs" "openshift-saas-deploy-trigger-configs"
              "0.1.0" example_world in
  let r2 := trigger (H:=example_collaborators) example_jenkins_spec false ∅
              example_settings "configs" "openshift-saas-deploy-trigger-configs"
              "0.1.0" r1.2 in
  r1.1 = Raise (KeyError "ci-int") ∧ r2.1 = Ok false ∧
  trace r2.2 = trace r1.2 ++ [update_state "configs" example_jenkins_spec].
Proof.
  intros r1 r2.
  destruct (registered_identity_is_never_retried (H:=example_collaborators)
              example_jenkins_spec example_jenkins_spec _ ∅ example_settings
              "configs" "openshift-saas-deploy-trigger-configs" "0.1.0"
              example_world eq_refl eq_refl) as (_ & Hr2 & Htr & Hunknown).
  destruct (Hunknown "ci-int" eq_refl eq_refl) as [Hr1 _].
  { vm_compute. set_solver. }
  split_and!; [exact Hr1|exact Hr2|exact Htr].
Defined.

Lemma tekton_resource_name_length_witness :
  ∃ resource w',
    _construct_tekton_trigger_resource (H:=example_collaborators)
      "App" "prod" "https://console.example.com" "app-pipelines"
      example_settings "openshift-saas-deploy-trigger-configs" "0.1.0"
      example_world = (Ok (resource, "app-prod"), w') ∧
    String.length (metadata_name (body resource)) ≤ 63.
Proof.
  destruct (tekton_resource_name_length (H:=example_collaborators)
              "App" "prod" "https://console.example.com" "app-pipelines"
              example_settings "openshift-saas-deploy-trigger-configs" "0.1.0"
              example_world) as (resource & w' & Heq & _ & _ & _ & _ & Hbound).
  exists resource, w'. split; [exact Heq|].
  apply Hbound; [simpl; lia|reflexivity].
Defined.

End dispatch_examples.

Section ocm_groups_run_facts.
Import OcmGroups.
Context `{Collaborators}.

Lemma act_on_adapter_calls diffs :
  filter (λ ev, is_adapter_call ev = true) (act_on false diffs)
  = omap adapter_call_of diffs.
Proof.
  induction diffs as [|d diffs IH]; [done|]. simpl.
  unfold adapter_call_of at 1. unfold act.
  case_bool_decide as Hskip.
  - rewrite IH.
    rewrite !bool_decide_eq_false_2; [done| |];
      intros Ha; rewrite Ha in Hskip;
      apply elem_of_cons in Hskip as [?|Hskip]; try done;
      by apply list_elem_of_singleton in Hskip.
  - rewrite filter_cons, decide_False by done. simpl.
    rewrite filter_cons, decide_False by done.
    rewrite filter_app, IH.
    repeat case_bool_decide; simpl; try done;
      by rewrite filter_cons, decide_True by done.
Qed.

Lemma act_on_dry_run diffs :
  filter (λ ev, is_logging ev = true) (act_on false diffs) = act_on true diffs.
Proof.
  induction diffs as [|d diffs IH]; [done|]. simpl.
  case_bool_decide as Hskip; [done|].
  rewrite filter_cons, decide_True by done. f_equal.
  rewrite filter_cons, decide_False by done.
  rewrite filter_app, IH. unfold act.
  repeat case_bool_decide; simpl; try done;
    by rewrite filter_cons, decide_False by done.
Qed.

Lemma act_on_dry_run_logging diffs :
  Forall (λ ev, is_logging ev = true) (act_on true diffs).
Proof.
  induction diffs as [|d diffs IH]; simpl; [constructor|].
  case_bool_decide; [done|]. by constructor.
Qed.

(** X6. The calls [run] makes to OCM are those the membership diffs
    stand for, one per diff and in the order of the diffs: outside a dry
    run, the [add_user_to_group] and [del_user_from_group] calls are
    exactly those of the diffs with these actions, a diff of any other
    action giving no call.  A dry run makes no call at all and logs exactly
    the lines of the real run.  When [validate_diffs] raises, [run] raises
    before it logs or calls anything. *)
Theorem run_calls_adapter_for_membership_diffs
    (dry_run : bool) (thread_pool_size : nat) :
  let diffs :=
    calculate_diff
      (filter (λ s, group s = "dedicated-admins")
              (fetch_current_state thread_pool_size))
      (filter (λ s, group s = "dedicated-admins") fetch_desired_state) in
  (∀ details, validate_diffs diffs = Some details →
     run dry_run thread_pool_size = (Raise (Exception details), [])) ∧
  (validate_diffs diffs = None →
     (run dry_run thread_pool_size).1 = Ok tt ∧
     filter (λ ev, is_adapter_call ev = true) (run false thread_pool_size).2
       = omap adapter_call_of diffs ∧
     Forall (λ ev, is_logging ev = true) (run true thread_pool_size).2 ∧
     (run true thread_pool_size).2
       = filter (λ ev, is_logging ev = true) (run false thread_pool_size).2).
Proof.
  intros diffs. split.
  - intros details Hv. unfold run. fold diffs. by rewrite Hv.
  - intros Hv. unfold run. fold diffs. rewrite Hv. simpl.
    split_and!; [done| | |].
    + apply act_on_adapter_calls.
    + apply act_on_dry_run_logging.
    + by rewrite act_on_dry_run.
Qed.

(** X7. The current state holds one entry for each user of each group
    of the groups list that exists in OCM: a group that does not exist,
    and a group whose ['users'] is [None], contribute nothing, and nothing
    else is in the state. *)
Theorem fetch_current_state_members (thread_pool_size : nat) (s : membership) :
  s ∈ fetch_current_state thread_pool_size ↔
  (cluster s, group s) ∈ create_groups_list ∧
  ∃ users, get_group_if_exists (cluster s) (group s) = Some (Some users) ∧
           user s ∈ users.
Proof.
  unfold fetch_current_state. rewrite list_elem_of_In, in_concat. split.
  - intros (l & Hl & Hs). apply list_elem_of_In in Hl, Hs.
    apply list_elem_of_fmap in Hl as ([c g] & -> & Hcg).
    unfold get_cluster_state in Hs. simpl in Hs.
    destruct (get_group_if_exists c g) as [[users|]|] eqn:Hg; simpl in Hs;
      try by apply elem_of_nil in Hs.
    apply list_elem_of_fmap in Hs as (u & -> & Hu). simpl.
    split; [done|]. exists users. by rewrite Hg.
  - intros (Hcg & users & Hg & Hu).
    exists (get_cluster_state (cluster s, group s)).
    split; apply list_elem_of_In.
    + apply list_elem_of_fmap. by eexists.
    + unfold get_cluster_state. simpl. rewrite Hg. simpl.
      apply list_elem_of_fmap. exists (user s). split; [by destruct s|done].
Qed.

End ocm_groups_run_facts.

Section ocm_groups_run_examples.
Import OcmGroups.

Lemma run_calls_adapter_for_membership_diffs_witness :
  validate_diffs (Collaborators:=example_collaborators)
    (calculate_diff (Collaborators:=example_collaborators)
       (filter (λ s, group s = "dedicated-admins")
               (fetch_current_state (H:=example_collaborators) 10))
       (filter (λ s, group s = "dedicated-admins")
               (fetch_desired_state (Collaborators:=example_collaborators))))
    = None ∧
  filter (λ ev, is_adapter_call ev = true)
         (run (H:=example_collaborators) false 10).2
  = [add_user_to_group "appsre01" "dedicated-admins" "alice";
     del_user_from_group "appsre01" "dedicated-admins" "bob"].
Proof.
  split; [reflexivity|].
  destruct (run_calls_adapter_for_membership_diffs
              (H:=example_collaborators) false 10) as [_ Hrun].
  destruct (Hrun eq_refl) as (_ & Hcalls & _).
  rewrite Hcalls. vm_compute. reflexivity.
Defined.

Lemma fetch_current_state_members_witness :
  {| cluster := "appsre01"; group := "dedicated-admins"; user := "bob" |}
    ∈ fetch_current_state (H:=example_collaborators) 10.
Proof.
  apply (fetch_current_state_members (H:=example_collaborators)). simpl.
  split; [apply list_elem_of_here|].
  exists ["bob"]. split; [reflexivity|apply list_elem_of_here].
Defined.

End ocm_groups_run_examples.

Section valid_diff_facts.
Import SaasFileOwners.

(** What reading an entry tells about the store. *)
Lemma read_entry_Some σ x v :
  read_entry σ x = Some v →
  ∃ e d, σ !! x = Some (EntryObj e) ∧
         σ !! d_saas_file_definitions e = Some (DefinitionsObj d) ∧
         match d_parameters e with
         | Some lp => ∃ p, σ !! lp = Some (ParametersObj p) ∧
                           v = with_parts e (Some p) d
         | None => v = with_parts e None d
         end.
Proof.
  unfold read_entry. intros Hread.
  destruct (σ !! x) as [[items|e|d|p]|] eqn:Hx; try done.
  destruct (d_parameters e) as [lp|] eqn:Hp; simpl in Hread.
  - destruct (σ !! lp) as [[items|e'|d|p]|] eqn:Hlp; try done. simpl in Hread.
    destruct (σ !! d_saas_file_definitions e) as [[items|e'|d|p']|] eqn:Hld;
      try done.
    injection Hread as <-. exists e, d. rewrite Hp. split_and!; try done.
    by exists p.
  - destruct (σ !! d_saas_file_definitions e) as [[items|e'|d|p']|] eqn:Hld;
      try done.
    injection Hread as <-. exists e, d. rewrite Hp. by split_and!.
Qed.

Lemma read_entry_agree σ σ' x :
  (∀ z, z ∈ entry_footprint σ x → σ' !! z = σ !! z) →
  read_entry σ' x = read_entry σ x ∧ entry_footprint σ' x = entry_footprint σ x.
Proof.
  unfold read_entry, entry_footprint. intros Hagree.
  assert (σ' !! x = σ !! x) as Hx.
  { apply Hagree. destruct (σ !! x) as [[]|]; set_solver. }
  rewrite Hx. destruct (σ !! x) as [[items|e|d|p]|] eqn:Hlook; try done.
  assert (σ' !! d_saas_file_definitions e = σ !! d_saas_file_definitions e) as Hd.
  { apply Hagree. set_solver. }
  rewrite Hd. destruct (d_parameters e) as [lp|] eqn:Hp; [|done].
  assert (σ' !! lp = σ !! lp) as Hlp.
  { apply Hagree. simpl. set_solver. }
  by rewrite Hlp.
Qed.

Lemma entry_footprint_valid σ x v z :
  read_entry σ x = Some v → z ∈ entry_footprint σ x →
  ∃ o, σ !! z = Some o ∧ ∀ items, o ≠ ListObj items.
Proof.
  intros Hread Hz. apply read_entry_Some in Hread as (e & d & Hx & Hd & Hp).
  unfold entry_footprint in Hz. rewrite Hx in Hz.
  apply elem_of_cons in Hz as [->|Hz]; [by eexists|].
  apply elem_of_app in Hz as [Hz|Hz].
  - destruct (d_parameters e) as [lp|]; simpl in Hz;
      [|by apply elem_of_nil in Hz].
    apply list_elem_of_singleton in Hz as ->.
    destruct Hp as (p & Hlp & _). by eexists.
  - apply list_elem_of_singleton in Hz as ->. by eexists.
Qed.

Lemma with_parts_eq {P D} (e1 e2 : entry_dict loc loc)
    (p1 p2 : option P) (d1 d2 : D) :
  with_parts e1 p1 d1 = with_parts e2 p2 d2 ↔
  with_parts e1 (@None unit) tt = with_parts e2 (@None unit) tt ∧
  p1 = p2 ∧ d1 = d2.
Proof.
  unfold with_parts. split.
  - intros [= -> -> -> -> -> -> -> -> -> -> -> ->]. done.
  - intros ([= -> -> -> -> -> -> -> -> -> ->] & -> & ->). done.
Qed.

Lemma py_eq_unfold fuel σ x y :
  py_eq (S fuel) σ x y =
    match σ !! x, σ !! y with
    | Some (ParametersObj p1), Some (ParametersObj p2) =>
        Ok (bool_decide (p1 = p2))
    | Some (DefinitionsObj d1), Some (DefinitionsObj d2) =>
        Ok (bool_decide (d1 = d2))
    | Some (EntryObj e1), Some (EntryObj e2) =>
        if bool_decide (with_parts e1 (@None unit) tt
                        = with_parts e2 (@None unit) tt)
        then
          b ← match d_parameters e1, d_parameters e2 with
              | None, None => Ok true
              | Some p1, Some p2 => py_eq fuel σ p1 p2
              | _, _ => Ok false
              end;
          if b : bool
          then py_eq fuel σ (d_saas_file_definitions e1)
                            (d_saas_file_definitions e2)
          else Ok false
        else Ok false
    | Some (ListObj xs), Some (ListObj ys) =>
        if bool_decide (length xs = length ys)
        then all_eq (py_eq fuel σ) xs ys
        else Ok false
    | Some _, Some _ => Ok false
    | _, _ => Raise (TypeError "no such object")
    end.
Proof. reflexivity. Qed.

(** [==] on two entries compares their values. *)
Lemma py_eq_entry fuel σ x y v1 v2 :
  read_entry σ x = Some v1 → read_entry σ y = Some v2 →
  py_eq (S (S fuel)) σ x y = Ok (bool_decide (v1 = v2)).
Proof.
  intros H1 H2.
  apply read_entry_Some in H1 as (e1 & d1 & Hx & Hd1 & Hp1).
  apply read_entry_Some in H2 as (e2 & d2 & Hy & Hd2 & Hp2).
  rewrite py_eq_unfold, Hx, Hy.
  rewrite (py_eq_unfold fuel σ (d_saas_file_definitions e1)), Hd1, Hd2.
  assert (∃ p1 p2, v1 = with_parts e1 p1 d1 ∧ v2 = with_parts e2 p2 d2 ∧
            match d_parameters e1, d_parameters e2 with
            | None, None => Ok true
            | Some p1, Some p2 => py_eq (S fuel) σ p1 p2
            | _, _ => Ok false
            end = Ok (bool_decide (p1 = p2))) as (p1 & p2 & -> & -> & ->).
  { destruct (d_parameters e1) as [lp1|], (d_parameters e2) as [lp2|].
    - destruct Hp1 as (p1 & Hl1 & ->), Hp2 as (p2 & Hl2 & ->).
      exists (Some p1), (Some p2). rewrite py_eq_unfold, Hl1, Hl2.
      split_and!; [done|done|].
      f_equal. apply bool_decide_ext. naive_solver.
    - destruct Hp1 as (p1 & Hl1 & ->). by exists (Some p1), None.
    - destruct Hp2 as (p2 & Hl2 & ->). by exists None, (Some p2).
    - by exists None, None. }
  clear Hp1 Hp2. simpl.
  rewrite (bool_decide_ext _ _ (with_parts_eq e1 e2 p1 p2 d1 d2)).
  repeat case_bool_decide; try done; exfalso; tauto.
Qed.

Lemma all_eq_entries fuel σ xs ys vs1 vs2 :
  Forall2 (λ x v, read_entry σ x = Some v) xs vs1 →
  Forall2 (λ x v, read_entry σ x = Some v) ys vs2 →
  all_eq (py_eq (S (S fuel)) σ) xs ys = Ok (bool_decide (vs1 = vs2)).
Proof.
  intros H1. revert ys vs2.
  induction H1 as [|x v1 xs vs1 Hx H1 IH]; intros ys vs2 H2;
    destruct H2 as [|y v2 ys vs2 Hy H2]; try done.
  cbn [all_eq]. rewrite (py_eq_entry fuel σ x y v1 v2) by done.
  unfold mbind, outcome_bind. cbv beta iota.
  case_bool_decide as Hv.
  - rewrite (IH _ _ H2). subst v2.
    repeat case_bool_decide; simplify_eq; done.
  - rewrite bool_decide_eq_false_2; [done|]. intros Heq. simplify_eq.
Qed.

(** [==] on two states compares their values. *)
Lemma py_eq_state fuel σ x y vs1 vs2 :
  read_state σ x = Some vs1 → read_state σ y = Some vs2 →
  py_eq (S (S (S fuel))) σ x y = Ok (bool_decide (vs1 = vs2)).
Proof.
  unfold read_state. intros H1 H2.
  destruct (σ !! x) as [[xs|e|d|p]|] eqn:Hx; try done.
  destruct (σ !! y) as [[ys|e|d|p]|] eqn:Hy; try done.
  apply mapM_Some in H1, H2.
  rewrite py_eq_unfold, Hx, Hy.
  case_bool_decide as Hlen.
  - by apply all_eq_entries.
  - rewrite bool_decide_eq_false_2; [done|]. intros ->. apply Hlen.
    apply Forall2_length in H1, H2. congruence.
Qed.

(** *** A state put in the store *)

Lemma extends_app σ objs : extends σ (σ ++ objs).
Proof. intros l o Hl. by apply lookup_app_l_Some. Qed.

Lemma extends_trans σ1 σ2 σ3 : extends σ1 σ2 → extends σ2 σ3 → extends σ1 σ3.
Proof. intros H12 H23 l o Hl. by apply H23, H12. Qed.

Lemma lookup_app_3 (σ : store) a b c :
  (σ ++ [a; b; c]) !! length σ = Some a ∧
  (σ ++ [a; b; c]) !! S (length σ) = Some b ∧
  (σ ++ [a; b; c]) !! S (S (length σ)) = Some c.
Proof.
  split_and!; rewrite lookup_app_r by lia.
  - by replace (length σ - length σ) with 0 by lia.
  - by replace (S (length σ) - length σ) with 1 by lia.
  - by replace (S (S (length σ)) - length σ) with 2 by lia.
Qed.

Lemma entry_footprint_extends σ σ' x v :
  extends σ σ' → read_entry σ x = Some v →
  entry_footprint σ' x = entry_footprint σ x.
Proof.
  intros Hext Hread. apply read_entry_agree. intros z Hz.
  destruct (entry_footprint_valid σ x v z Hread Hz) as (o & Ho & _).
  by rewrite Ho, (Hext _ _ Ho).
Qed.

Lemma bind_footprint_ext (f g : nat → list nat) items :
  Forall (λ x, f x = g x) items → items ≫= f = items ≫= g.
Proof.
  induction 1 as [|x items Hx _ IH]; [done|].
  by rewrite !bind_cons, Hx, IH.
Qed.

Lemma footprints_extend σ σ' items (state : list state_entry) (f : state_entry → entry_value) :
  extends σ σ' →
  Forall2 (λ x s, read_entry σ x = Some (f s)) items state →
  Forall2 (λ x s, read_entry σ' x = Some (f s)) items state ∧
  items ≫= entry_footprint σ' = items ≫= entry_footprint σ.
Proof.
  intros Hext HF. split.
  - eapply Forall2_impl; [exact HF|]. intros x s. by apply read_entry_extends.
  - apply bind_footprint_ext. induction HF as [|x s items state Hx _ IH]; [done|].
    constructor; [|done]. by eapply entry_footprint_extends.
Qed.

Lemma put_entry_spec σ s :
  (put_entry σ s).1
    = σ ++ [ParametersObj (parameters s);
            DefinitionsObj (d_saas_file_definitions (dict_of s));
            EntryObj (with_parts (dict_of s) (Some (length σ)) (S (length σ)))] ∧
  (put_entry σ s).2 = S (S (length σ)) ∧
  read_entry (put_entry σ s).1 (put_entry σ s).2 = Some (dict_of s) ∧
  entry_footprint (put_entry σ s).1 (put_entry σ s).2
    = [S (S (length σ)); length σ; S (length σ)].
Proof.
  unfold put_entry. cbn [fst snd].
  set (a := ParametersObj _). set (b := DefinitionsObj _). set (c := EntryObj _).
  destruct (lookup_app_3 σ a b c) as (Ha & Hb & Hc).
  split_and!; [done|done| |].
  - unfold read_entry. rewrite Hc. subst c. cbn [d_parameters with_parts].
    rewrite Ha. subst a. cbn [mbind option_bind d_saas_file_definitions].
    change (d_saas_file_definitions
              (with_parts (dict_of s) (Some (length σ)) (S (length σ))))
      with (S (length σ)).
    rewrite Hb. done.
  - unfold entry_footprint. rewrite Hc. done.
Qed.

Lemma put_entries_spec σ state :
  (∃ objs, (put_entries σ state).1 = σ ++ objs) ∧
  Forall2 (λ x s, read_entry (put_entries σ state).1 x = Some (dict_of s))
          (put_entries σ state).2 state ∧
  NoDup ((put_entries σ state).2 ≫= entry_footprint (put_entries σ state).1) ∧
  Forall (λ z, length σ ≤ z)
         ((put_entries σ state).2 ≫= entry_footprint (put_entries σ state).1).
Proof.
  revert σ. induction state as [|s state IH]; intros σ.
  - simpl. split_and!; [by exists []; rewrite app_nil_r|constructor|constructor|constructor].
  - cbn [put_entries].
    destruct (put_entry_spec σ s) as (Hσ1 & Hl & Hread & Hfp).
    destruct (put_entry σ s) as [σ1 l]. cbn [fst snd] in *.
    destruct (IH σ1) as ((objs & Hσ2) & HF & Hnd & Hge).
    destruct (put_entries σ1 state) as [σ2 ls]. cbn [fst snd] in *.
    assert (extends σ1 σ2) as Hext by (rewrite Hσ2; apply extends_app).
    assert (length σ1 = S (S (S (length σ)))) as Hlen.
    { rewrite Hσ1, length_app. simpl. lia. }
    split_and!.
    + exists ([ParametersObj (parameters s);
               DefinitionsObj (d_saas_file_definitions (dict_of s));
               EntryObj (with_parts (dict_of s) (Some (length σ)) (S (length σ)))]
              ++ objs).
      by rewrite Hσ2, Hσ1, <-app_assoc.
    + constructor; [|done]. by eapply read_entry_extends.
    + rewrite bind_cons. rewrite (entry_footprint_extends σ1 σ2 l _ Hext Hread), Hfp.
      apply NoDup_app. split_and!; [|
        |done].
      * subst l. repeat constructor; set_solver by lia.
      * intros z Hz Hz'. rewrite Forall_forall in Hge. apply Hge in Hz'.
        set_solver by lia.
    + rewrite bind_cons. rewrite (entry_footprint_extends σ1 σ2 l _ Hext Hread), Hfp.
      apply Forall_app. split.
      * repeat constructor; lia.
      * eapply Forall_impl; [exact Hge|]. simpl. lia.
Qed.

Lemma put_state_spec σ state :
  holds (put_state σ state).1 (put_state σ state).2 state ∧
  extends σ (put_state σ state).1 ∧
  length σ ≤ (put_state σ state).2 ∧
  Forall (λ z, length σ ≤ z) (footprint (put_state σ state).1 (put_state σ state).2).
Proof.
  unfold put_state.
  destruct (put_entries_spec σ state) as ((objs & Hσ') & HF & Hnd & Hge).
  destruct (put_entries σ state) as [σ' items]. cbn [fst snd] in *.
  assert ((σ' ++ [ListObj items]) !! length σ' = Some (ListObj items)) as Hl.
  { rewrite lookup_app_r by lia. by replace (length σ' - length σ') with 0 by lia. }
  destruct (footprints_extend σ' (σ' ++ [ListObj items]) items state dict_of
              (extends_app _ _) HF) as [HF' Hfp].
  assert (footprint (σ' ++ [ListObj items]) (length σ')
          = items ≫= entry_footprint σ') as Hfoot.
  { unfold footprint. by rewrite Hl. }
  split_and!.
  - split.
    + unfold read_state. rewrite Hl. apply mapM_Some.
      by apply Forall2_fmap_r.
    + by rewrite Hfoot.
  - rewrite Hσ', <-app_assoc. apply extends_app.
  - rewrite Hσ', length_app. lia.
  - by rewrite Hfoot.
Qed.

(** *** The deep copy of a state *)

Lemma deepcopy_unfold fuel x s :
  deepcopy (S fuel) x s =
    match s.2 !! x with
    | Some y => (Ok y, s)
    | None =>
        match s.1 !! x with
        | None => (Raise (TypeError "no such object"), s)
        | Some (ParametersObj p) => alloc (ParametersObj p) x s
        | Some (DefinitionsObj d) => alloc (DefinitionsObj d) x s
        | Some (EntryObj e) =>
            (parameters ←
               match d_parameters e with
               | None => mret None
               | Some lp => lp' ← deepcopy fuel lp; mret (Some lp')
               end;
             definitions ← deepcopy fuel (d_saas_file_definitions e);
             alloc (EntryObj (with_parts e parameters definitions)) x) s
        | Some (ListObj items) =>
            (items' ← copy_items (deepcopy fuel) items;
             alloc (ListObj items') x) s
        end
    end.
Proof. reflexivity. Qed.

Lemma read_entry_dict_of σ x s :
  read_entry σ x = Some (dict_of s) →
  ∃ e lp, σ !! x = Some (EntryObj e) ∧
          d_parameters e = Some lp ∧
          σ !! lp = Some (ParametersObj (parameters s)) ∧
          σ !! d_saas_file_definitions e
            = Some (DefinitionsObj (d_saas_file_definitions (dict_of s))) ∧
          entry_footprint σ x = [x; lp; d_saas_file_definitions e] ∧
          d_ref e = Some (ref s) ∧
          ∀ {P D} (p : option P) (d : D),
            with_parts e p d = with_parts (dict_of s) p d.
Proof.
  intros Hread. apply read_entry_Some in Hread as (e & d & Hx & Hd & Hp).
  destruct (d_parameters e) as [lp|] eqn:Hlp.
  - destruct Hp as (p & Hlp' & Heq). exists e, lp.
    unfold dict_of, with_parts in Heq.
    injection Heq as ? ? ? ? ? ? ? ? ? ? ? ?. subst p d.
    split_and!; try done.
    + unfold entry_footprint. by rewrite Hx, Hlp.
    + intros P D p d. unfold with_parts, dict_of. simpl. by f_equal.
  - unfold dict_of, with_parts in Hp. discriminate Hp.
Qed.

Lemma deepcopy_entry fuel σ memo x s :
  read_entry σ x = Some (dict_of s) →
  (∀ z, z ∈ entry_footprint σ x → memo !! z = None) →
  ∃ memo',
    deepcopy (S (S fuel)) x (σ, memo)
      = (Ok (put_entry σ s).2, ((put_entry σ s).1, memo')) ∧
    ∀ z, z ∉ entry_footprint σ x → memo' !! z = memo !! z.
Proof.
  intros Hread Hmemo.
  destruct (read_entry_dict_of σ x s Hread)
    as (e & lp & Hx & Hlp & Hp & Hd & Hfp & _ & Hparts).
  rewrite Hfp in Hmemo.
  assert (lp ≠ d_saas_file_definitions e) as Hne by congruence.
  assert (lp < length σ) as Hlplt by (by apply lookup_lt_Some in Hp).
  assert (d_saas_file_definitions e < length σ) as Hdlt
    by (by apply lookup_lt_Some in Hd).
  eexists. split.
  - rewrite deepcopy_unfold. cbn [fst snd]. rewrite Hmemo, Hx by set_solver.
    rewrite bind_unfold, Hlp, bind_unfold.
    rewrite deepcopy_unfold. cbn [fst snd]. rewrite Hmemo, Hp by set_solver.
    unfold alloc at 1. cbn [mret stateful_ret].
    rewrite bind_unfold, deepcopy_unfold. cbn [fst snd].
    rewrite lookup_insert_ne by done. rewrite Hmemo by set_solver.
    rewrite lookup_app_l by done. rewrite Hd.
    unfold alloc. rewrite !length_app. cbn [length].
    rewrite Hparts. unfold put_entry. cbn [fst snd].
    rewrite <-!app_assoc. cbn [app].
    replace (length σ + 1) with (S (length σ)) by lia.
    replace (S (length σ) + 1) with (S (S (length σ))) by lia.
    reflexivity.
  - intros z Hz. rewrite Hfp in Hz.
    rewrite !lookup_insert_ne by set_solver. done.
Qed.

Lemma copy_items_unfold (copy : nat → stateful (store * gmap nat nat) nat)
    x rest s :
  copy_items copy (x :: rest) s =
    match copy x s with
    | (Ok y, s1) =>
        match copy_items copy rest s1 with
        | (Ok ys, s2) => (Ok (y :: ys), s2)
        | (Raise e, s2) => (Raise e, s2)
        end
    | (Raise e, s1) => (Raise e, s1)
    end.
Proof. reflexivity. Qed.

Lemma copy_items_entries fuel items state :
  ∀ σ memo,
  Forall2 (λ x s, read_entry σ x = Some (dict_of s)) items state →
  NoDup (items ≫= entry_footprint σ) →
  (∀ z, z ∈ items ≫= entry_footprint σ → memo !! z = None) →
  ∃ memo',
    copy_items (deepcopy (S (S fuel))) items (σ, memo)
      = (Ok (put_entries σ state).2, ((put_entries σ state).1, memo')).
Proof.
  revert state. induction items as [|x items IH]; intros state σ memo HF Hnd Hmemo.
  - apply Forall2_nil_inv_l in HF as ->. by exists memo.
  - apply Forall2_cons_inv_l in HF as (s & state' & Hx & HF & ->).
    rewrite bind_cons in Hnd, Hmemo.
    apply NoDup_app in Hnd as (Hndx & Hdisj & Hnd).
    destruct (deepcopy_entry fuel σ memo x s Hx) as (memo1 & Hcopy & Hmemo1).
    { intros z Hz. apply Hmemo. set_solver. }
    rewrite copy_items_unfold, Hcopy. cbn [put_entries].
    destruct (put_entry_spec σ s) as (Hσ1 & _).
    destruct (put_entry σ s) as [σ1 l]. cbn [fst snd] in *.
    assert (extends σ σ1) as Hext by (rewrite Hσ1; apply extends_app).
    destruct (footprints_extend σ σ1 items state' dict_of Hext HF) as [HF1 Hfp1].
    destruct (IH state' σ1 memo1 HF1) as (memo2 & Hrest).
    { by rewrite Hfp1. }
    { intros z Hz. rewrite Hfp1 in Hz. rewrite Hmemo1.
      - apply Hmemo. set_solver.
      - intros Hzx. by apply (Hdisj z). }
    rewrite Hrest. destruct (put_entries σ1 state') as [σ2 ls]. by exists memo2.
Qed.

Lemma holds_items σ l state :
  holds σ l state →
  ∃ items, σ !! l = Some (ListObj items) ∧
           Forall2 (λ x s, read_entry σ x = Some (dict_of s)) items state ∧
           footprint σ l = items ≫= entry_footprint σ ∧
           NoDup (items ≫= entry_footprint σ).
Proof.
  intros [Hread Hnd]. unfold read_state, footprint in *.
  destruct (σ !! l) as [[items|e|d|p]|] eqn:Hl; try done.
  exists items. split_and!; try done.
  apply mapM_Some in Hread. by apply Forall2_fmap_r in Hread.
Qed.

(** The deep copy of a state that shares nothing between its entries is
    that state put anew in the store. *)
Lemma copy_deepcopy_put_state σ l state :
  holds σ l state →
  copy_deepcopy l σ = (Ok (put_state σ state).2, (put_state σ state).1).
Proof.
  intros Hholds. destruct (holds_items σ l state Hholds) as (items & Hl & HF & _ & Hnd).
  destruct (copy_items_entries 997 items state σ ∅ HF Hnd) as (memo' & Hcopy).
  { intros z _. apply lookup_empty. }
  unfold copy_deepcopy. change recursion_limit with (S (S (S 997))).
  rewrite deepcopy_unfold. cbn [fst snd]. rewrite lookup_empty, Hl.
  rewrite bind_unfold, Hcopy. unfold put_state.
  destruct (put_entries σ state) as [σ' items']. done.
Qed.

(** *** Popping the trivial fields *)

Lemma pop_trivial_fields_entry σ x s :
  read_entry σ x = Some (dict_of s) →
  ∃ σ', pop_trivial_fields x σ = (Ok tt, σ') ∧
        length σ' = length σ ∧
        read_entry σ' x = Some (without_trivial_fields s) ∧
        (∀ z, z ∈ entry_footprint σ' x → z ∈ entry_footprint σ x) ∧
        ∀ z, z ∉ entry_footprint σ x → σ' !! z = σ !! z.
Proof.
  intros Hread.
  destruct (read_entry_dict_of σ x s Hread)
    as (e & lp & Hx & Hlp & Hp & Hd & Hfp & Href & Hparts).
  set (ld := d_saas_file_definitions e) in *.
  assert (x ≠ ld) as Hne by congruence.
  assert (x < length σ) as Hxlt by (by apply lookup_lt_Some in Hx).
  assert (ld < length σ) as Hdlt by (by apply lookup_lt_Some in Hd).
  set (e2 := with_parts (without_ref e) (@None nat) ld).
  set (σ1 := <[x := EntryObj (without_ref e)]> σ).
  set (σ2 := <[x := EntryObj e2]> σ1).
  set (σ3 := <[ld := DefinitionsObj
                       (without_use_channel
                          (d_saas_file_definitions (dict_of s)))]> σ2).
  set (σ4 := <[x := EntryObj (without_disable e2)]> σ3).
  assert (pop_ref x σ = (Ok tt, σ1)) as H1.
  { unfold pop_ref. by rewrite Hx, Href. }
  assert (pop_parameters x σ1 = (Ok tt, σ2)) as H2.
  { unfold pop_parameters, σ1. rewrite list_lookup_insert_eq by done.
    cbn [d_parameters without_ref]. by rewrite Hlp. }
  assert (pop_use_channel_in_image_tag x σ2 = (Ok tt, σ3)) as H3.
  { unfold pop_use_channel_in_image_tag, σ2.
    rewrite list_lookup_insert_eq by (unfold σ1; by rewrite length_insert).
    change (d_saas_file_definitions e2) with ld.
    rewrite list_lookup_insert_ne by done. unfold σ1.
    rewrite list_lookup_insert_ne by done. by rewrite Hd. }
  assert (pop_disable x σ3 = (Ok tt, σ4)) as H4.
  { unfold pop_disable, σ3. rewrite list_lookup_insert_ne by done.
    unfold σ2. rewrite list_lookup_insert_eq
      by (unfold σ1; by rewrite length_insert). done. }
  exists σ4.
  assert (σ4 !! x = Some (EntryObj (without_disable e2))) as Hx4.
  { unfold σ4. rewrite list_lookup_insert_eq; [done|].
    unfold σ3, σ2, σ1. by rewrite !length_insert. }
  assert (σ4 !! ld = Some (DefinitionsObj
            (without_use_channel (d_saas_file_definitions (dict_of s)))))
    as Hd4.
  { unfold σ4. rewrite list_lookup_insert_ne by done.
    unfold σ3. rewrite list_lookup_insert_eq; [done|].
    unfold σ2, σ1. by rewrite !length_insert. }
  split_and!.
  - unfold pop_trivial_fields.
    rewrite bind_unfold, H1, bind_unfold, H2, bind_unfold, H3. exact H4.
  - unfold σ4, σ3, σ2, σ1. by rewrite !length_insert.
  - unfold read_entry. rewrite Hx4.
    cbn [d_parameters without_disable e2 with_parts mbind option_bind].
    change (d_saas_file_definitions (without_disable e2)) with ld.
    rewrite Hd4. f_equal.
    pose proof (Hparts unit unit None tt) as Hrest.
    unfold with_parts, dict_of in Hrest. simpl in Hrest.
    injection Hrest as ? ? ? ? ? ? ? ? ? ?.
    unfold without_trivial_fields, without_disable, e2, with_parts,
      without_ref, without_use_channel. simpl. by f_equal.
  - intros z Hz. unfold entry_footprint in Hz. rewrite Hx4 in Hz.
    rewrite Hfp. cbn in Hz. fold ld in Hz. set_solver.
  - intros z Hz. rewrite Hfp in Hz.
    unfold σ4, σ3, σ2, σ1.
    rewrite !list_lookup_insert_ne by set_solver. done.
Qed.

Lemma for_each_pop items state :
  ∀ σ,
  Forall2 (λ x s, read_entry σ x = Some (dict_of s)) items state →
  NoDup (items ≫= entry_footprint σ) →
  ∃ σ', for_each pop_trivial_fields items σ = (Ok tt, σ') ∧
        length σ' = length σ ∧
        Forall2 (λ x s, read_entry σ' x = Some (without_trivial_fields s))
                items state ∧
        ∀ z, z ∉ items ≫= entry_footprint σ → σ' !! z = σ !! z.
Proof.
  revert state. induction items as [|x items IH]; intros state σ HF Hnd.
  - apply Forall2_nil_inv_l in HF as ->. exists σ. by split_and!.
  - apply Forall2_cons_inv_l in HF as (s & state' & Hx & HF & ->).
    rewrite bind_cons in Hnd. apply NoDup_app in Hnd as (Hndx & Hdisj & Hnd).
    destruct (pop_trivial_fields_entry σ x s Hx)
      as (σ1 & Hpop & Hlen1 & Hread1 & Hfp1 & Hframe1).
    assert (Forall (λ y, read_entry σ1 y = read_entry σ y ∧
                         entry_footprint σ1 y = entry_footprint σ y) items)
      as Hsame.
    { apply Forall_forall. intros y Hy. apply read_entry_agree.
      intros z Hz. apply Hframe1. intros Hzx. apply (Hdisj z Hzx).
      apply list_elem_of_bind. by exists y. }
    assert (items ≫= entry_footprint σ1 = items ≫= entry_footprint σ) as Hfps.
    { apply bind_footprint_ext. eapply Forall_impl; [exact Hsame|]. by intros y [_ ?]. }
    destruct (IH state' σ1) as (σ' & Hrest & Hlen & HF' & Hframe).
    { clear -HF Hsame. induction HF as [|y s' items state' Hy HF IH];
        [constructor|].
      apply Forall_cons in Hsame as [[Hr _] Hsame].
      constructor; [by rewrite Hr|by apply IH]. }
    { by rewrite Hfps. }
    exists σ'. split_and!.
    + cbn [for_each]. by rewrite bind_unfold, Hpop.
    + congruence.
    + constructor; [|done]. rewrite <-Hread1.
      apply read_entry_agree. intros z Hz. apply Hframe. rewrite Hfps.
      intros Hzi. by apply (Hdisj z (Hfp1 z Hz)).
    + intros z Hz. rewrite bind_cons in Hz.
      rewrite Hframe by (rewrite Hfps; set_solver).
      apply Hframe1. set_solver.
Qed.

Lemma footprint_not_list σ items state (f : state_entry → entry_value) l z :
  Forall2 (λ x s, read_entry σ x = Some (f s)) items state →
  σ !! l = Some (ListObj items) →
  z ∈ items ≫= entry_footprint σ → z ≠ l.
Proof.
  intros HF Hl Hz ->. apply list_elem_of_bind in Hz as (x & Hz & Hx).
  apply (list_elem_of_lookup_1 items) in Hx as [i Hi].
  destruct (Forall2_lookup_l _ _ _ _ _ HF Hi) as (s & _ & Hread).
  destruct (entry_footprint_valid σ x _ l Hread Hz) as (o & Ho & Hno).
  rewrite Hl in Ho. injection Ho as <-. by apply (Hno items).
Qed.

Lemma iterate_pop σ l state :
  holds σ l state →
  ∃ σ', iterate l pop_trivial_fields σ = (Ok tt, σ') ∧
        length σ' = length σ ∧
        read_state σ' l = Some (without_trivial_fields <$> state) ∧
        ∀ z, z ∉ footprint σ l → σ' !! z = σ !! z.
Proof.
  intros Hholds.
  destruct (holds_items σ l state Hholds) as (items & Hl & HF & Hfoot & Hnd).
  destruct (for_each_pop items state σ HF Hnd) as (σ' & Hpop & Hlen & HF' & Hframe).
  exists σ'. split_and!.
  - unfold iterate. by rewrite Hl.
  - done.
  - unfold read_state. rewrite Hframe, Hl.
    + apply mapM_Some. by apply Forall2_fmap_r.
    + intros Hin. by apply (footprint_not_list σ items state dict_of l l HF Hl Hin).
  - intros z Hz. apply Hframe. by rewrite <-Hfoot.
Qed.

(** *** [valid_diff] on two states *)

Lemma agree_extends σ σ' :
  (∀ z, z < length σ → σ' !! z = σ !! z) → extends σ σ'.
Proof.
  intros Hagree z o Hz. rewrite Hagree; [done|]. by apply lookup_lt_Some in Hz.
Qed.

Lemma holds_extends σ σ' l state :
  extends σ σ' → holds σ l state → holds σ' l state.
Proof.
  intros Hext Hholds.
  destruct (holds_items σ l state Hholds) as (items & Hl & HF & Hfoot & Hnd).
  destruct Hholds as [Hread _].
  destruct (footprints_extend σ σ' items state dict_of Hext HF) as [_ Hfp].
  split; [by eapply read_state_extends|].
  unfold footprint. rewrite (Hext _ _ Hl). by rewrite Hfp.
Qed.

(** The copy of a state with the trivial fields popped from its
    entries. *)
Lemma copy_and_pop σ l state :
  holds σ l state →
  ∃ c σ1 σ2,
    copy_deepcopy l σ = (Ok c, σ1) ∧
    iterate c pop_trivial_fields σ1 = (Ok tt, σ2) ∧
    read_state σ2 c = Some (without_trivial_fields <$> state) ∧
    extends σ σ2.
Proof.
  intros Hholds.
  destruct (put_state_spec σ state) as (Hholds1 & Hext1 & Hc & Hge).
  destruct (iterate_pop _ _ _ Hholds1) as (σ2 & Hpop & Hlen & Hread & Hframe).
  eexists _, _, σ2. split_and!.
  - by apply copy_deepcopy_put_state.
  - exact Hpop.
  - exact Hread.
  - intros z o Hz. rewrite Hframe; [by apply Hext1|].
    intros Hin. rewrite Forall_forall in Hge. apply Hge in Hin.
    apply lookup_lt_Some in Hz. lia.
Qed.

Lemma valid_diff_stripped σ current_state desired_state current desired :
  holds σ current_state current →
  holds σ desired_state desired →
  (valid_diff current_state desired_state σ).1
    = Ok (bool_decide (without_trivial_fields <$> current
                       = without_trivial_fields <$> desired)).
Proof.
  intros Hcur Hdes.
  destruct (copy_and_pop σ current_state current Hcur)
    as (c1 & σ1 & σ2 & Hcopy1 & Hpop1 & Hread1 & Hext2).
  pose proof (holds_extends σ σ2 desired_state desired Hext2 Hdes) as Hdes2.
  destruct (copy_and_pop σ2 desired_state desired Hdes2)
    as (c2 & σ3 & σ4 & Hcopy2 & Hpop2 & Hread2 & Hext4).
  unfold valid_diff.
  rewrite bind_unfold, Hcopy1, bind_unfold, Hpop1.
  rewrite bind_unfold, Hcopy2, bind_unfold, Hpop2.
  unfold equal. cbn [fst]. change recursion_limit with (S (S (S 997))).
  apply py_eq_state; [|done]. by eapply read_state_extends.
Qed.

Lemma valid_diff_on_stripped current desired :
  valid_diff_on current desired
    = Ok (bool_decide (without_trivial_fields <$> current
                       = without_trivial_fields <$> desired)).
Proof.
  unfold valid_diff_on.
  destruct (put_state_spec [] current) as (Hcur & _).
  destruct (put_state [] current) as [σ1 lc]. cbn [fst snd] in *.
  destruct (put_state_spec σ1 desired) as (Hdes & Hext & _).
  destruct (put_state σ1 desired) as [σ2 ld]. cbn [fst snd] in *.
  apply valid_diff_stripped; [|done]. by eapply holds_extends.
Qed.

(** X8. [valid_diff] compares the two states with the trivial fields
    left out.  On two states held in the store with no object shared
    between their entries, it raises nothing and returns whether the lists
    of their entries, each without its ['ref'], its ['parameters'], its
    ['disable'] and the ['use_channel_in_image_tag'] of its definitions,
    are equal: entry by entry, in order, so that an added or removed entry
    makes it false.  This is the value [run] gets for the state of the
    baseline and the state it collects. *)
Theorem valid_diff_compares_stripped_states
    (σ : store) (current_state desired_state : nat)
    (current desired : list state_entry) :
  (holds σ current_state current →
   holds σ desired_state desired →
   (valid_diff current_state desired_state σ).1
     = Ok (bool_decide (without_trivial_fields <$> current
                        = without_trivial_fields <$> desired))) ∧
  valid_diff_on current desired
    = Ok (bool_decide (without_trivial_fields <$> current
                       = without_trivial_fields <$> desired)).
Proof.
  split; [apply valid_diff_stripped|apply valid_diff_on_stripped].
Qed.

End valid_diff_facts.

Section valid_diff_examples.
Import SaasFileOwners.

Lemma valid_diff_compares_stripped_states_witness :
  holds example_store example_current_state [example_current] ∧
  holds example_store example_desired_state [example_desired] ∧
  (valid_diff example_current_state example_desired_state example_store).1
    = Ok true.
Proof.
  assert (holds example_store example_current_state [example_current]) as Hcur.
  { split; [by vm_compute|]. apply (bool_decide_unpack _). by vm_compute. }
  assert (holds example_store example_desired_state [example_desired]) as Hdes.
  { split; [by vm_compute|]. apply (bool_decide_unpack _). by vm_compute. }
  split_and!; [done|done|].
  rewrite (proj1 (valid_diff_compares_stripped_states example_store
                    example_current_state example_desired_state
                    [example_current] [example_desired]) Hcur Hdes).
  by vm_compute.
Defined.

End valid_diff_examples.

Section trivial_diff_facts.
Import SaasFileOwners.

Lemma without_trivial_fields_kept c d :
  without_trivial_fields c = without_trivial_fields d ↔
  kept_fields c = kept_fields d.
Proof.
  unfold without_trivial_fields, kept_fields. split; intros Heq.
  - injection Heq as ??????????. congruence.
  - injection Heq as ??????????. congruence.
Qed.

Lemma stripped_states_kept current desired :
  without_trivial_fields <$> current = without_trivial_fields <$> desired ↔
  length current = length desired ∧
  ∀ i c d, current !! i = Some c → desired !! i = Some d →
           kept_fields c = kept_fields d.
Proof.
  revert desired. induction current as [|c current IH]; intros [|d desired];
    simpl; try (split; [done|intros [? _]; done]).
  - split.
    + intros Heq. pose proof (f_equal head Heq) as Hhd.
      pose proof (f_equal tail Heq) as Htl. simpl in Hhd, Htl.
      apply (inj Some) in Hhd.
      apply IH in Htl as [Hlen Hall]. split; [by rewrite Hlen|].
      intros [|i] c' d' Hc Hd; simpl in *.
      * apply (inj Some) in Hc as <-. apply (inj Some) in Hd as <-.
        by apply without_trivial_fields_kept.
      * by eapply Hall.
    + intros [Hlen Hall]. f_equal.
      * apply without_trivial_fields_kept. by apply (Hall 0).
      * apply IH. split; [by injection Hlen|].
        intros i c' d' Hc Hd. by apply (Hall (S i)).
Qed.

Lemma kept_fields_with_disable flag s :
  kept_fields (with_disable flag s) = kept_fields s.
Proof. done. Qed.

(** C3. [valid_diff] returns true exactly when the two states are equal
    once ['ref'], ['parameters'], ['disable'] and the
    ['use_channel_in_image_tag'] of the definitions are removed from every
    entry. The states are the ones the program has: lists of entry dicts
    that share no object, as [collect_state] builds them and as
    [json.load] reads a baseline; on them [valid_diff] raises nothing, and
    it returns the same value on the states of [run]. The result is true
    exactly when the states have the same length and the entries at each
    position agree on every other field. So it is false when an entry is
    added or removed, false when two entries at the same position differ
    in cluster, namespace, environment, resource template name, managed
    resource types or image patterns, and true when the desired state is
    the current one with the ['disable'] of one entry changed, set or
    removed. *)
Theorem valid_diff_iff_stripped_states_equal
    (σ : store) (current_state desired_state : nat)
    (current desired : list state_entry) :
  holds σ current_state current →
  holds σ desired_state desired →
  ∃ b,
    (valid_diff current_state desired_state σ).1 = Ok b ∧
    valid_diff_on current desired = Ok b ∧
    (b = true ↔
     without_trivial_fields <$> current = without_trivial_fields <$> desired) ∧
    (b = true ↔
     length current = length desired ∧
     ∀ i c d, current !! i = Some c → desired !! i = Some d →
              kept_fields c = kept_fields d) ∧
    (length current ≠ length desired → b = false) ∧
    (∀ i c d, current !! i = Some c → desired !! i = Some d →
       cluster c ≠ cluster d ∨ namespace c ≠ namespace d ∨
       environment c ≠ environment d ∨
       resource_template_name c ≠ resource_template_name d ∨
       managed_resource_types (saas_file_definitions c)
         ≠ managed_resource_types (saas_file_definitions d) ∨
       image_patterns (saas_file_definitions c)
         ≠ image_patterns (saas_file_definitions d) →
       b = false) ∧
    (∀ i c flag, current !! i = Some c →
       desired = <[i := with_disable flag c]> current → b = true).
Proof.
  intros Hcur Hdes.
  exists (bool_decide (without_trivial_fields <$> current
                       = without_trivial_fields <$> desired)).
  split; [by apply valid_diff_stripped|].
  split; [by apply valid_diff_on_stripped|].
  rewrite bool_decide_eq_true.
  split; [done|]. split; [apply stripped_states_kept|].
  split_and!.
  - intros Hlen. apply bool_decide_eq_false_2. intros Heq.
    apply stripped_states_kept in Heq as [? _]. done.
  - intros i c d Hc Hd Hne. apply bool_decide_eq_false_2. intros Heq.
    apply stripped_states_kept in Heq as [_ Hall].
    specialize (Hall i c d Hc Hd). unfold kept_fields in Hall.
    injection Hall as ??????????. tauto.
  - intros i c flag Hc ->. apply bool_decide_eq_true_2.
    apply stripped_states_kept. split; [by rewrite length_insert|].
    intros j c' d' Hc' Hd'. destruct (decide (j = i)) as [->|Hne].
    + rewrite list_lookup_insert_eq in Hd' by (by eapply lookup_lt_Some).
      simplify_eq. done.
    + rewrite list_lookup_insert_ne in Hd' by done. by simplify_eq.
Qed.

End trivial_diff_facts.

Section trivial_diff_examples.
Import SaasFileOwners.

Lemma valid_diff_iff_stripped_states_equal_witness :
  ∃ b,
    (valid_diff example_current_state example_desired_state example_store).1
      = Ok b ∧
    (b = true ↔
     without_trivial_fields <$> [example_current]
       = without_trivial_fields <$> [example_desired]).
Proof.
  assert (holds example_store example_current_state [example_current]) as Hcur.
  { split; [by vm_compute|]. apply (bool_decide_unpack _). by vm_compute. }
  assert (holds example_store example_desired_state [example_desired]) as Hdes.
  { split; [by vm_compute|]. apply (bool_decide_unpack _). by vm_compute. }
  destruct (valid_diff_iff_stripped_states_equal example_store
              example_current_state example_desired_state
              [example_current] [example_desired] Hcur Hdes)
    as (b & Hb & _ & Hiff & _).
  exists b. split; [exact Hb|exact Hiff].
Defined.

End trivial_diff_examples.

Section approval_order_facts.
Import SaasFileOwners.

Lemma check_if_lgtm_owner_lines owners comments :
  check_if_lgtm (Some owners) comments =
    match owners with
    | [] => (false, false)
    | _ =>
        let final :=
          foldl apply_command
                {| approved := false; hold := false; lgtm_seen := false |}
                (omap parse_command (owner_lines owners comments)) in
        (approved final, hold final)
    end.
Proof. by rewrite check_if_lgtm_evaluateApproval. Qed.

Lemma check_if_lgtm_same_owners owners1 owners2 comments :
  (∀ u, u ∈ replace_at <$> owners1 ↔ u ∈ replace_at <$> owners2) →
  check_if_lgtm (Some owners1) comments = check_if_lgtm (Some owners2) comments.
Proof.
  intros Hsame. rewrite !check_if_lgtm_owner_lines.
  assert (owner_lines owners1 comments = owner_lines owners2 comments) as ->.
  { unfold owner_lines. f_equal. apply list_filter_iff. intros c. apply Hsame. }
  destruct owners1 as [|o1 owners1], owners2 as [|o2 owners2]; try done.
  - exfalso. eapply elem_of_nil, Hsame. rewrite fmap_cons. apply list_elem_of_here.
  - exfalso. eapply elem_of_nil, Hsame. rewrite fmap_cons. apply list_elem_of_here.
Qed.

(** X9. [check_if_lgtm] depends on the owners only through the set of
    their names with every [@] removed: two lists of owners that give the
    same such names give the same result.  So neither the order of the
    list (which [list(set)] in [collect_owners] leaves open), nor the [@]
    that [collect_owners] puts before an owner to be tagged, nor an owner
    listed twice changes who can approve. *)
Theorem check_if_lgtm_depends_on_owner_set
    (owners1 owners2 : list string) (comments : list comment) :
  ((∀ u, u ∈ replace_at <$> owners1 ↔ u ∈ replace_at <$> owners2) →
   check_if_lgtm (Some owners1) comments
     = check_if_lgtm (Some owners2) comments) ∧
  (owners1 ≡ₚ owners2 →
   check_if_lgtm (Some owners1) comments
     = check_if_lgtm (Some owners2) comments) ∧
  (∀ u, check_if_lgtm (Some (("@" ++ u)%string :: owners1)) comments
        = check_if_lgtm (Some (u :: owners1)) comments) ∧
  (∀ u, u ∈ owners1 →
        check_if_lgtm (Some (u :: owners1)) comments
        = check_if_lgtm (Some owners1) comments).
Proof.
  split_and!.
  - apply check_if_lgtm_same_owners.
  - intros Hperm. apply check_if_lgtm_same_owners. intros u.
    by rewrite Hperm.
  - intros u. apply check_if_lgtm_same_owners. intros u'.
    rewrite !fmap_cons. simpl. done.
  - intros u Hu. apply check_if_lgtm_same_owners. intros u'.
    rewrite fmap_cons. set_solver.
Qed.

(** The state of the approval after some lines, from the last lines of
    each kind. *)
Lemma apply_commands_last lines :
  let final :=
    foldl apply_command
          {| approved := false; hold := false; lgtm_seen := false |}
          (omap parse_command lines) in
  let lgtm_stands :=
    bool_decide (last_line (λ l, l = "/lgtm" ∨ l = "/lgtm cancel") lines
                 = Some "/lgtm") in
  lgtm_seen final = lgtm_stands ∧
  hold final
    = bool_decide (last_line (λ l, l = "/hold" ∨ l = "/hold cancel") lines
                   = Some "/hold") ∧
  approved final
    = lgtm_stands &&
      negb (bool_decide
              (last_line (λ l, l ∈ ["/lgtm"; "/lgtm cancel"; "/hold";
                                      "/hold cancel"]) lines
               = Some "/hold")).
Proof.
  unfold last_line.
  induction lines as [|line lines IH] using rev_ind;
    [by simpl|].
  rewrite omap_app, foldl_app, !filter_app.
  destruct IH as (IHl & IHh & IHa). simpl in IHl, IHh, IHa.
  rewrite !filter_cons, !filter_nil.
  destruct (decide (line = "/lgtm")) as [->|H1].
  { change (omap parse_command ["/lgtm"]) with [Lgtm]. simpl.
    rewrite !last_snoc, ?app_nil_r. simpl. by rewrite IHh. }
  destruct (decide (line = "/lgtm cancel")) as [->|H2].
  { change (omap parse_command ["/lgtm cancel"]) with [LgtmCancel]. simpl.
    rewrite !last_snoc, ?app_nil_r. simpl. by rewrite IHh. }
  destruct (decide (line = "/hold")) as [->|H3].
  { change (omap parse_command ["/hold"]) with [Hold]. simpl.
    rewrite !last_snoc, ?app_nil_r. simpl.
    rewrite IHl. by rewrite andb_false_r. }
  destruct (decide (line = "/hold cancel")) as [->|H4].
  { change (omap parse_command ["/hold cancel"]) with [HoldCancel]. simpl.
    rewrite !last_snoc, ?app_nil_r. simpl.
    rewrite IHl, IHa. rewrite andb_true_r.
    split_and!; [done|done|].
    destruct (bool_decide (last _ = Some "/lgtm")); [done|].
    by rewrite andb_false_l. }
  assert (omap parse_command [line] = []) as ->.
  { simpl. unfold parse_command. by rewrite !bool_decide_eq_false_2 by done. }
  cbn [foldl app].
  rewrite !decide_False.
  - rewrite !app_nil_r. done.
  - intros Hin. set_solver.
  - intros [?|?]; done.
  - intros [?|?]; done.
Qed.

(** X10. The result of [check_if_lgtm] is fixed by the last commands
    among the lines of the comments of the owners, in the order of
    creation: the merge request is on hold exactly when the last of the
    [/hold] and [/hold cancel] lines is [/hold]; it is approved exactly
    when the last of the [/lgtm] and [/lgtm cancel] lines is [/lgtm] and
    the last command of all is not [/hold].  So a [/lgtm] after a [/hold]
    approves while the hold stays, and a [/hold cancel] restores an
    approval only if no [/lgtm cancel] came after the last [/lgtm]. *)
Theorem check_if_lgtm_last_commands
    (owners : list string) (comments : list comment) :
  owners ≠ [] →
  let lines := owner_lines owners comments in
  let lgtm_stands :=
    bool_decide (last_line (λ l, l = "/lgtm" ∨ l = "/lgtm cancel") lines
                 = Some "/lgtm") in
  let held :=
    bool_decide (last_line (λ l, l = "/hold" ∨ l = "/hold cancel") lines
                 = Some "/hold") in
  let hold_is_last :=
    bool_decide (last_line (λ l, l ∈ ["/lgtm"; "/lgtm cancel"; "/hold";
                                        "/hold cancel"]) lines
                 = Some "/hold") in
  check_if_lgtm (Some owners) comments
    = (lgtm_stands && negb hold_is_last, held).
Proof.
  intros Hne lines lgtm_stands held hold_is_last.
  rewrite check_if_lgtm_owner_lines.
  destruct owners as [|o owners]; [done|].
  destruct (apply_commands_last lines) as (_ & Hh & Ha).
  simpl in Hh, Ha. fold lines. cbn zeta. by rewrite Hh, Ha.
Qed.

End approval_order_facts.

Section approval_order_examples.
Import SaasFileOwners.

Lemma check_if_lgtm_depends_on_owner_set_witness :
  ["bob"; "@alice"] ≡ₚ ["@alice"; "bob"] ∧
  check_if_lgtm (Some ["bob"; "@alice"]) example_comments
    = check_if_lgtm (Some ["@alice"; "bob"]) example_comments.
Proof.
  assert (["bob"; "@alice"] ≡ₚ ["@alice"; "bob"]) as Hperm
    by apply Permutation_swap.
  split; [exact Hperm|].
  by apply (check_if_lgtm_depends_on_owner_set
              ["bob"; "@alice"] ["@alice"; "bob"] example_comments).
Defined.

Lemma check_if_lgtm_last_commands_witness :
  ["alice"] ≠ [] ∧
  check_if_lgtm (Some ["alice"]) example_comments = (true, false).
Proof.
  assert (["alice"] ≠ []) as Hne by done.
  split; [exact Hne|].
  pose proof (check_if_lgtm_last_commands ["alice"] example_comments Hne) as H.
  cbv zeta in H. rewrite H. by vm_compute.
Defined.

End approval_order_examples.

Section approved_label_facts.
Import SaasFileOwners.
Context `{Queries} `{MergeRequest}.

Lemma filter_all {A} (P : A → Prop) `{∀ x, Decision (P x)} (l : list A) :
  (∀ x, x ∈ l → P x) → filter P l = l.
Proof.
  induction l as [|x l IH]; intros Hall; [done|].
  rewrite filter_cons, decide_True by (apply Hall; set_solver).
  f_equal. apply IH. intros y Hy. apply Hall. set_solver.
Qed.

Lemma filter_iff_in {A} (P Q : A → Prop)
    `{∀ x, Decision (P x)} `{∀ x, Decision (Q x)} (l : list A) :
  (∀ x, x ∈ l → P x ↔ Q x) → filter P l = filter Q l.
Proof.
  induction l as [|x l IH]; intros Hiff; [done|].
  rewrite !filter_cons. rewrite IH by (intros y Hy; apply Hiff; set_solver).
  destruct (decide (P x)) as [HP|HP], (decide (Q x)) as [HQ|HQ]; try done.
  - exfalso. apply HQ, Hiff; [set_solver|done].
  - exfalso. apply HP, Hiff; [set_solver|done].
Qed.

(** One turn of the loop of [run]: the changed paths that end with the
    path of an approved diff are taken off. *)
Lemma check_diff_step changed_paths held comment_lines calls d :
  ∃ held' comment_lines' new,
    check_diff (changed_paths, held, comment_lines, calls) d
      = (filter (λ c, ¬ (endswith c (saas_file_path d) = true ∧ lgtm d = true))
                changed_paths,
         held', comment_lines', calls ++ new) ∧
    add_label_to_merge_request "bot/approved" ∉ new.
Proof.
  unfold check_diff. case_bool_decide as Hmatches.
  - exists held, comment_lines, [logging_warning d]. split.
    + f_equal. f_equal. f_equal. symmetry. apply filter_all.
      intros c Hc [Hend _].
      assert (c ∈ filter (λ c, endswith c (saas_file_path d) = true)
                         changed_paths) as Hin
        by (by apply list_elem_of_filter).
      rewrite Hmatches in Hin. by apply elem_of_nil in Hin.
    + intros Hin. apply list_elem_of_singleton in Hin. discriminate Hin.
  - assert (lgtm d = (check_if_lgtm (baseline_owners !! saas_file_name d)
                                    get_merge_request_comments).1) as Hlgtm
      by done.
    destruct (check_if_lgtm _ _) as [valid_lgtm current_hold].
    simpl in Hlgtm. rewrite Hlgtm.
    destruct valid_lgtm; cbn [negb].
    + eexists _, _, [_]. split.
      * f_equal. f_equal. f_equal. apply filter_iff_in. intros c Hc.
        rewrite list_elem_of_filter. naive_solver.
      * intros Hin. apply list_elem_of_singleton in Hin.
        destruct (held || current_hold); discriminate Hin.
    + eexists _, _, [_; _]. split.
      * rewrite <-app_assoc. f_equal. f_equal. f_equal. symmetry.
        apply filter_all. by intros c _ [_ ?].
      * intros Hin. apply elem_of_cons in Hin as [Hin|Hin].
        -- destruct (held || current_hold); discriminate Hin.
        -- apply list_elem_of_singleton in Hin. discriminate Hin.
Qed.

Lemma check_diffs_loop ds :
  ∀ changed_paths held comment_lines calls,
  ∃ held' comment_lines' new,
    foldl check_diff (changed_paths, held, comment_lines, calls) ds
      = (filter (λ c, ¬ Exists (λ d, endswith c (saas_file_path d) = true ∧
                                     lgtm d = true) ds)
                changed_paths,
         held', comment_lines', calls ++ new) ∧
    add_label_to_merge_request "bot/approved" ∉ new.
Proof.
  induction ds as [|d ds IH]; intros changed_paths held comment_lines calls.
  - exists held, comment_lines, []. split.
    + simpl. rewrite app_nil_r. f_equal. f_equal. f_equal. symmetry.
      apply filter_all. intros c _ Hex. by apply Exists_nil in Hex.
    + apply not_elem_of_nil.
  - cbn [foldl].
    destruct (check_diff_step changed_paths held comment_lines calls d)
      as (held1 & lines1 & new1 & -> & Hnew1).
    destruct (IH (filter (λ c, ¬ (endswith c (saas_file_path d) = true ∧
                                  lgtm d = true)) changed_paths)
                 held1 lines1 (calls ++ new1))
      as (held2 & lines2 & new2 & -> & Hnew2).
    exists held2, lines2, (new1 ++ new2). split.
    + rewrite <-app_assoc. f_equal. f_equal. f_equal.
      rewrite list_filter_filter. apply list_filter_iff. intros c.
      rewrite Exists_cons. tauto.
    + intros Hin. apply elem_of_app in Hin as [?|?]; done.
Qed.

(** The calls of [run] on a merge request, once the state is collected:
    the calls before the loop decide nothing on the approved label, and
    the last call decides it. *)
Lemma run_compare_calls dry_run desired_state :
  collect_state = Ok desired_state →
  let valid :=
    bool_decide (without_trivial_fields <$> baseline_state
                 = without_trivial_fields <$> desired_state) in
  let remaining :=
    filter (λ c, ¬ Exists (λ d, endswith c (saas_file_path d) = true ∧
                                lgtm d = true)
                          (diffs baseline_state desired_state))
           get_merge_request_changed_paths in
  ∃ before,
    run dry_run true
      = (Ok tt,
         before ++
         [if bool_decide (desired_state ≠ baseline_state) && valid
             && bool_decide (remaining = [])
          then add_label_to_merge_request "bot/approved"
          else remove_label_from_merge_request "bot/approved"]) ∧
    add_label_to_merge_request "bot/approved" ∉ before ∧
    print (if check_saas_files_changes_only get_merge_request_changed_paths
                (diffs baseline_state desired_state) && valid
           then "yes" else "no") ∈ before.
Proof.
  intros Hcs valid remaining. unfold run. cbn [negb]. rewrite Hcs.
  rewrite valid_diff_on_stripped. fold valid. cbv zeta.
  set (commented := if bool_decide (_ ≠ ∅) then _ else _).
  set (changes_only := check_saas_files_changes_only _ _).
  set (labelled := (if changes_only && valid && _ then _ else _) ++ _).
  assert (add_label_to_merge_request "bot/approved" ∉ commented) as Hcommented.
  { subst commented. case_bool_decide; [|apply not_elem_of_nil].
    intros Hin. apply list_elem_of_singleton in Hin. discriminate Hin. }
  assert (add_label_to_merge_request "bot/approved" ∉ labelled) as Hlabelled.
  { subst labelled. intros Hin. apply elem_of_app in Hin as [Hin|Hin].
    - destruct (_ && _ && _); [|by apply elem_of_nil in Hin].
      apply list_elem_of_singleton in Hin. discriminate Hin.
    - destruct (_ && _); [|by apply elem_of_nil in Hin].
      apply list_elem_of_singleton in Hin. discriminate Hin. }
  set (reported := [json_dump_diffs _; print _]).
  assert (add_label_to_merge_request "bot/approved" ∉ reported) as Hreported.
  { subst reported. intros Hin. apply elem_of_cons in Hin as [Hin|Hin];
      [discriminate Hin|].
    apply list_elem_of_singleton in Hin. discriminate Hin. }
  assert (print (if changes_only && valid then "yes" else "no") ∈ reported)
    as Hprint.
  { subst reported. apply list_elem_of_further, list_elem_of_here. }
  case_bool_decide as Heq.
  { exists (commented ++ reported ++ labelled). split_and!.
    - rewrite bool_decide_eq_false_2 by (intros Hne; by apply Hne).
      cbn [andb]. by rewrite <-!app_assoc.
    - intros Hin. apply elem_of_app in Hin as [?|Hin]; [done|].
      apply elem_of_app in Hin as [?|?]; done.
    - apply elem_of_app. right. apply elem_of_app. by left. }
  rewrite (bool_decide_eq_true_2 (desired_state ≠ baseline_state)) by done.
  cbn [andb]. destruct valid eqn:Hvalid; cbn [negb andb].
  2:{ exists (commented ++ reported ++ labelled). split_and!.
      - by rewrite <-!app_assoc.
      - intros Hin. apply elem_of_app in Hin as [?|Hin]; [done|].
        apply elem_of_app in Hin as [?|?]; done.
      - apply elem_of_app. right. apply elem_of_app. by left. }
  destruct (check_diffs_loop (diffs baseline_state desired_state)
              get_merge_request_changed_paths false [] [])
    as (held' & lines' & new & -> & Hnew).
  fold remaining. cbn [app].
  set (commented' := if bool_decide (_ ≠ "") then _ else _).
  assert (add_label_to_merge_request "bot/approved" ∉ commented') as Hcommented'.
  { subst commented'. case_bool_decide; [|apply not_elem_of_nil].
    intros Hin. apply list_elem_of_singleton in Hin. discriminate Hin. }
  exists (commented ++ reported ++ labelled ++ new ++ commented'). split_and!.
  - rewrite <-!app_assoc. do 6 f_equal.
    by destruct remaining.
  - intros Hin. repeat (apply elem_of_app in Hin as [?|Hin]; [done|]). done.
  - apply elem_of_app. right. apply elem_of_app. by left.
Qed.

Lemma check_saas_files_changes_only_covered changed_paths ds :
  check_saas_files_changes_only changed_paths ds = true ↔
  ∀ c, c ∈ changed_paths → ∃ d, d ∈ ds ∧ endswith c (saas_file_path d) = true.
Proof.
  unfold check_saas_files_changes_only.
  rewrite bool_decide_eq_true, length_zero_iff_nil. split.
  - intros Hnil c Hc.
    destruct (decide (Exists (λ p, endswith c p = true) (saas_file_path <$> ds)))
      as [Hex|Hnex].
    + apply Exists_exists in Hex as (p & Hp & Hend).
      apply list_elem_of_fmap in Hp as (d & -> & Hd). by exists d.
    + exfalso. eapply elem_of_nil. rewrite <-Hnil.
      apply list_elem_of_filter. by split.
  - intros Hall. apply elem_of_nil_inv. intros c Hc.
    apply list_elem_of_filter in Hc as [Hnex Hc]. apply Hnex.
    destruct (Hall c Hc) as (d & Hd & Hend).
    apply Exists_exists. exists (saas_file_path d). split; [|done].
    apply list_elem_of_fmap. by exists d.
Qed.

Lemma remaining_nil_covered changed_paths ds :
  filter (λ c, ¬ Exists (λ d, endswith c (saas_file_path d) = true ∧
                              lgtm d = true) ds) changed_paths = [] ↔
  ∀ c, c ∈ changed_paths →
    ∃ d, d ∈ ds ∧ endswith c (saas_file_path d) = true ∧ lgtm d = true.
Proof.
  split.
  - intros Hnil c Hc.
    destruct (decide (Exists (λ d, endswith c (saas_file_path d) = true ∧
                                   lgtm d = true) ds)) as [Hex|Hnex].
    + apply Exists_exists in Hex as (d & ? & ? & ?). by exists d.
    + exfalso. eapply elem_of_nil. rewrite <-Hnil.
      apply list_elem_of_filter. by split.
  - intros Hall. apply elem_of_nil_inv. intros c Hc.
    apply list_elem_of_filter in Hc as [Hnex Hc]. apply Hnex.
    destruct (Hall c Hc) as (d & Hd & Hend & Hlgtm).
    apply Exists_exists. by exists d.
Qed.

(** X11. [run] on a merge request adds the label [bot/approved] exactly
    when the state it collects differs from the state of the baseline, the
    two are equal once their trivial fields are left out, and every
    changed path of the merge request ends with the saas file path of a
    diff whose owners approve.  The label is then the last call of [run],
    which has printed [yes].  When the state is collected and the label is
    not added, [run] ends by removing it.  [dry_run] plays no part. *)
Theorem approved_label_iff_changed_paths_approved (dry_run : bool) :
  (add_label_to_merge_request "bot/approved" ∈ (run dry_run true).2 ↔
   ∃ desired_state,
     collect_state = Ok desired_state ∧
     desired_state ≠ baseline_state ∧
     without_trivial_fields <$> baseline_state
       = without_trivial_fields <$> desired_state ∧
     ∀ c, c ∈ get_merge_request_changed_paths →
       ∃ d, d ∈ diffs baseline_state desired_state ∧
            endswith c (saas_file_path d) = true ∧ lgtm d = true) ∧
  (add_label_to_merge_request "bot/approved" ∈ (run dry_run true).2 →
   (run dry_run true).1 = Ok tt ∧
   last (run dry_run true).2
     = Some (add_label_to_merge_request "bot/approved") ∧
   print "yes" ∈ (run dry_run true).2) ∧
  (∀ desired_state,
     collect_state = Ok desired_state →
     add_label_to_merge_request "bot/approved" ∉ (run dry_run true).2 →
     (run dry_run true).1 = Ok tt ∧
     last (run dry_run true).2
       = Some (remove_label_from_merge_request "bot/approved")).
Proof.
  assert (Hfwd : add_label_to_merge_request "bot/approved" ∈ (run dry_run true).2 →
    ∃ desired_state before,
      collect_state = Ok desired_state ∧
      run dry_run true
        = (Ok tt, before ++ [add_label_to_merge_request "bot/approved"]) ∧
      print (if check_saas_files_changes_only get_merge_request_changed_paths
                  (diffs baseline_state desired_state) then "yes" else "no")
        ∈ before ∧
      desired_state ≠ baseline_state ∧
      without_trivial_fields <$> baseline_state
        = without_trivial_fields <$> desired_state ∧
      ∀ c, c ∈ get_merge_request_changed_paths →
        ∃ d, d ∈ diffs baseline_state desired_state ∧
             endswith c (saas_file_path d) = true ∧ lgtm d = true).
  { intros Hin. destruct collect_state as [desired_state|e] eqn:Hcs.
    2:{ unfold run in Hin. cbn [negb] in Hin. rewrite Hcs in Hin.
        by apply elem_of_nil in Hin. }
    destruct (run_compare_calls dry_run desired_state Hcs)
      as (before & Hrun & Hbefore & Hprint).
    rewrite Hrun in Hin. cbn [snd] in Hin.
    apply elem_of_app in Hin as [?|Hin]; [done|].
    apply list_elem_of_singleton in Hin.
    destruct (bool_decide (desired_state ≠ baseline_state)) eqn:Hne;
      [|discriminate Hin].
    destruct (bool_decide (without_trivial_fields <$> baseline_state
                           = without_trivial_fields <$> desired_state))
      eqn:Hvalid; [|discriminate Hin].
    destruct (bool_decide (_ = [])) eqn:Hnil; [|discriminate Hin].
    apply bool_decide_eq_true in Hne, Hvalid, Hnil.
    rewrite andb_true_r in Hprint. cbn [andb] in Hrun.
    exists desired_state, before. split_and!; try done.
    by apply remaining_nil_covered. }
  split_and!.
  - split.
    + intros Hin. destruct (Hfwd Hin) as (d & _ & ? & _ & _ & ? & ? & ?).
      by exists d.
    + intros (desired_state & Hcs & Hne & Hvalid & Hcovered).
      destruct (run_compare_calls dry_run desired_state Hcs)
        as (before & -> & _).
      cbn [snd]. apply elem_of_app. right.
      rewrite !bool_decide_eq_true_2; [apply list_elem_of_here| | |]; try done.
      by apply remaining_nil_covered.
  - intros Hin.
    destruct (Hfwd Hin) as (d & before & _ & -> & Hprint & _ & _ & Hcovered).
    cbn [fst snd]. split_and!; [done|apply last_snoc|].
    apply elem_of_app. left.
    rewrite (proj2 (check_saas_files_changes_only_covered _ _)) in Hprint;
      [done|].
    intros c Hc. destruct (Hcovered c Hc) as (d' & ? & ? & _). by exists d'.
  - intros desired_state Hcs Hnot.
    destruct (run_compare_calls dry_run desired_state Hcs)
      as (before & Hrun & _).
    rewrite Hrun in Hnot |- *. cbn [fst snd] in *.
    split; [done|]. rewrite last_snoc. f_equal.
    destruct (_ && _ && _); [|done].
    exfalso. apply Hnot. apply elem_of_app. right. apply list_elem_of_here.
Qed.

End approved_label_facts.

Section approved_label_examples.
Import SaasFileOwners.

Lemma approved_label_iff_changed_paths_approved_witness :
  let calls := (run (H:=example_queries) (H0:=example_merge_request)
                  false true).2 in
  add_label_to_merge_request "bot/approved" ∈ calls ∧
  last calls = Some (add_label_to_merge_request "bot/approved") ∧
  print "yes" ∈ calls.
Proof.
  intros calls.
  assert (add_label_to_merge_request "bot/approved" ∈ calls) as Hin.
  { apply (bool_decide_unpack _). by vm_compute. }
  split; [exact Hin|].
  destruct (approved_label_iff_changed_paths_approved
              (H:=example_queries) (H0:=example_merge_request) false)
    as (_ & Hlast & _).
  destruct (Hlast Hin) as (_ & ? & ?). by split.
Defined.

End approved_label_examples.

Section collect_state_facts.
Import SaasFileOwners.
Context `{Queries}.

Lemma lookup_union_parameters (p_t p_rt p_sf : gmap string json) k :
  (p_t ∪ (p_rt ∪ (p_sf ∪ ∅))) !! k =
    match p_t !! k with
    | Some v => Some v
    | None => match p_rt !! k with Some v => Some v | None => p_sf !! k end
    end.
Proof.
  rewrite (right_id_L ∅ (∪)). rewrite !lookup_union.
  destruct (p_t !! k), (p_rt !! k), (p_sf !! k); done.
Qed.

Lemma collect_targets_spec saas_file p_sf resource_template p_rt targets :
  let definitions := {|
    managed_resource_types := sf_managedResourceTypes saas_file;
    image_patterns := sf_imagePatterns saas_file;
    use_channel_in_image_tag :=
      default false (sf_use_channel_in_image_tag saas_file) |} in
  let collected :=
    collect_targets saas_file p_sf definitions resource_template p_rt targets in
  (∀ state, collected = Ok state →
     Forall2 (λ target s, ∃ p_t,
                loads_parameters (t_parameters target) = Ok p_t ∧
                entry_of_target saas_file resource_template target
                  p_sf p_rt p_t s)
             targets state) ∧
  ((∀ target, target ∈ targets →
      ∃ p_t, loads_parameters (t_parameters target) = Ok p_t) →
   ∃ state, collected = Ok state).
Proof.
  intros definitions. induction targets as [|target targets IH]; cbn zeta.
  - split.
    + intros state [= <-]. constructor.
    + intros _. by eexists.
  - destruct IH as (IHok & IHtotal). cbn [collect_targets].
    destruct (loads_parameters (t_parameters target)) as [p_t|e] eqn:Hp;
      cbn [mbind outcome_bind].
    2:{ split.
        - intros state [=].
        - intros Hall. destruct (Hall target) as [p Hp']; [set_solver|].
          congruence. }
    destruct (collect_targets _ _ _ _ _ targets) as [rest|e] eqn:Hrest;
      cbn [mbind outcome_bind].
    + split.
      * intros state [= <-]. constructor; [|by apply IHok].
        exists p_t. split; [done|].
        unfold entry_of_target; cbn. split_and!; try done.
        -- apply lookup_union_parameters.
        -- by destruct (sf_use_channel_in_image_tag saas_file) as [[]|].
      * intros _. by eexists.
    + split.
      * intros state [=].
      * intros Hall. destruct IHtotal as [state Hstate]; [|done].
        intros t Ht. apply Hall. set_solver.
Qed.

Lemma Forall2_all_l {A B} (P : A → B → Prop) l k x :
  Forall2 P l k → x ∈ l → ∃ y, P x y.
Proof.
  intros HF Hx. apply list_elem_of_lookup in Hx as [i Hi].
  destruct (Forall2_lookup_l _ _ _ _ _ HF Hi) as (y & _ & Hy). by exists y.
Qed.

Lemma Forall2_targets {A} (P : target → state_entry → Prop) (a : A)
    targets state :
  Forall2 P targets state →
  Forall2 (λ x s, x.1 = a ∧ P x.2 s) (targets ≫= λ target, [(a, target)])
          state.
Proof. induction 1; simpl; by constructor. Qed.

(** The entry the code builds for a target and the saas file and the
    resource template it is of. *)
Local Notation is_entry := (λ (x : saas_file * resource_template * target) s,
  ∃ p_sf p_rt p_t,
    loads_parameters (sf_parameters x.1.1) = Ok p_sf ∧
    loads_parameters (rt_parameters x.1.2) = Ok p_rt ∧
    loads_parameters (t_parameters x.2) = Ok p_t ∧
    entry_of_target x.1.1 x.1.2 x.2 p_sf p_rt p_t s).

Local Notation loads text := (∃ p, loads_parameters text = Ok p).

Lemma collect_resource_templates_spec saas_file p_sf resource_templates :
  loads_parameters (sf_parameters saas_file) = Ok p_sf →
  let definitions := {|
    managed_resource_types := sf_managedResourceTypes saas_file;
    image_patterns := sf_imagePatterns saas_file;
    use_channel_in_image_tag :=
      default false (sf_use_channel_in_image_tag saas_file) |} in
  let collected :=
    collect_resource_templates saas_file p_sf definitions resource_templates in
  (∀ state, collected = Ok state →
     Forall2 is_entry
       (resource_templates ≫= λ resource_template,
          rt_targets resource_template ≫= λ target,
            [(saas_file, resource_template, target)])
       state ∧
     ∀ resource_template, resource_template ∈ resource_templates →
       loads (rt_parameters resource_template) ∧
       ∀ target, target ∈ rt_targets resource_template →
         loads (t_parameters target)) ∧
  ((∀ resource_template, resource_template ∈ resource_templates →
      loads (rt_parameters resource_template) ∧
      ∀ target, target ∈ rt_targets resource_template →
        loads (t_parameters target)) →
   ∃ state, collected = Ok state).
Proof.
  intros Hsf definitions.
  induction resource_templates as [|rt rts IH]; cbn zeta.
  - split.
    + intros state [= <-]. split; [constructor|]. intros rt Hrt.
      by apply elem_of_nil in Hrt.
    + intros _. by eexists.
  - destruct IH as (IHok & IHtotal). cbn [collect_resource_templates].
    destruct (loads_parameters (rt_parameters rt)) as [p_rt|e] eqn:Hp;
      cbn [mbind outcome_bind].
    2:{ split; [intros state [=]|].
        intros Hall. destruct (Hall rt) as [[p Hp'] _]; [set_solver|].
        congruence. }
    destruct (collect_targets_spec saas_file p_sf rt p_rt (rt_targets rt))
      as (Hok & Htotal). fold definitions in Hok, Htotal.
    destruct (collect_targets _ _ _ _ _ (rt_targets rt)) as [state1|e]
      eqn:Hstate1; cbn [mbind outcome_bind].
    2:{ split; [intros state [=]|].
        intros Hall. destruct Htotal as [? ?]; [|done].
        intros t Ht. destruct (Hall rt) as [_ Hts]; [set_solver|]. by apply Hts. }
    specialize (Hok state1 eq_refl).
    destruct (collect_resource_templates _ _ _ rts) as [state2|e] eqn:Hstate2;
      cbn [mbind outcome_bind].
    2:{ split; [intros state [=]|].
        intros Hall. destruct IHtotal as [? ?]; [|done].
        intros rt' Hrt'. apply Hall. set_solver. }
    destruct (IHok state2 eq_refl) as (IHentries & IHloads).
    split; [|intros _; by eexists].
    intros state [= <-]. split.
    + change ((rt :: rts) ≫= _)
        with ((rt_targets rt ≫= λ target, [(saas_file, rt, target)]) ++
              (rts ≫= λ resource_template,
                 rt_targets resource_template ≫= λ target,
                   [(saas_file, resource_template, target)])).
      apply Forall2_app; [|done].
      apply (Forall2_targets _ (saas_file, rt)) in Hok.
      eapply Forall2_impl; [exact Hok|].
      intros [[sf' rt'] t] s ([= -> ->] & p_t & Hpt & Hentry). simpl in *.
      by exists p_sf, p_rt, p_t.
    + intros rt' Hrt'. apply elem_of_cons in Hrt' as [->|Hrt'];
        [|by apply IHloads].
      split; [by eexists|]. intros t Ht.
      destruct (Forall2_all_l _ _ _ t Hok Ht) as (s & p & ? & _). by exists p.
Qed.

Lemma collect_saas_files_spec saas_files :
  (∀ state, collect_saas_files saas_files = Ok state →
     Forall2 is_entry
       (saas_files ≫= λ saas_file,
          sf_resourceTemplates saas_file ≫= λ resource_template,
            rt_targets resource_template ≫= λ target,
              [(saas_file, resource_template, target)])
       state ∧
     ∀ saas_file, saas_file ∈ saas_files →
       loads (sf_parameters saas_file) ∧
       ∀ resource_template,
         resource_template ∈ sf_resourceTemplates saas_file →
         loads (rt_parameters resource_template) ∧
         ∀ target, target ∈ rt_targets resource_template →
           loads (t_parameters target)) ∧
  ((∀ saas_file, saas_file ∈ saas_files →
      loads (sf_parameters saas_file) ∧
      ∀ resource_template,
        resource_template ∈ sf_resourceTemplates saas_file →
        loads (rt_parameters resource_template) ∧
        ∀ target, target ∈ rt_targets resource_template →
          loads (t_parameters target)) →
   ∃ state, collect_saas_files saas_files = Ok state).
Proof.
  induction saas_files as [|sf sfs IH].
  - split.
    + intros state [= <-]. split; [constructor|]. intros sf Hsf.
      by apply elem_of_nil in Hsf.
    + intros _. by eexists.
  - destruct IH as (IHok & IHtotal). cbn [collect_saas_files].
    destruct (loads_parameters (sf_parameters sf)) as [p_sf|e] eqn:Hp;
      cbn [mbind outcome_bind].
    2:{ split; [intros state [=]|].
        intros Hall. destruct (Hall sf) as [[p Hp'] _]; [set_solver|].
        congruence. }
    destruct (collect_resource_templates_spec sf p_sf (sf_resourceTemplates sf)
                Hp) as (Hok & Htotal).
    cbn zeta in Hok, Htotal.
    destruct (collect_resource_templates _ _ _ (sf_resourceTemplates sf))
      as [state1|e] eqn:Hstate1; cbn [mbind outcome_bind].
    2:{ split; [intros state [=]|].
        intros Hall. destruct Htotal as [? ?]; [|done].
        destruct (Hall sf) as [_ Hrts]; [set_solver|]. exact Hrts. }
    destruct (Hok state1 eq_refl) as (Hentries & Hloads).
    destruct (collect_saas_files sfs) as [state2|e] eqn:Hstate2;
      cbn [mbind outcome_bind].
    2:{ split; [intros state [=]|].
        intros Hall. destruct IHtotal as [? ?]; [|done].
        intros sf' Hsf'. apply Hall. set_solver. }
    destruct (IHok state2 eq_refl) as (IHentries & IHloads).
    split; [|intros _; by eexists].
    intros state [= <-]. split.
    + change ((sf :: sfs) ≫= _)
        with ((sf_resourceTemplates sf ≫= λ resource_template,
                 rt_targets resource_template ≫= λ target,
                   [(sf, resource_template, target)]) ++
              (sfs ≫= λ saas_file,
                 sf_resourceTemplates saas_file ≫= λ resource_template,
                   rt_targets resource_template ≫= λ target,
                     [(saas_file, resource_template, target)])).
      by apply Forall2_app.
    + intros sf' Hsf'. apply elem_of_cons in Hsf' as [->|Hsf'];
        [|by apply IHloads].
      split; [by eexists|done].
Qed.


End collect_state_facts.

Section collect_state_examples.
Import SaasFileOwners.


End collect_state_examples.

Section collect_owners_facts.
Import SaasFileOwners.

Local Notation names_of users :=
  (list_to_set (C:=gset string) (owner_username <$> users)).

Lemma add_owner_users name users :
  ∀ (owners : gmap string (gset string)) k,
    foldl (λ (owners : gmap string (gset string)) owner_user,
             alter (λ names, {[owner_username owner_user]} ∪ names)
                   name owners)
          owners users !! k
    = if decide (name = k)
      then (λ names, names_of users ∪ names) <$> owners !! name
      else owners !! k.
Proof.
  induction users as [|u users IH]; intros owners k; simpl.
  - destruct (decide (name = k)) as [->|]; [|done].
    destruct (owners !! k); simpl; [|done]. f_equal. set_solver.
  - rewrite IH. destruct (decide (name = k)) as [->|Hne].
    + rewrite lookup_alter_eq. destruct (owners !! k); simpl; [|done].
      f_equal. set_solver.
    + by rewrite lookup_alter_ne.
Qed.

Lemma add_owner_roles name roles :
  ∀ (owners : gmap string (gset string)) k,
    foldl (λ (owners : gmap string (gset string)) owner_role,
             foldl (λ (owners : gmap string (gset string)) owner_user,
                      alter (λ names, {[owner_username owner_user]} ∪ names)
                            name owners)
                   owners (default [] (users owner_role)))
          owners roles !! k
    = if decide (name = k)
      then (λ names,
              names_of (roles ≫= λ role, default [] (users role)) ∪ names)
             <$> owners !! name
      else owners !! k.
Proof.
  induction roles as [|r roles IH]; intros owners k; simpl.
  - destruct (decide (name = k)) as [->|]; [|done].
    destruct (owners !! k); simpl; [|done]. f_equal. set_solver.
  - rewrite IH. rewrite !add_owner_users.
    destruct (decide (name = k)) as [->|Hne]; [|done].
    rewrite decide_True by done.
    destruct (owners !! k); simpl; [|done].
    f_equal. rewrite fmap_app, list_to_set_app_L. set_solver.
Qed.

Lemma add_saas_file_owners (owners : gmap string (gset string)) saas_file k :
  (let saas_file_name := osf_name saas_file in
   let owners := <[saas_file_name := ∅]> owners in
   foldl (λ (owners : gmap string (gset string)) owner_role,
            foldl (λ (owners : gmap string (gset string)) owner_user,
                     alter (λ names, {[owner_username owner_user]} ∪ names)
                           saas_file_name owners)
                  owners (default [] (users owner_role)))
         owners (default [] (osf_roles saas_file))) !! k
  = if decide (osf_name saas_file = k)
    then Some (names_of (role_users saas_file))
    else owners !! k.
Proof.
  cbn zeta. rewrite add_owner_roles.
  destruct (decide (osf_name saas_file = k)) as [->|Hne].
  - rewrite lookup_insert_eq. simpl. f_equal. unfold role_users. set_solver.
  - by rewrite lookup_insert_ne.
Qed.

Lemma collect_owners_lookup saas_files :
  ∀ (owners : gmap string (gset string)) k,
    foldl (λ (owners : gmap string (gset string)) saas_file,
             let saas_file_name := osf_name saas_file in
             let owners := <[saas_file_name := ∅]> owners in
             foldl (λ (owners : gmap string (gset string)) owner_role,
                      foldl (λ (owners : gmap string (gset string)) owner_user,
                               alter (λ names,
                                        {[owner_username owner_user]} ∪ names)
                                     saas_file_name owners)
                            owners (default [] (users owner_role)))
                   owners (default [] (osf_roles saas_file)))
          owners saas_files !! k
    = match last (filter (λ saas_file, osf_name saas_file = k) saas_files) with
      | Some saas_file => Some (names_of (role_users saas_file))
      | None => owners !! k
      end.
Proof.
  induction saas_files as [|sf sfs IH]; intros owners k; [done|].
  cbn [foldl]. rewrite IH. rewrite filter_cons.
  destruct (decide (osf_name sf = k)) as [Heq|Hne].
  - destruct (filter _ sfs) as [|sf' rest] eqn:Hrest.
    + simpl. rewrite add_saas_file_owners. by rewrite decide_True.
    + change (last (sf :: sf' :: rest)) with (last (sf' :: rest)).
      by destruct (last (sf' :: rest)) eqn:Hlast;
        [|apply last_None in Hlast].
  - destruct (last _); [done|].
    rewrite add_saas_file_owners. by rewrite decide_False.
Qed.

(** X13. [collect_owners] gives owners to the names of the saas files
    of the query, and to no other name.  The owners of a name are set by
    the last saas file of that name, which overwrites what earlier ones
    gave: they are the users of its roles, each once, under their
    [org_username], with a leading [@] when [tag_on_merge_requests] is
    set. *)
Theorem collect_owners_last_saas_file
    (saas_files : list owned_saas_file) (name : string) :
  (collect_owners saas_files !! name = None ↔
   name ∉ osf_name <$> saas_files) ∧
  (∀ saas_file, sets_owners saas_files name saas_file →
     ∃ owners,
       collect_owners saas_files !! name = Some owners ∧
       NoDup owners ∧
       ∀ u, u ∈ owners ↔
            ∃ owner_user, owner_user ∈ role_users saas_file ∧
              u = if bool_decide (tag_on_merge_requests owner_user = Some true)
                  then ("@" ++ org_username owner_user)%string
                  else org_username owner_user) ∧
  (name ∈ osf_name <$> saas_files →
   ∃ saas_file, sets_owners saas_files name saas_file).
Proof.
  unfold collect_owners. rewrite lookup_fmap, collect_owners_lookup.
  rewrite lookup_empty.
  assert (∀ sf, sets_owners saas_files name sf →
            last (filter (λ saas_file, osf_name saas_file = name) saas_files)
              = Some sf) as Hlast.
  { intros sf (earlier & later & -> & Hname & Hlater).
    rewrite filter_app, filter_cons_True by done.
    assert (filter (λ saas_file, osf_name saas_file = name) later = []) as ->.
    { apply elem_of_nil_inv. intros sf' Hsf'.
      apply list_elem_of_filter in Hsf' as [Heq Hin]. apply Hlater.
      apply list_elem_of_fmap. by exists sf'. }
    by rewrite last_snoc. }
  assert (name ∈ osf_name <$> saas_files →
          ∃ saas_file, sets_owners saas_files name saas_file) as Hex.
  { clear Hlast. induction saas_files as [|sf sfs IH];
      [intros Hin; by apply elem_of_nil in Hin|].
    intros Hin. destruct (decide (name ∈ osf_name <$> sfs)) as [Hlater|Hlater].
    - destruct (IH Hlater) as (sf' & earlier & later & -> & ? & ?).
      exists sf', (sf :: earlier), later. by split_and!.
    - rewrite fmap_cons in Hin. apply elem_of_cons in Hin as [->|?]; [|done].
      exists sf, [], sfs. by split_and!. }
  split_and!.
  - split.
    + intros Hnone Hin. destruct (Hex Hin) as [sf Hsf].
      rewrite (Hlast sf Hsf) in Hnone. discriminate Hnone.
    + intros Hnot.
      destruct (last _) as [sf|] eqn:Hl; [|done]. exfalso. apply Hnot.
      apply last_Some_elem_of in Hl.
      apply list_elem_of_filter in Hl as [<- Hin].
      apply list_elem_of_fmap. by exists sf.
  - intros sf Hsf. rewrite (Hlast sf Hsf). simpl. eexists. split; [done|].
    split; [apply NoDup_elements|].
    intros u. rewrite elem_of_elements, elem_of_list_to_set, list_elem_of_fmap.
    unfold owner_username.
    split.
    + intros (user & -> & Hin). exists user. split; [done|].
      by destruct (tag_on_merge_requests user) as [[]|].
    + intros (user & Hin & ->). exists user. split; [|done].
      by destruct (tag_on_merge_requests user) as [[]|].
  - exact Hex.
Qed.

End collect_owners_facts.

Section collect_owners_examples.
Import SaasFileOwners.

Lemma collect_owners_last_saas_file_witness :
  ∃ owners,
    collect_owners example_owned_saas_files !! "app" = Some owners ∧
    "@alice" ∈ owners ∧ "bob" ∈ owners.
Proof.
  destruct (collect_owners_last_saas_file example_owned_saas_files "app")
    as (_ & Howners & _).
  destruct (Howners {| osf_name := "app";
                       osf_roles :=
                         Some [{| users :=
                                    Some [{| org_username := "alice";
                                             tag_on_merge_requests := Some true |};
                                          {| org_username := "bob";
                                             tag_on_merge_requests := None |}] |};
                               {| users := None |}] |})
    as (owners & Hlookup & _ & Hin).
  - exists [], [{| osf_name := "other"; osf_roles := None |}].
    split; [reflexivity|]. split; [reflexivity|].
    intros Hother. apply list_elem_of_singleton in Hother. discriminate Hother.
  - exists owners. split; [exact Hlookup|]. split; apply Hin.
    + exists {| org_username := "alice"; tag_on_merge_requests := Some true |}.
      split; [apply list_elem_of_here|reflexivity].
    + exists {| org_username := "bob"; tag_on_merge_requests := None |}.
      split; [apply list_elem_of_further, list_elem_of_here|reflexivity].
Defined.

End collect_owners_examples.

Section write_diffs_facts.
Import SaasFileOwners.

Local Notation append_new :=
  (λ (unique_diffs : list (string * string)) diff,
     if bool_decide (diff ∉ unique_diffs)
     then unique_diffs ++ [diff] else unique_diffs).

Lemma unique_diffs_spec diffs :
  ∀ unique_diffs,
    unique_diffs `prefix_of` foldl append_new unique_diffs diffs ∧
    (NoDup unique_diffs → NoDup (foldl append_new unique_diffs diffs)) ∧
    ∀ diff, diff ∈ foldl append_new unique_diffs diffs ↔
            diff ∈ unique_diffs ∨ diff ∈ diffs.
Proof.
  induction diffs as [|d diffs IH]; intros unique_diffs; cbn [foldl].
  - split_and!; [done|done|]. intros diff. set_solver.
  - destruct (IH (append_new unique_diffs d)) as (Hpre & Hnodup & Hin).
    split_and!.
    + etrans; [|exact Hpre]. cbv beta. case_bool_decide; [|done].
      by apply prefix_app_r.
    + intros Hunique. apply Hnodup. cbv beta. case_bool_decide; [|done].
      apply NoDup_app. split_and!; [done| |apply NoDup_singleton].
      intros x Hx Hx'. apply list_elem_of_singleton in Hx'. by subst x.
    + intros diff. rewrite Hin. cbv beta.
      case_bool_decide as Hd.
      * rewrite elem_of_app, list_elem_of_singleton, elem_of_cons. tauto.
      * rewrite elem_of_cons. split; [tauto|].
        intros [?|[->|?]]; [by left| |by right]. left.
        by destruct (decide (d ∈ unique_diffs)).
Qed.

(** X14. The body [write_diffs_to_file] writes carries the flag it is
    given, and as items the pairs of ['saas_file_name'] and
    ['environment'] of the diffs, each once, in the order in which they
    first occur: the items of the first diffs of a list are the first
    items of the list. *)
Theorem write_diffs_to_file_unique_items
    (diffs : list state_entry) (valid : bool) :
  let body := write_diffs_to_file diffs valid in
  valid_saas_file_changes_only body = valid ∧
  NoDup (items body) ∧
  (∀ name env, (name, env) ∈ items body ↔
     ∃ diff, diff ∈ diffs ∧ saas_file_name diff = name ∧
             environment diff = env) ∧
  (∀ n, items (write_diffs_to_file (take n diffs) valid)
          `prefix_of` items body).
Proof.
  cbn zeta. unfold write_diffs_to_file. cbn [valid_saas_file_changes_only items].
  split; [done|].
  destruct (unique_diffs_spec
              ((λ diff, (saas_file_name diff, environment diff)) <$> diffs) [])
    as (_ & Hnodup & Hin).
  split; [apply Hnodup; constructor|]. split.
  - intros name env. rewrite Hin, list_elem_of_fmap. split.
    + intros [Hnil|(d & [= -> ->] & Hd)]; [by apply elem_of_nil in Hnil|].
      by exists d.
    + intros (d & Hd & <- & <-). right. by exists d.
  - intros n. rewrite <-(take_drop n diffs) at 2.
    rewrite fmap_app, foldl_app. apply unique_diffs_spec.
Qed.

End write_diffs_facts.
